(** * Solana MultiSend: batch planning, account provisioning and confirmation

    A shallow embedding of the send pipeline of [src/App.tsx] (and of the
    stand-alone builder of [src/utils/solanaUtils.ts]):

    - [handleParse]: tokenising the recipient text and capping the list;
    - the chunking loop and the amount conversion of
      [buildMultiSendTransaction];
    - the associated-token-account resolution of [buildMultiSendTransaction];
    - [confirmTransactionWithTimeout]: the polling confirmation watcher;
    - [handleSend] and [handleMultiTokenSend]: the two orchestrators.

    JavaScript strings are sequences of UTF-16 code units, JavaScript numbers
    are IEEE-754 binary64 values (the [spec_float] of the standard library at
    precision 53), asynchronous code is sequential code over an explicit
    machine state, and exceptions are an error result. *)

From Stdlib Require Import String Ascii DecimalString.
From Stdlib Require Import ZArith NArith List Lia Bool Arith.
From Stdlib Require Import SpecFloat.
From Equations Require Import Equations.
Import ListNotations.

Set Implicit Arguments.

(* ===================================================================== *)
(** * Part I. Definitions                                                 *)
(* ===================================================================== *)

(** ** JavaScript strings *)

Definition code_unit := N.
Definition jsstring := list code_unit.

(** A string literal of the source, as code units. *)
Definition js (s : string) : jsstring :=
  map N_of_ascii (list_ascii_of_string s).

(** The code units matched by [\s] in a regular expression, which are also
    the ones removed by [String.prototype.trim] and skipped by [parseFloat]:
    ECMAScript's WhiteSpace and LineTerminator. *)
Definition is_white_space (c : code_unit) : bool :=
  ((c =? 9) || (c =? 10) || (c =? 11) || (c =? 12) || (c =? 13) || (c =? 32)
   || (c =? 160) || (c =? 5760) || ((8192 <=? c) && (c <=? 8202))
   || (c =? 8232) || (c =? 8233) || (c =? 8239) || (c =? 8287)
   || (c =? 12288) || (c =? 65279))%N.

Fixpoint drop_while (p : code_unit -> bool) (s : jsstring) : jsstring :=
  match s with
  | [] => []
  | c :: s' => if p c then drop_while p s' else s
  end.

(** [s.trim()] *)
Definition trim (s : jsstring) : jsstring :=
  rev (drop_while is_white_space (rev (drop_while is_white_space s))).

(** Truthiness of a string value: every string but the empty one. *)
Definition truthy (s : jsstring) : bool :=
  match s with [] => false | _ :: _ => true end.

(** [a || b] on strings. *)
Definition or_else (a b : jsstring) : jsstring := if truthy a then a else b.

(** The character class [[\n\s,]] of [handleParse]. *)
Definition is_separator (c : code_unit) : bool :=
  ((c =? 10) || is_white_space c || (c =? 44))%N.

(** [text.split(/[\n\s,]+/)]: the pieces of [text] between maximal runs of
    separators.  [cur] is the piece being read, reversed; [in_sep] tells that
    the previous code unit was a separator, so that a run of separators closes
    one piece only.  A separator at the start or at the end of the text leaves
    an empty piece there, as [split] does. *)
Fixpoint split_go (cur : jsstring) (in_sep : bool) (text : jsstring)
  : list jsstring :=
  match text with
  | [] => [rev cur]
  | c :: rest =>
      if is_separator c
      then if in_sep then split_go [] true rest
           else rev cur :: split_go [] true rest
      else split_go (c :: cur) false rest
  end.

Definition split_separators (text : jsstring) : list jsstring :=
  split_go [] false text.

(** [arr.slice(start, end)] for indices within [0, 2^53). *)
Definition slice {A} (arr : list A) (start end_ : nat) : list A :=
  firstn (end_ - start) (skipn start arr).

(** [for (let i = start; i < n; i += step) { body }], the loop state being
    what the body updates.  The step is one of the positive constants of the
    source. *)
Equations? for_step {S} (n : nat) (step : positive) (body : nat -> S -> S)
    (i : nat) (s : S) : S by wf (n - i) lt :=
  for_step n step body i s with lt_dec i n => {
    | left _ := for_step n step body (i + Pos.to_nat step) (body i s);
    | right _ := s }.
Proof. lia. Qed.

(** ** Constants of [App.tsx] *)

Definition MAX_BATCH_SIZE : nat := 100.
Definition MAX_TX_SIZE_SOL : positive := 8.
Definition MAX_TX_SIZE_SPL : positive := 5.
Definition SOL_MINT : jsstring := js "SOL".

(** ** Recipients and [handleParse] *)

Record Recipient := { address : jsstring; amount : jsstring }.

Inductive Mode := SAME | DIFF.

(** The tokens of [handleParse]:
    [text.split(/[\n\s,]+/).filter(token => token.trim() !== '')]. *)
Definition tokenize (text : jsstring) : list jsstring :=
  filter (fun token => truthy (trim token)) (split_separators text).

(** One turn of the loop body of the DIFF branch, at index [i]. *)
Definition paired_body (tokens : list jsstring) (i : nat)
    (recipients : list Recipient) : list Recipient :=
  match nth_error tokens i with
  | Some t =>
      if truthy t
      then recipients ++
           [{| address := trim t;
               amount := match nth_error tokens (i + 1) with
                         | Some a => or_else (trim a) (js "0")
                         | None => js "0"
                         end |}]
      else recipients
  | None => recipients
  end.

(** [for (let i = 0; i < tokens.length; i += 2) { ... }] *)
Definition paired_loop (tokens : list jsstring) : list Recipient :=
  for_step (List.length tokens) 2 (paired_body tokens) 0 [].

(** The recipients read from the text, before the cap. *)
Definition parse_recipients (mode : Mode) (sameAmount : jsstring)
    (text : jsstring) : list Recipient :=
  let tokens := tokenize text in
  match mode with
  | SAME =>
      map (fun token => {| address := trim token;
                           amount := or_else sameAmount (js "0") |}) tokens
  | DIFF => paired_loop tokens
  end.

(** ** JavaScript numbers

    A number is a binary64 value; the arithmetic is the standard library's
    specification of IEEE-754 at precision 53 and maximal exponent 1024. *)

Definition number := spec_float.

Definition number_mul (x y : number) : number := SFmul 53 1024 x y.

(** [x > 0] *)
Definition gt_zero (x : number) : bool := SFltb (S754_zero false) x.

Definition is_digit (c : code_unit) : bool := ((48 <=? c) && (c <=? 57))%N.

Definition digit_value (c : code_unit) : Z := Z.of_N c - 48.

(** The longest run of decimal digits at the start of [s], and the rest. *)
Fixpoint take_digits (s : jsstring) : jsstring * jsstring :=
  match s with
  | c :: s' =>
      if is_digit c
      then let '(ds, rest) := take_digits s' in (c :: ds, rest)
      else ([], s)
  | [] => ([], [])
  end.

Definition digits_value (ds : jsstring) : Z :=
  fold_left (fun acc c => 10 * acc + digit_value c)%Z ds 0%Z.

Fixpoint strip_prefix (p s : jsstring) : option jsstring :=
  match p, s with
  | [], _ => Some s
  | a :: p', b :: s' => if (a =? b)%N then strip_prefix p' s' else None
  | _ :: _, [] => None
  end.

(** The number nearest to [m * 10^k] (ties to even), with the sign [neg]:
    the quotient of the two integers [m * 10^k] and [1], or [m] and
    [10^-k], rounded once. *)
Definition number_of_decimal (neg : bool) (m k : Z) : number :=
  match m with
  | Zpos _ =>
      let num := if (0 <=? k)%Z then (m * 10 ^ k)%Z else m in
      let den := if (0 <=? k)%Z then 1%Z else (10 ^ (- k))%Z in
      SFdiv 53 1024 (S754_finite neg (Z.to_pos num) 0)
                    (S754_finite false (Z.to_pos den) 0)
  | _ => S754_zero neg
  end.

(** An optional sign: whether it is [-], and the rest. *)
Definition take_sign (s : jsstring) : bool * jsstring :=
  match s with
  | c :: s' =>
      if (c =? 43)%N then (false, s')
      else if (c =? 45)%N then (true, s')
      else (false, s)
  | [] => (false, s)
  end.

(** The value of the ExponentPart at the start of [s], 0 when there is none:
    [e] or [E], an optional sign, and at least one digit. *)
Definition parse_exponent (s : jsstring) : Z :=
  match s with
  | c :: s1 =>
      if ((c =? 101) || (c =? 69))%N
      then let '(neg, s2) := take_sign s1 in
           match fst (take_digits s2) with
           | [] => 0%Z
           | ds => if neg then (- digits_value ds)%Z else digits_value ds
           end
      else 0%Z
  | [] => 0%Z
  end.

(** [parseFloat(input)]: leading white space is skipped, the longest prefix
    that is a StrDecimalLiteral is read, and its value is rounded to the
    nearest number; [NaN] when no prefix is one. *)
Definition parseFloat (input : jsstring) : number :=
  let '(neg, s1) := take_sign (drop_while is_white_space input) in
  match strip_prefix (js "Infinity") s1 with
  | Some _ => S754_infinity neg
  | None =>
      let '(int_part, s2) := take_digits s1 in
      let '(frac_part, s3) :=
        match s2 with
        | c :: s' => if (c =? 46)%N then take_digits s' else ([], s2)
        | [] => ([], s2)
        end in
      match int_part ++ frac_part with
      | [] => S754_nan
      | ds => number_of_decimal neg (digits_value ds)
                (parse_exponent s3 - Z.of_nat (List.length frac_part))
      end
  end.

(** [Math.pow(10, decimals)] for a natural number of decimals: the number
    nearest to [10^decimals], which is [10^decimals] itself up to 22. *)
Definition Math_pow10 (decimals : nat) : number :=
  binary_normalize 53 1024 (10 ^ Z.of_nat decimals) 0 false.

(** The integer [floor (x + 1/2)] for [x = v * 2^e], [e < 0]. *)
Definition round_half_up (v e : Z) : Z :=
  (2 * v + 2 ^ (- e)) / (2 * 2 ^ (- e)).

(** [Math.round(x)]: the integral number nearest to [x], the larger one on a
    tie; [NaN], the infinities and the zeros are returned as they are, and a
    result of zero keeps the sign of [x]. *)
Definition Math_round (x : number) : number :=
  match x with
  | S754_finite s m e =>
      if (0 <=? e)%Z then x
      else match round_half_up (if s then Zneg m else Zpos m) e with
           | Z0 => S754_zero s
           | n => binary_normalize 53 1024 n 0 false
           end
  | _ => x
  end.

(** [BigInt(x)]: the integer [x] is, and a RangeError ([None]) when [x] is
    not integral: [NaN], an infinity, or a number with a fractional part. *)
Definition BigInt (x : number) : option Z :=
  match x with
  | S754_zero _ => Some 0%Z
  | S754_finite s m e =>
      let v := if s then Zneg m else Zpos m in
      if (0 <=? e)%Z then Some (v * 2 ^ e)%Z
      else if (Zpos m mod 2 ^ (- e) =? 0)%Z then Some (v / 2 ^ (- e))%Z
      else None
  | _ => None
  end.

(** [BigInt(Math.round(parseFloat(amount) * Math.pow(10, decimals)))],
    the amount in the smallest unit ([App.tsx] line 279, [solanaUtils.ts]
    line 103). *)
Definition to_smallest_unit (amount : jsstring) (decimals : nat) : option Z :=
  BigInt (Math_round (number_mul (parseFloat amount) (Math_pow10 decimals))).

(** ** The chunking loop of [buildMultiSendTransaction]

    [for (let i = 0; i < recipients.length; i += chunkSize)
       chunks.push(recipients.slice(i, i + chunkSize));] *)
Definition chunk {A} (recipients : list A) (chunkSize : positive)
  : list (list A) :=
  for_step (List.length recipients) chunkSize
    (fun i chunks =>
       chunks ++ [slice recipients i (i + Pos.to_nat chunkSize)])
    0 [].

(** ** Keys, instructions and transactions *)

(** A [PublicKey] object, as the 256-bit value it holds. *)
Definition PublicKey := N.
Definition Signature := jsstring.

Inductive Instruction :=
| SystemTransfer (fromPubkey toPubkey : PublicKey) (lamports : Z)
| TransferChecked (source mint destination owner : PublicKey)
    (amountBig : Z) (decimals : nat) (programId : PublicKey)
| CreateAssociatedTokenAccount (payer ata owner mint programId : PublicKey).

Record Transaction := {
  instructions : list Instruction;
  recentBlockhash : option jsstring;
  lastValidBlockHeight : option N;
  feePayer : option PublicKey }.

(** [new Transaction()] and [tx.add(instruction)] *)
Definition new_Transaction : Transaction :=
  {| instructions := []; recentBlockhash := None;
     lastValidBlockHeight := None; feePayer := None |}.

Definition tx_add (tx : Transaction) (i : Instruction) : Transaction :=
  {| instructions := instructions tx ++ [i];
     recentBlockhash := recentBlockhash tx;
     lastValidBlockHeight := lastValidBlockHeight tx;
     feePayer := feePayer tx |}.

(** ** Errors and the replies of the outside world *)

(** A thrown [Error], as its message. *)
Record JsError := { message : jsstring }.

Definition Error (msg : jsstring) : JsError := {| message := msg |}.

Inductive Response (A : Type) :=
| Resolved (a : A)
| Rejected (e : JsError).
Arguments Resolved {A} a.
Arguments Rejected {A} e.

(** One entry of the value of [getSignatureStatuses]: [err] is the JSON text
    of a non-null [status.err]. *)
Record SignatureStatus := {
  err : option jsstring;
  confirmationStatus : option jsstring }.

(** The [value] of a [getSignatureStatuses] reply: [null] or an array whose
    entries are [null] or a status. *)
Inductive StatusesValue :=
| NoStatuses
| Statuses (entries : list (option SignatureStatus)).

(** The JSON body of the fee-payer reply: [data.error] (with its rendered
    text), no usable [data.result], or [data.result.serializedTransaction]. *)
Inductive FeePayerReply :=
| ReplyError (text : jsstring)
| ReplyNoResult
| ReplyResult (serializedTransaction : jsstring).

(** What the SDK and the network answer.  The network answers are indexed by
    the number of steps (requests and timers) the run has made so far, so a
    world is any behaviour of the network along a sequential run. *)
Record World := {
  w_newPublicKey : jsstring -> Response PublicKey;
  w_getAssociatedTokenAddress :
    PublicKey -> PublicKey -> PublicKey -> Response PublicKey;
  w_TOKEN_PROGRAM_ID : PublicKey;
  w_getAccountInfo : nat -> PublicKey -> Response bool;
  w_getLatestBlockhash : nat -> Response (jsstring * N);
  w_serialize : Transaction -> Response jsstring;
  w_fetchFeePayer : nat -> jsstring -> Response FeePayerReply;
  w_sendRawTransaction : nat -> jsstring -> Response Signature;
  w_sendTransaction : nat -> Transaction -> Response Signature;
  w_getSignatureStatuses : nat -> Signature -> Response StatusesValue;
  w_elapsed : nat -> N }.

(** ** The dashboard state *)

Inductive Status := IDLE | VALIDATING | SENDING | SUCCESS | ERROR.

Inductive TokenType := SOL | SPL | MULTI.

Record TokenAccount := {
  mint : jsstring;
  token_decimals : nat;
  symbol : jsstring;
  selected : bool;
  amountToSend : option jsstring;
  token_programId : option PublicKey }.

(** The status messages, one constructor for each template of the source. *)
Inductive StatusMsg :=
| MsgEmpty
| MsgLimitExceeded (cap : nat)
| MsgValidating
| MsgBuilding (recipients : nat)
| MsgCreatingAtas (toCreate batches : nat) (alchemy : bool)
| MsgSponsoringAta (batch batches : nat)
| MsgSigningAta (batch batches : nat)
| MsgConfirmingAtas (batches : nat)
| MsgAtasCreated
| MsgSendingTransfers (recipients batches : nat)
| MsgSendingBatch (batch batches : nat)
| MsgConfirmingTransfers (batches : nat)
| MsgConfirmingBatch (batch batches : nat)
| MsgSent (recipients toCreate existing : nat)
| MsgValidatingMulti
| MsgToken (index tokens : nat) (symbol : jsstring) (recipients : nat)
| MsgCreatingAtasFor (toCreate : nat) (symbol : jsstring) (alchemy : bool)
| MsgSendingToken (symbol : jsstring) (batches : nat)
| MsgTokenBatch (symbol : jsstring) (batch batches : nat)
| MsgSentMulti (tokens recipients created existed : nat)
| MsgFailed (text : jsstring).

Record Dashboard := {
  publicKey : option PublicKey;
  mode : Mode;
  tokenType : TokenType;
  splMint : jsstring;
  splDecimals : nat;
  splProgramId : PublicKey;
  tokenAccounts : list TokenAccount;
  customTokens : list TokenAccount;
  rawText : jsstring;
  parsedRecipients : list Recipient;
  sameAmount : jsstring;
  status : Status;
  statusMsg : StatusMsg;
  txSigs : list Signature }.

Definition set_parse (d : Dashboard) (text : jsstring) (msg : StatusMsg)
    (rs : list Recipient) : Dashboard :=
  {| publicKey := publicKey d; mode := mode d; tokenType := tokenType d;
     splMint := splMint d; splDecimals := splDecimals d;
     splProgramId := splProgramId d; tokenAccounts := tokenAccounts d;
     customTokens := customTokens d; rawText := text;
     parsedRecipients := rs; sameAmount := sameAmount d;
     status := status d; statusMsg := msg; txSigs := txSigs d |}.

(** [handleParse(text)]: the dashboard after the three state updates. *)
Definition handleParse (d : Dashboard) (text : jsstring) : Dashboard :=
  let recipients := parse_recipients (mode d) (sameAmount d) text in
  if MAX_BATCH_SIZE <? List.length recipients
  then set_parse d text (MsgLimitExceeded MAX_BATCH_SIZE)
         (slice recipients 0 MAX_BATCH_SIZE)
  else set_parse d text MsgEmpty recipients.

(** ** The machine: dashboard, clock, and the record of what was done *)

Inductive BatchKind := Creation | Transfer.

(** The value returned by [confirmTransactionWithTimeout]. *)
Record ConfirmResult := { success : bool; error : option jsstring }.

(** The record of a run: a build that returned, a transaction the network
    accepted (its asset, kind and batch index, and the signature returned),
    and a return of the confirmation watcher. *)
Inductive Event :=
| EvBuilt (token ataBatches transferBatches : nat)
| EvSent (token : nat) (kind : BatchKind) (batch : nat) (sig : Signature)
| EvConfirmed (sig : Signature) (result : ConfirmResult).

Record Machine := {
  dash : Dashboard;
  clock : N;
  steps : nat;
  log : list Event }.

Inductive Outcome (A : Type) :=
| Returned (a : A)
| Thrown (e : JsError).
Arguments Returned {A} a.
Arguments Thrown {A} e.

(** Sequential code that may throw. *)
Definition M (A : Type) := Machine -> Outcome A * Machine.

Definition ret {A} (a : A) : M A := fun m => (Returned a, m).

Definition bind {A B} (c : M A) (k : A -> M B) : M B :=
  fun m => match c m with
           | (Returned a, m') => k a m'
           | (Thrown e, m') => (Thrown e, m')
           end.

Definition throw {A} (e : JsError) : M A := fun m => (Thrown e, m).

(** [try { c } catch (e) { handler }] *)
Definition try_catch {A} (c : M A) (handler : JsError -> M A) : M A :=
  fun m => match c m with
           | (Returned a, m') => (Returned a, m')
           | (Thrown e, m') => handler e m'
           end.

Notation "x <- c ;; k" := (bind c (fun x => k))
  (at level 61, c at next level, right associativity).
Notation "c ;;; k" := (bind c (fun _ => k))
  (at level 61, right associativity).

(** [for (const x of l) { s = f(s, x) }] *)
Fixpoint foldM {A S} (f : S -> A -> M S) (l : list A) (s : S) : M S :=
  match l with
  | [] => ret s
  | x :: l' => s' <- f s x ;; foldM f l' s'
  end.

(** The entries of an array with their indices, for
    [for (let i = 0; i < arr.length; i++) { ... arr[i] ... }]. *)
Definition enumerate {A} (l : list A) : list (nat * A) :=
  combine (seq 0 (List.length l)) l.

Definition set_dash (m : Machine) (d : Dashboard) : Machine :=
  {| dash := d; clock := clock m; steps := steps m; log := log m |}.

Definition setStatus (s : Status) : M unit :=
  fun m =>
    let d := dash m in
    (Returned tt,
     set_dash m
       {| publicKey := publicKey d; mode := mode d; tokenType := tokenType d;
          splMint := splMint d; splDecimals := splDecimals d;
          splProgramId := splProgramId d; tokenAccounts := tokenAccounts d;
          customTokens := customTokens d; rawText := rawText d;
          parsedRecipients := parsedRecipients d;
          sameAmount := sameAmount d;
          status := s; statusMsg := statusMsg d; txSigs := txSigs d |}).

Definition setStatusMsg (msg : StatusMsg) : M unit :=
  fun m =>
    let d := dash m in
    (Returned tt,
     set_dash m
       {| publicKey := publicKey d; mode := mode d; tokenType := tokenType d;
          splMint := splMint d; splDecimals := splDecimals d;
          splProgramId := splProgramId d; tokenAccounts := tokenAccounts d;
          customTokens := customTokens d; rawText := rawText d;
          parsedRecipients := parsedRecipients d;
          sameAmount := sameAmount d;
          status := status d; statusMsg := msg; txSigs := txSigs d |}).

Definition setTxSigs (sigs : list Signature) : M unit :=
  fun m =>
    let d := dash m in
    (Returned tt,
     set_dash m
       {| publicKey := publicKey d; mode := mode d; tokenType := tokenType d;
          splMint := splMint d; splDecimals := splDecimals d;
          splProgramId := splProgramId d; tokenAccounts := tokenAccounts d;
          customTokens := customTokens d; rawText := rawText d;
          parsedRecipients := parsedRecipients d;
          sameAmount := sameAmount d;
          status := status d; statusMsg := statusMsg d; txSigs := sigs |}).

(** Appending to the record of the run. *)
Definition emit (ev : Event) : M unit :=
  fun m => (Returned tt,
            {| dash := dash m; clock := clock m; steps := steps m;
               log := log m ++ [ev] |}).

Definition jsstring_eqb (a b : jsstring) : bool :=
  if list_eq_dec N.eq_dec a b then true else false.

(** The decimal text of a natural number, for the template literals. *)
Definition nat_to_js (n : nat) : jsstring :=
  js (NilZero.string_of_uint (Nat.to_uint n)).

(** [arr.slice(-k)] for a natural [k]: the last [k] entries, and the whole
    array for [k = 0], since [-0] is [0]. *)
Definition slice_last {A} (arr : list A) (k : nat) : list A :=
  match k with
  | 0 => arr
  | _ => skipn (List.length arr - k) arr
  end.

Definition ALCHEMY_CONFIG_enabled : bool := true.

Record AtaStats := { existing : nat; toCreate : nat }.

Record AtaWork := {
  work_recipient : PublicKey;
  work_ata : PublicKey;
  work_mint : PublicKey }.

Record BuildResult := {
  transferTxs : list Transaction;
  ataTxs : list Transaction;
  ataStats : AtaStats }.

(** What [requestAlchemyFeePayer] returns: [{ success: true,
    signedTransaction }] or [{ success: false, error }]. *)
Inductive FeePayerResult :=
| FeePayerOk (signedTransaction : jsstring)
| FeePayerFailed (error : jsstring).

Section Run.

Variable w : World.

(** ** Requests, timers and the clock *)

(** One step of the outside world: the time it took. *)
Definition tick (extra : N) (m : Machine) : Machine :=
  {| dash := dash m;
     clock := (clock m + extra + w_elapsed w (steps m))%N;
     steps := S (steps m);
     log := log m |}.

(** [await] of a network request: its reply is the world's at this step. *)
Definition request {A} (reply : nat -> Response A) : M A :=
  fun m => match reply (steps m) with
           | Resolved a => (Returned a, tick 0 m)
           | Rejected e => (Thrown e, tick 0 m)
           end.

(** A pure SDK call that may throw. *)
Definition sdk {A} (r : Response A) : M A :=
  fun m => match r with
           | Resolved a => (Returned a, m)
           | Rejected e => (Thrown e, m)
           end.

(** [await new Promise(resolve => setTimeout(resolve, ms))]: at least [ms]
    milliseconds pass. *)
Definition sleep (ms : N) : M unit := fun m => (Returned tt, tick ms m).

Definition newPublicKey (s : jsstring) : M PublicKey :=
  sdk (w_newPublicKey w s).

(** [isValidAddress]: whether [new PublicKey(address)] returns. *)
Definition isValidAddress (address : jsstring) : bool :=
  match w_newPublicKey w address with
  | Resolved _ => true
  | Rejected _ => false
  end.

Definition getAssociatedTokenAddress (mintKey owner programId : PublicKey)
  : M PublicKey :=
  sdk (w_getAssociatedTokenAddress w mintKey owner programId).

(** ** [confirmTransactionWithTimeout] *)

(** One turn of the loop up to its [return] or to the sleep that ends the
    turn: [Some r] when the turn returns [r], [None] when it goes on. *)
Definition poll (signature : Signature) (commitment : jsstring) (m : Machine)
  : option ConfirmResult * Machine :=
  let m1 := tick 0 m in
  match w_getSignatureStatuses w (steps m) signature with
  | Rejected _ => (None, m1)
  | Resolved NoStatuses => (None, m1)
  | Resolved (Statuses []) => (None, m1)
  | Resolved (Statuses (None :: _)) => (None, m1)
  | Resolved (Statuses (Some st :: _)) =>
      match err st with
      | Some json =>
          (Some {| success := false;
                   error := Some (js "Transaction failed: " ++ json) |}, m1)
      | None =>
          match confirmationStatus st with
          | Some c =>
              if jsstring_eqb c commitment || jsstring_eqb c (js "finalized")
              then (Some {| success := true; error := None |}, m1)
              else (None, m1)
          | None => (None, m1)
          end
      end
  end.

Definition timeout_result : ConfirmResult :=
  {| success := false;
     error := Some (js "Transaction confirmation timeout") |}.

(** [while (Date.now() - startTime < timeoutMs) { ... }] and the [return]
    after it.  Every turn that goes on sleeps 2000 ms first, so the time left
    decreases. *)
Equations? confirm_loop (signature : Signature) (commitment : jsstring)
    (startTime : N) (timeoutMs : Z) (m : Machine) : ConfirmResult * Machine
    by wf (Z.to_nat (Z.of_N startTime + timeoutMs - Z.of_N (clock m))) lt :=
  confirm_loop signature commitment startTime timeoutMs m
    with Z_lt_dec (Z.of_N (clock m) - Z.of_N startTime) timeoutMs => {
    | left _ :=
        match fst (poll signature commitment m) with
        | Some r => (r, snd (poll signature commitment m))
        | None =>
            confirm_loop signature commitment startTime timeoutMs
              (tick 2000 (snd (poll signature commitment m)))
        end;
    | right _ := (timeout_result, m) }.
Proof.
  assert (Hc : clock (snd (poll signature commitment m)) =
               (clock m + 0 + w_elapsed w (steps m))%N).
  { unfold poll.
    destruct (w_getSignatureStatuses w (steps m) signature) as [[|[|[st|] ?]]|];
      try reflexivity.
    destruct (err st); [reflexivity|].
    destruct (confirmationStatus st); [|reflexivity].
    destruct (_ || _); reflexivity. }
  rewrite Hc. lia.
Qed.

Definition confirmTransactionWithTimeout (signature : Signature)
    (commitment : jsstring) (timeoutMs : Z) : M ConfirmResult :=
  fun m =>
    let '(r, m') :=
      confirm_loop signature commitment (clock m) timeoutMs m in
    (Returned r, m').

(** [await confirmTransactionWithTimeout(connection, sig, 'confirmed',
    90000)] as the orchestrators call it: the value is dropped; the record of
    the run keeps it. *)
Definition await_confirmation (sig : Signature) : M unit :=
  r <- confirmTransactionWithTimeout sig (js "confirmed") 90000 ;;
  emit (EvConfirmed sig r).

(** ** [requestAlchemyFeePayer] *)

Definition requestAlchemyFeePayer (serializedTransaction : jsstring)
  : M FeePayerResult :=
  try_catch
    (data <- request (fun k => w_fetchFeePayer w k serializedTransaction) ;;
     match data with
     | ReplyError text => ret (FeePayerFailed (js "Alchemy error: " ++ text))
     | ReplyNoResult =>
         ret (FeePayerFailed (js "Invalid response from Alchemy Gas Manager"))
     | ReplyResult signed =>
         if truthy signed then ret (FeePayerOk signed)
         else ret (FeePayerFailed
                     (js "Invalid response from Alchemy Gas Manager"))
     end)
    (fun error =>
       ret (FeePayerFailed
              (or_else (message error)
                       (js "Failed to request fee payer from Alchemy")))).

(** ** [buildMultiSendTransaction] of [App.tsx] *)

(** The body of [for (const recipient of recipients)] in the [!isSol]
    branch: derive the account, look it up, count it, queue its creation. *)
Definition resolve_ata (mintPubkey programId : PublicKey)
    (acc : AtaStats * list AtaWork) (recipient : Recipient)
  : M (AtaStats * list AtaWork) :=
  let '(stats, atasToCreate) := acc in
  recipientPubkey <- newPublicKey (address recipient) ;;
  ata <- getAssociatedTokenAddress mintPubkey recipientPubkey programId ;;
  ataExists <- request (fun k => w_getAccountInfo w k ata) ;;
  if (ataExists : bool)
  then ret ({| existing := S (existing stats); toCreate := toCreate stats |},
            atasToCreate)
  else ret ({| existing := existing stats; toCreate := S (toCreate stats) |},
            atasToCreate ++
            [{| work_recipient := recipientPubkey; work_ata := ata;
                work_mint := mintPubkey |}]).

(** The account-resolution loop of [buildMultiSendTransaction], from
    [ataStats = { existing: 0, toCreate: 0 }] and an empty [atasToCreate]. *)
Definition resolve_atas (mintPubkey programId : PublicKey)
    (recipients : list Recipient) : M (AtaStats * list AtaWork) :=
  foldM (resolve_ata mintPubkey programId) recipients
    ({| existing := 0; toCreate := 0 |}, []).

(** One creation transaction: an instruction for each item of the chunk. *)
Definition build_ata_tx (sender programId : PublicKey)
    (ataChunk : list AtaWork) : Transaction :=
  fold_left
    (fun ataTx a =>
       tx_add ataTx
         (CreateAssociatedTokenAccount sender (work_ata a) (work_recipient a)
            (work_mint a) programId))
    ataChunk new_Transaction.

(** [const ataChunkSize = 2;
     for (let i = 0; i < atasToCreate.length; i += ataChunkSize) { ... }] *)
Definition build_ata_txs (sender programId : PublicKey)
    (atasToCreate : list AtaWork) : list Transaction :=
  for_step (List.length atasToCreate) 2
    (fun i ataTxs =>
       ataTxs ++ [build_ata_tx sender programId
                    (slice atasToCreate i (i + 2))])
    0 [].

(** The RangeError of [BigInt] on a number that is not an integer (the text
    of the engine also names the number). *)
Definition range_error : JsError :=
  Error (js "The number cannot be converted to a BigInt because it is not an integer").

(** The body of [for (const recipient of chunk)]. *)
Definition add_transfer (sender : PublicKey) (isSol : bool)
    (tokenMint : jsstring) (decimals : nat) (programId : PublicKey)
    (transaction : Transaction) (recipient : Recipient) : M Transaction :=
  recipientPubkey <- newPublicKey (address recipient) ;;
  match to_smallest_unit (amount recipient) decimals with
  | None => throw range_error
  | Some amountBig =>
      if isSol
      then ret (tx_add transaction
                  (SystemTransfer sender recipientPubkey amountBig))
      else
        mintPubkey <- newPublicKey tokenMint ;;
        senderATA <- getAssociatedTokenAddress mintPubkey sender programId ;;
        recipientATA <-
          getAssociatedTokenAddress mintPubkey recipientPubkey programId ;;
        ret (tx_add transaction
               (TransferChecked senderATA mintPubkey recipientATA sender
                  amountBig decimals programId))
  end.

(** The body of [for (const chunk of chunks)]. *)
Definition build_transfer_tx (sender : PublicKey) (isSol : bool)
    (tokenMint : jsstring) (decimals : nat) (programId : PublicKey)
    (transferTxs : list Transaction) (chunk_ : list Recipient)
  : M (list Transaction) :=
  transaction <-
    foldM (add_transfer sender isSol tokenMint decimals programId)
      chunk_ new_Transaction ;;
  ret (transferTxs ++ [transaction]).

Definition buildMultiSendTransaction (sender : PublicKey)
    (recipients : list Recipient) (tokenMint : jsstring) (decimals : nat)
    (programId : PublicKey) : M BuildResult :=
  let isSol := jsstring_eqb tokenMint SOL_MINT in
  let chunkSize := if isSol then MAX_TX_SIZE_SOL else MAX_TX_SIZE_SPL in
  let chunks := chunk recipients chunkSize in
  resolved <-
    (if isSol
     then ret ({| existing := 0; toCreate := 0 |}, [])
     else
       mintPubkey <- newPublicKey tokenMint ;;
       acc <- resolve_atas mintPubkey programId recipients ;;
       ret (fst acc,
            match snd acc with
            | [] => []
            | _ :: _ => build_ata_txs sender programId (snd acc)
            end)) ;;
  transferTxs <-
    foldM (build_transfer_tx sender isSol tokenMint decimals programId)
      chunks [] ;;
  ret {| transferTxs := transferTxs; ataTxs := snd resolved;
         ataStats := fst resolved |}.

(** ** [handleSend] *)

(** Setting the blockhash, its expiry height and the fee payer. *)
Definition prepare (tx : Transaction) (latest : jsstring * N)
    (payer : PublicKey) : Transaction :=
  {| instructions := instructions tx;
     recentBlockhash := Some (fst latest);
     lastValidBlockHeight := Some (snd latest);
     feePayer := Some payer |}.

Definition getLatestBlockhash : M (jsstring * N) :=
  request (w_getLatestBlockhash w).

Definition sendRawTransaction (raw : jsstring) : M Signature :=
  request (fun k => w_sendRawTransaction w k raw).

Definition sendTransaction (tx : Transaction) : M Signature :=
  request (fun k => w_sendTransaction w k tx).

(** [signatures.push(sig)], recorded as a submission of batch [i]. *)
Definition push_signature (token : nat) (kind : BatchKind) (i : nat)
    (signatures : list Signature) (sig : Signature) : M (list Signature) :=
  emit (EvSent token kind i sig) ;;;
  ret (signatures ++ [sig]).

(** The body of the creation loop of [handleSend], with its [try]/[catch]. *)
Definition send_ata_batch (pk : PublicKey) (batches : nat)
    (signatures : list Signature) (item : nat * Transaction)
  : M (list Signature) :=
  let '(i, ataTx) := item in
  try_catch
    (latest <- getLatestBlockhash ;;
     let ataTx := prepare ataTx latest pk in
     signatures <-
       (if ALCHEMY_CONFIG_enabled
        then
          setStatusMsg (MsgSponsoringAta (i + 1) batches) ;;;
          unsignedSerialized <- sdk (w_serialize w ataTx) ;;
          alchemyResult <- requestAlchemyFeePayer unsignedSerialized ;;
          match alchemyResult with
          | FeePayerFailed error =>
              throw (Error (js "Alchemy failed: " ++ error))
          | FeePayerOk signed =>
              ataSignature <- sendRawTransaction signed ;;
              push_signature 0 Creation i signatures ataSignature
          end
        else
          setStatusMsg (MsgSigningAta (i + 1) batches) ;;;
          ataSignature <- sendTransaction ataTx ;;
          push_signature 0 Creation i signatures ataSignature) ;;
     (if i <? batches - 1 then sleep 1000 else ret tt) ;;;
     ret signatures)
    (fun ataError =>
       throw (Error (js "ATA batch " ++ nat_to_js (i + 1) ++ js " failed: "
                       ++ message ataError))).

(** The body of the transfer loop of [handleSend]. *)
Definition send_transfer_batch (pk : PublicKey) (batches : nat)
    (signatures : list Signature) (item : nat * Transaction)
  : M (list Signature) :=
  let '(i, tx) := item in
  setStatusMsg (MsgSendingBatch (i + 1) batches) ;;;
  latest <- getLatestBlockhash ;;
  let tx := prepare tx latest pk in
  signature <- sendTransaction tx ;;
  signatures <- push_signature 0 Transfer i signatures signature ;;
  (if i <? batches - 1 then sleep 800 else ret tt) ;;;
  ret signatures.

(** The block [if (ataTxs.length > 0) { ... }] of [handleSend]: the
    creation batches are submitted one after the other, then the watcher is
    awaited on each of their signatures.  It returns [signatures]. *)
Definition handleSend_creations (pk : PublicKey) (built : BuildResult)
  : M (list Signature) :=
  match ataTxs built with
  | [] => ret []
  | _ :: _ =>
      setStatusMsg (MsgCreatingAtas (toCreate (ataStats built))
                      (List.length (ataTxs built))
                      ALCHEMY_CONFIG_enabled) ;;;
      signatures <- foldM (send_ata_batch pk (List.length (ataTxs built)))
                      (enumerate (ataTxs built)) [] ;;
      setStatusMsg (MsgConfirmingAtas (List.length (ataTxs built))) ;;;
      foldM (fun _ sig => await_confirmation sig) signatures tt ;;;
      setStatusMsg MsgAtasCreated ;;;
      sleep 1500 ;;;
      ret signatures
  end.

(** The transfers of [handleSend]: the transfer batches are submitted one
    after the other, then the watcher is awaited on the last
    [totalTransferTxs] signatures.  It returns [signatures]. *)
Definition handleSend_transfers (pk : PublicKey) (recipients : nat)
    (built : BuildResult) (signatures : list Signature)
  : M (list Signature) :=
  let totalTransferTxs := List.length (transferTxs built) in
  setStatusMsg (MsgSendingTransfers recipients totalTransferTxs) ;;;
  signatures <- foldM (send_transfer_batch pk totalTransferTxs)
                  (enumerate (transferTxs built)) signatures ;;
  setStatusMsg (MsgConfirmingTransfers totalTransferTxs) ;;;
  foldM (fun _ item =>
           setStatusMsg (MsgConfirmingBatch (fst item + 1) totalTransferTxs) ;;;
           await_confirmation (snd item))
        (enumerate (slice_last signatures totalTransferTxs)) tt ;;;
  ret signatures.

(** The [try] block of [handleSend] up to the three final state updates:
    it returns the signatures, and what the last message shows. *)
Definition handleSend_try (pk : PublicKey) (d : Dashboard)
  : M (list Signature * nat * AtaStats) :=
  let validRecipients :=
    filter (fun r => isValidAddress (address r)
                     && gt_zero (parseFloat (amount r)))
           (parsedRecipients d) in
  match validRecipients with
  | [] => throw (Error (js "No valid recipients found."))
  | _ :: _ =>
  if match tokenType d with SPL => negb (isValidAddress (splMint d))
                       | _ => false end
  then throw (Error (js "Invalid SPL Mint Address."))
  else
  setStatus SENDING ;;;
  setStatusMsg (MsgBuilding (List.length validRecipients)) ;;;
  let mintToUse := match tokenType d with SOL => SOL_MINT | _ => splMint d end in
  let decimalsToUse := match tokenType d with SOL => 9 | _ => splDecimals d end in
  built <- buildMultiSendTransaction pk validRecipients mintToUse decimalsToUse
             (match tokenType d with
              | SPL => splProgramId d
              | _ => w_TOKEN_PROGRAM_ID w
              end) ;;
  emit (EvBuilt 0 (List.length (ataTxs built))
          (List.length (transferTxs built))) ;;;
  signatures <- handleSend_creations pk built ;;
  signatures <- handleSend_transfers pk (List.length validRecipients) built
                  signatures ;;
  ret (signatures, List.length validRecipients, ataStats built)
  end.

(** ** [handleMultiTokenSend] *)

(** What the token loop carries: [allSignatures], [totalAtasCreated] and
    [totalAtasExisted]. *)
Record MultiState := {
  allSignatures : list Signature;
  totalAtasCreated : nat;
  totalAtasExisted : nat }.

(** The body of the creation loop for one token. *)
Definition multi_send_ata (pk : PublicKey) (tokenIdx : nat)
    (token : TokenAccount) (allSigs : list Signature)
    (item : nat * Transaction) : M (list Signature) :=
  let '(i, ataTx) := item in
  latest <- getLatestBlockhash ;;
  let ataTx := prepare ataTx latest pk in
  allSigs <-
    (if ALCHEMY_CONFIG_enabled
     then
       unsignedSerialized <- sdk (w_serialize w ataTx) ;;
       alchemyResult <- requestAlchemyFeePayer unsignedSerialized ;;
       match alchemyResult with
       | FeePayerFailed error =>
           throw (Error (js "Alchemy failed for " ++ symbol token
                           ++ js ": " ++ error))
       | FeePayerOk signed =>
           ataSignature <- sendRawTransaction signed ;;
           push_signature tokenIdx Creation i allSigs ataSignature
       end
     else
       ataSignature <- sendTransaction ataTx ;;
       push_signature tokenIdx Creation i allSigs ataSignature) ;;
  sleep 800 ;;;
  ret allSigs.

(** The body of the transfer loop for one token. *)
Definition multi_send_transfer (pk : PublicKey) (tokenIdx : nat)
    (token : TokenAccount) (batches : nat) (allSigs : list Signature)
    (item : nat * Transaction) : M (list Signature) :=
  let '(i, tx) := item in
  setStatusMsg (MsgTokenBatch (symbol token) (i + 1) batches) ;;;
  latest <- getLatestBlockhash ;;
  let tx := prepare tx latest pk in
  signature <- sendTransaction tx ;;
  allSigs <- push_signature tokenIdx Transfer i allSigs signature ;;
  sleep 700 ;;;
  ret allSigs.

(** [for (let i = start; i < allSignatures.length; i++)
      await confirmTransactionWithTimeout(connection, allSignatures[i], ...)] *)
Definition confirm_from (start : nat) (allSigs : list Signature) : M unit :=
  foldM (fun _ sig => await_confirmation sig) (skipn start allSigs) tt.

(** The block [if (ataTxs.length > 0) { ... }] of the token loop. *)
Definition multi_creations (pk : PublicKey) (tokenIdx : nat)
    (token : TokenAccount) (built : BuildResult) (allSigs : list Signature)
  : M (list Signature) :=
  match ataTxs built with
  | [] => ret allSigs
  | _ :: _ =>
      setStatusMsg (MsgCreatingAtasFor (toCreate (ataStats built))
                      (symbol token) ALCHEMY_CONFIG_enabled) ;;;
      allSigs <- foldM (multi_send_ata pk tokenIdx token)
                   (enumerate (ataTxs built)) allSigs ;;
      confirm_from (List.length allSigs - List.length (ataTxs built))
        allSigs ;;;
      ret allSigs
  end.

(** The transfers of the token loop. *)
Definition multi_transfers (pk : PublicKey) (tokenIdx : nat)
    (token : TokenAccount) (built : BuildResult) (allSigs : list Signature)
  : M (list Signature) :=
  setStatusMsg (MsgSendingToken (symbol token)
                  (List.length (transferTxs built))) ;;;
  allSigs <- foldM (multi_send_transfer pk tokenIdx token
                      (List.length (transferTxs built)))
               (enumerate (transferTxs built)) allSigs ;;
  confirm_from (List.length allSigs - List.length (transferTxs built))
    allSigs ;;;
  ret allSigs.

(** The body of the token loop. *)
Definition multi_send_token (pk : PublicKey)
    (validRecipients : list Recipient) (tokens : nat) (st : MultiState)
    (item : nat * TokenAccount) : M MultiState :=
  let '(tokenIdx, token) := item in
  setStatusMsg (MsgToken (tokenIdx + 1) tokens (symbol token)
                  (List.length validRecipients)) ;;;
  let recipientsWithAmount :=
    map (fun r => {| address := address r;
                     amount := match amountToSend token with
                               | Some a => or_else a (js "0")
                               | None => js "0"
                               end |})
        validRecipients in
  built <- buildMultiSendTransaction pk recipientsWithAmount (mint token)
             (token_decimals token)
             (match token_programId token with
              | Some p => p
              | None => w_TOKEN_PROGRAM_ID w
              end) ;;
  emit (EvBuilt tokenIdx (List.length (ataTxs built))
          (List.length (transferTxs built))) ;;;
  let created := totalAtasCreated st + toCreate (ataStats built) in
  let existed := totalAtasExisted st + existing (ataStats built) in
  allSigs <- multi_creations pk tokenIdx token built (allSignatures st) ;;
  allSigs <- multi_transfers pk tokenIdx token built allSigs ;;
  ret {| allSignatures := allSigs; totalAtasCreated := created;
         totalAtasExisted := existed |}.

(** [t.selected && t.amountToSend && parseFloat(t.amountToSend) > 0] *)
Definition token_selected (t : TokenAccount) : bool :=
  selected t &&
  match amountToSend t with
  | Some a => truthy a && gt_zero (parseFloat a)
  | None => false
  end.

(** The [try] block of [handleMultiTokenSend] up to the three final state
    updates. *)
Definition handleMultiTokenSend_try (pk : PublicKey) (d : Dashboard)
  : M (MultiState * nat * nat) :=
  let validRecipients :=
    filter (fun r => isValidAddress (address r)) (parsedRecipients d) in
  match validRecipients with
  | [] => throw (Error (js "No valid recipients found."))
  | _ :: _ =>
  let selectedTokens :=
    filter token_selected (tokenAccounts d ++ customTokens d) in
  match selectedTokens with
  | [] => throw (Error (js "No tokens selected with valid amounts."))
  | _ :: _ =>
  setStatus SENDING ;;;
  st <- foldM (multi_send_token pk validRecipients
                 (List.length selectedTokens))
          (enumerate selectedTokens)
          {| allSignatures := []; totalAtasCreated := 0;
             totalAtasExisted := 0 |} ;;
  ret (st, List.length selectedTokens, List.length validRecipients)
  end
  end.

Definition handleMultiTokenSend (d : Dashboard) : M unit :=
  match publicKey d with
  | None => ret tt
  | Some pk =>
      setStatus VALIDATING ;;;
      setStatusMsg MsgValidatingMulti ;;;
      setTxSigs [] ;;;
      try_catch
        (r <- handleMultiTokenSend_try pk d ;;
         let '(st, tokens, recipients) := r in
         setTxSigs (allSignatures st) ;;;
         setStatus SUCCESS ;;;
         setStatusMsg (MsgSentMulti tokens recipients (totalAtasCreated st)
                         (totalAtasExisted st)))
        (fun err =>
           setStatus ERROR ;;;
           setStatusMsg
             (MsgFailed (or_else (message err)
                                 (js "Multi-token send failed"))))
  end.

(** [handleSend], run on the dashboard [d] the handler was rendered with. *)
Definition handleSend (d : Dashboard) : M unit :=
  match publicKey d with
  | None => ret tt
  | Some pk =>
      match tokenType d with
      | MULTI => handleMultiTokenSend d
      | _ =>
          setStatus VALIDATING ;;;
          setStatusMsg MsgValidating ;;;
          setTxSigs [] ;;;
          try_catch
            (r <- handleSend_try pk d ;;
             let '(signatures, recipients, stats) := r in
             setTxSigs signatures ;;;
             setStatus SUCCESS ;;;
             setStatusMsg (MsgSent recipients (toCreate stats)
                             (existing stats)))
            (fun err =>
               setStatus ERROR ;;;
               setStatusMsg
                 (MsgFailed (or_else (message err)
                                     (js "Transaction failed"))))
      end
  end.

End Run.

(** The dashboard after [handleSend] has run to its end from the machine [m],
    with the rest of the machine. *)
Definition run_handleSend (w : World) (m : Machine) : Machine :=
  snd (handleSend w (dash m) m).

Definition run_handleMultiTokenSend (w : World) (m : Machine) : Machine :=
  snd (handleMultiTokenSend w (dash m) m).

(** ** Sample worlds and dashboards *)

Definition confirmed_status : SignatureStatus :=
  {| err := None; confirmationStatus := Some (js "confirmed") |}.

Definition failed_status : SignatureStatus :=
  {| err := Some (js "{InstructionError:[0,Custom:1]}");
     confirmationStatus := Some (js "confirmed") |}.

(** A world where every address is a key, every request is answered after
    100 ms, and a submission returns the step number as signature; its
    account look-ups, status look-ups and wallet submissions are given. *)
Definition sample_world
    (accounts : nat -> PublicKey -> Response bool)
    (statuses : nat -> Signature -> Response StatusesValue)
    (wallet : nat -> Transaction -> Response Signature) : World :=
  {| w_newPublicKey := fun s =>
       match s with
       | [] => Rejected (Error (js "Invalid public key input"))
       | c :: _ => Resolved c
       end;
     w_getAssociatedTokenAddress := fun mintKey owner _ =>
       Resolved (mintKey * 65536 + owner)%N;
     w_TOKEN_PROGRAM_ID := 6%N;
     w_getAccountInfo := accounts;
     w_getLatestBlockhash := fun _ => Resolved (js "blockhash", 1000%N);
     w_serialize := fun _ => Resolved (js "unsigned");
     w_fetchFeePayer := fun _ _ => Resolved (ReplyResult (js "sponsored"));
     w_sendRawTransaction := fun k _ => Resolved (nat_to_js k);
     w_sendTransaction := wallet;
     w_getSignatureStatuses := statuses;
     w_elapsed := fun _ => 100%N |}.

Definition wallet_signs : nat -> Transaction -> Response Signature :=
  fun k _ => Resolved (nat_to_js k).

Definition wallet_rejects : nat -> Transaction -> Response Signature :=
  fun _ _ => Rejected (Error (js "User rejected the request."))%string.

Definition always_confirmed : nat -> Signature -> Response StatusesValue :=
  fun _ _ => Resolved (Statuses [Some confirmed_status]).

Definition always_failed : nat -> Signature -> Response StatusesValue :=
  fun _ _ => Resolved (Statuses [Some failed_status]).

Definition never_visible : nat -> Signature -> Response StatusesValue :=
  fun _ _ => Resolved (Statuses [None]).

Definition no_accounts : nat -> PublicKey -> Response bool :=
  fun _ _ => Resolved false.

Definition sample_dashboard (tt_ : TokenType) (rs : list Recipient)
    (tokens : list TokenAccount) : Dashboard :=
  {| publicKey := Some 1%N; mode := SAME; tokenType := tt_;
     splMint := js "Mint"; splDecimals := 6; splProgramId := 6%N;
     tokenAccounts := tokens; customTokens := [];
     rawText := []; parsedRecipients := rs; sameAmount := js "0.01";
     status := IDLE; statusMsg := MsgEmpty; txSigs := [] |}.

Definition sample_machine (d : Dashboard) : Machine :=
  {| dash := d; clock := 0; steps := 0; log := [] |}.

Definition sample_token (sym amt : string) : TokenAccount :=
  {| mint := js sym; token_decimals := 6; symbol := js sym;
     selected := true; amountToSend := Some (js amt);
     token_programId := None |}.

(** ** What the watcher's return values stand for *)

(** At step [k] the network showed, for [sig], a status without error at the
    commitment asked for or finalized, and [r] is the success value. *)
Definition status_confirms (w : World) (sig commitment : jsstring) (k : nat)
    (r : ConfirmResult) : Prop :=
  r = {| success := true; error := None |} /\
  exists st rest,
    w_getSignatureStatuses w k sig = Resolved (Statuses (Some st :: rest)) /\
    err st = None /\
    (confirmationStatus st = Some commitment \/
     confirmationStatus st = Some (js "finalized")).

(** At step [k] the network showed, for [sig], a status with an error, and
    [r] is the failure value that carries it. *)
Definition status_fails (w : World) (sig : jsstring) (k : nat)
    (r : ConfirmResult) : Prop :=
  exists json st rest,
    r = {| success := false;
           error := Some (js "Transaction failed: " ++ json) |} /\
    w_getSignatureStatuses w k sig = Resolved (Statuses (Some st :: rest)) /\
    err st = Some json.

(** The three ways the watcher, started at [start] on the machine [m],
    returns [r] and leaves the machine [m']. *)
Definition watcher_outcome (w : World) (sig commitment : jsstring)
    (timeoutMs : Z) (start : N) (m : Machine) (r : ConfirmResult)
    (m' : Machine) : Prop :=
  steps m <= steps m' /\
  ((exists k, steps m <= k < steps m' /\
              status_confirms w sig commitment k r) \/
   (exists k, steps m <= k < steps m' /\ status_fails w sig k r) \/
   (r = timeout_result /\
    (timeoutMs <= Z.of_N (clock m') - Z.of_N start)%Z)).

(** A reply of [getSignatureStatuses] that shows no status for the signature
    yet: a null value, an empty array, or a null entry. *)
Definition not_visible (reply : Response StatusesValue) : bool :=
  match reply with
  | Resolved NoStatuses => true
  | Resolved (Statuses []) => true
  | Resolved (Statuses (None :: _)) => true
  | _ => false
  end.

(** ** What the account resolution did for a recipient *)

(** The key of the recipient, the account derived for it, and whether the
    network had that account. *)
Record Lookup := {
  lookup_key : PublicKey;
  lookup_ata : PublicKey;
  lookup_found : bool }.

Definition lookup_missing (x : Lookup) : bool := negb (lookup_found x).

(** [x] is what the world answers for the recipient [r]. *)
Definition looked_up (w : World) (mintPubkey programId : PublicKey)
    (r : Recipient) (x : Lookup) : Prop :=
  w_newPublicKey w (address r) = Resolved (lookup_key x) /\
  w_getAssociatedTokenAddress w mintPubkey (lookup_key x) programId
  = Resolved (lookup_ata x) /\
  exists k, w_getAccountInfo w k (lookup_ata x) = Resolved (lookup_found x).

Definition work_of (mintPubkey : PublicKey) (x : Lookup) : AtaWork :=
  {| work_recipient := lookup_key x; work_ata := lookup_ata x;
     work_mint := mintPubkey |}.

Definition alice : Recipient := {| address := js "A"; amount := js "0.01" |}.
Definition bob : Recipient := {| address := js "B"; amount := js "0.01" |}.

(** ** Reading the record of a run *)

(** The signatures of the submissions recorded, in order. *)
Definition sent_signatures (evs : list Event) : list Signature :=
  flat_map (fun ev => match ev with
                      | EvSent _ _ _ sig => [sig]
                      | _ => []
                      end) evs.

(** The submissions of the batches [k], [k+1], ... of one kind for the asset
    [t], with the signatures [sigs]. *)
Definition sent_events (t : nat) (kind : BatchKind) (k : nat)
    (sigs : list Signature) : list Event :=
  map (fun item => EvSent t kind (fst item) (snd item))
      (combine (seq k (List.length sigs)) sigs).

(** [evs] are returns of the watcher for the signatures [sigs], in order. *)
Definition confirms (sigs : list Signature) (evs : list Event) : Prop :=
  Forall2 (fun sig ev => exists r, ev = EvConfirmed sig r) sigs evs.

(** In [evs] the creation batch [i] of the asset [t] was submitted, and the
    watcher was later awaited on the signature that submission returned. *)
Definition sent_then_confirmed (t i : nat) (evs : list Event) : Prop :=
  exists sig r p1 p2 p3,
    evs = p1 ++ EvSent t Creation i sig :: p2 ++ EvConfirmed sig r :: p3.

(** The asset [t] is ready for its transfers after [evs]: its build is
    recorded, and every creation batch the build planned was submitted and
    its confirmation awaited. *)
Definition ready (t : nat) (evs : list Event) : Prop :=
  (exists nA nT, In (EvBuilt t nA nT) evs) /\
  (forall nA nT, In (EvBuilt t nA nT) evs ->
                 forall i, i < nA -> sent_then_confirmed t i evs).

(** Every submission of a transfer batch comes when its asset is ready. *)
Definition creation_precedes_transfer (evs : list Event) : Prop :=
  forall pre t j sig post,
    evs = pre ++ EvSent t Transfer j sig :: post -> ready t pre.

(** ** Specifications of sequential code *)

(** The code [c] leaves the observation [f] of the machine as it was. *)
Definition Preserves {X A} (f : Machine -> X) (c : M A) : Prop :=
  forall m, f (snd (c m)) = f m.

(** The signature list the dashboard shows. *)
Definition reported (m : Machine) : list Signature := txSigs (dash m).

(** The observations that only read the record and the reported list. *)
Definition Stable {X} (f : Machine -> X) : Prop :=
  forall m m', log m' = log m -> reported m' = reported m -> f m' = f m.

(** The code [c] appends some events [evs] to the record, and [Q] holds of
    its outcome and of these events. *)
Definition Emits {A} (c : M A) (Q : Outcome A -> list Event -> Prop)
  : Prop :=
  forall m, exists evs,
    log (snd (c m)) = log m ++ evs /\ Q (fst (c m)) evs.

(** The code [c] never throws and appends nothing to the record. *)
Definition Quiet {A} (c : M A) : Prop :=
  forall m, log (snd (c m)) = log m /\ exists a, fst (c m) = Returned a.

Definition is_confirmation (ev : Event) : Prop :=
  match ev with EvConfirmed _ _ => True | _ => False end.

(** The body of a submission loop at batch [i]: it throws before anything
    is submitted, or it submits the batch and pushes the signature. *)
Definition one_sent (t : nat) (kind : BatchKind) (i : nat)
    (sigs : list Signature) (o : Outcome (list Signature))
    (evs : list Event) : Prop :=
  (exists e, o = Thrown e /\ evs = []) \/
  (exists sig, o = Returned (sigs ++ [sig]) /\ evs = [EvSent t kind i sig]).

(** A submission loop over [n] batches from batch [k]: it submits them in
    order and pushes their signatures, up to the first that throws. *)
Definition many_sent (t : nat) (kind : BatchKind) (k n : nat)
    (sigs : list Signature) (o : Outcome (list Signature))
    (evs : list Event) : Prop :=
  exists S,
    evs = sent_events t kind k S /\
    ((exists e, o = Thrown e /\ List.length S <= n) \/
     (o = Returned (sigs ++ S) /\ List.length S = n)).

(** The creation phase of an asset with [nA] creation batches: the batches
    submitted have the signatures [S]; when the phase returns, all were
    submitted and the watcher was then awaited on each signature. *)
Definition creation_shape (t nA : nat) (sigs : list Signature)
    (o : Outcome (list Signature)) (evs : list Event) : Prop :=
  exists S C,
    evs = sent_events t Creation 0 S ++ C /\
    ((exists e, o = Thrown e /\ List.length S <= nA /\ C = []) \/
     (o = Returned (sigs ++ S) /\ List.length S = nA /\ confirms S C)).

(** The transfer phase of an asset: submissions of transfer batches with
    the signatures [S2], then returns of the watcher. *)
Definition transfer_shape (t : nat) (sigs : list Signature)
    (o : Outcome (list Signature)) (evs : list Event) : Prop :=
  exists S2 C2,
    evs = sent_events t Transfer 0 S2 ++ C2 /\
    Forall is_confirmation C2 /\
    (forall sigs', o = Returned sigs' -> sigs' = sigs ++ S2).

(** The record of one asset [t], whose submissions returned the signatures
    [S] (creation) and [S2] (transfer): the build, the creation batches, the
    awaited confirmations of all of them, then the transfer phase; or the
    build and the first creation batches only, when the run stopped there. *)
Definition asset_shape (t : nat) (S S2 : list Signature)
    (evs : list Event) : Prop :=
  exists nA nT C C2,
    evs = EvBuilt t nA nT :: sent_events t Creation 0 S ++ C
          ++ sent_events t Transfer 0 S2 ++ C2 /\
    Forall is_confirmation C2 /\
    ((List.length S = nA /\ confirms S C) \/
     (List.length S <= nA /\ C = [] /\ S2 = [] /\ C2 = [])).

(** What processing one asset [t] leaves: nothing when it throws before the
    build returns, and else the record of the asset; when it returns, the
    signature list has grown by the signatures of the submissions. *)
Definition asset_outcome {A} (t : nat) (proj : A -> list Signature)
    (base : list Signature) (o : Outcome A) (evs : list Event) : Prop :=
  (evs = [] /\ exists e, o = Thrown e) \/
  (exists S S2,
      asset_shape t S S2 evs /\
      forall r, o = Returned r -> proj r = base ++ S ++ S2).

(** Every build recorded in [evs] is of an asset before the asset [k]. *)
Definition builts_below (k : nat) (evs : list Event) : Prop :=
  forall t nA nT, In (EvBuilt t nA nT) evs -> t < k.

Definition is_transfer_sent (ev : Event) : Prop :=
  match ev with EvSent _ Transfer _ _ => True | _ => False end.

Definition is_built (ev : Event) : Prop :=
  match ev with EvBuilt _ _ _ => True | _ => False end.

(** The records of the assets [k], [k+1], ... one after the other. *)
Inductive asset_blocks : nat -> list Event -> Prop :=
| blocks_nil k : asset_blocks k []
| blocks_cons k S S2 block rest :
    asset_shape k S S2 block ->
    asset_blocks (Datatypes.S k) rest ->
    asset_blocks k (block ++ rest).

(** What a run of a [try] block leaves: the records of the assets it went
    through, and the signatures of its submissions when it returns. *)
Definition run_outcome {A} (proj : A -> list Signature)
    (base : list Signature) (k : nat) (o : Outcome A) (evs : list Event)
  : Prop :=
  asset_blocks k evs /\
  forall r, o = Returned r -> proj r = base ++ sent_signatures evs.

(** The end of a run: SUCCESS with the signatures of the submissions
    reported, or ERROR with the list reported still empty; the record is in
    order either way. *)
Definition run_end (m m' : Machine) : Prop :=
  exists evs,
    log m' = log m ++ evs /\
    creation_precedes_transfer evs /\
    ((status (dash m') = SUCCESS /\ txSigs (dash m') = sent_signatures evs) \/
     (status (dash m') = ERROR /\ txSigs (dash m') = [])).

(** A wallet that signs until step [n] and rejects from then on. *)
Definition wallet_fails_from (n : nat) : nat -> Transaction -> Response Signature :=
  fun k _ => if n <=? k
             then Rejected (Error (js "User rejected the request."))
             else Resolved (nat_to_js k).

(** ** Numbers as the arithmetic makes them *)

(** A finite number whose mantissa has at most 53 bits; the other numbers
    pass. *)
Definition fits_53 (x : number) : Prop :=
  match x with
  | S754_finite _ m _ => (Zpos (digits2_pos m) <= 53)%Z
  | _ => True
  end.

(** What a rounding with the sign [s] gives: a zero, an infinity, or a
    finite number of at most 53 bits, with that sign. *)
Definition rounded (s : bool) (x : number) : Prop :=
  match x with
  | S754_zero s' => s' = s
  | S754_infinity s' => s' = s
  | S754_finite s' m _ => s' = s /\ (Zpos (digits2_pos m) <= 53)%Z
  | S754_nan => False
  end.

(** The integer a finite number [v * 2^e] is rounded to by [Math.round]. *)
Definition rounded_integer (s : bool) (m : positive) (e : Z) : Z :=
  let v := if s then Zneg m else Zpos m in
  if (0 <=? e)%Z then (v * 2 ^ e)%Z else round_half_up v e.

(** ** The stand-alone builder of [utils/solanaUtils.ts]

    No handler calls it.  It cuts the recipients the same way, with its own
    sizes, converts the amounts the same way, and makes no creation
    transaction: the creation instruction of a recipient without account
    goes into the transfer transaction, before the transfer instruction of
    that recipient. *)
Module SolanaUtils.

Definition MAX_TX_SIZE_SOL : positive := 12.
Definition MAX_TX_SIZE_SPL : positive := 10.

(** The body of [for (const recipient of chunk)]. *)
Definition add_recipient (w : World) (sender : PublicKey) (isSol : bool)
    (tokenMint : jsstring) (decimals : nat) (autoCreateATA : bool)
    (transaction : Transaction) (recipient : Recipient) : M Transaction :=
  recipientPubkey <- newPublicKey w (address recipient) ;;
  match to_smallest_unit (amount recipient) decimals with
  | None => throw range_error
  | Some amountBig =>
      if isSol
      then ret (tx_add transaction
                  (SystemTransfer sender recipientPubkey amountBig))
      else
        mintPubkey <- newPublicKey w tokenMint ;;
        senderATA <- getAssociatedTokenAddress w mintPubkey sender
                       (w_TOKEN_PROGRAM_ID w) ;;
        recipientATA <- getAssociatedTokenAddress w mintPubkey recipientPubkey
                          (w_TOKEN_PROGRAM_ID w) ;;
        ataExists <- request w (fun k => w_getAccountInfo w k recipientATA) ;;
        let transaction :=
          if negb ataExists && autoCreateATA
          then tx_add transaction
                 (CreateAssociatedTokenAccount sender recipientATA
                    recipientPubkey mintPubkey (w_TOKEN_PROGRAM_ID w))
          else transaction in
        ret (tx_add transaction
               (TransferChecked senderATA mintPubkey recipientATA sender
                  amountBig decimals (w_TOKEN_PROGRAM_ID w)))
  end.

(** The body of [for (const chunk of chunks)]. *)
Definition build_tx (w : World) (sender : PublicKey) (isSol : bool)
    (tokenMint : jsstring) (decimals : nat) (autoCreateATA : bool)
    (transactions : list Transaction) (chunk_ : list Recipient)
  : M (list Transaction) :=
  latest <- request w (w_getLatestBlockhash w) ;;
  let transaction :=
    {| instructions := []; recentBlockhash := Some (fst latest);
       lastValidBlockHeight := None; feePayer := Some sender |} in
  transaction <-
    foldM (add_recipient w sender isSol tokenMint decimals autoCreateATA)
      chunk_ transaction ;;
  ret (transactions ++ [transaction]).

Definition buildMultiSendTransaction (w : World) (sender : PublicKey)
    (recipients : list Recipient) (tokenMint : jsstring) (decimals : nat)
    (autoCreateATA : bool) : M (list Transaction) :=
  let isSol := jsstring_eqb tokenMint SOL_MINT in
  let chunkSize := if isSol then MAX_TX_SIZE_SOL else MAX_TX_SIZE_SPL in
  let chunks := chunk recipients chunkSize in
  foldM (build_tx w sender isSol tokenMint decimals autoCreateATA) chunks [].

End SolanaUtils.

(** ** Predicates of the statements on tokens and chunks *)

Definition separator_free (s : jsstring) : Prop :=
  Forall (fun c => is_separator c = false) s.

(** The invariant of the chunking loop at index [i]: the chunks made so far
    are the first [i] entries, cut every [b] entries. *)
Definition chunk_invariant {A} (l : list A) (b : nat) (i : nat)
    (chunks : list (list A)) : Prop :=
  concat chunks = firstn i l /\
  Forall (fun batch => 1 <= List.length batch <= b) chunks /\
  i = b * List.length chunks /\
  (List.length chunks = 0 \/ b * (List.length chunks - 1) < List.length l).

(** ** The tokens and pairs of the specification

    A second reading of [handleParse], after the words of the specification
    and not after the code: the tokens are the maximal runs of code units
    that are not separators, and in PAIRED mode they are read two by two, a
    last token alone taking the amount ["0"]. *)

Fixpoint spec_tokens_go (cur : jsstring) (text : jsstring) : list jsstring :=
  match text with
  | [] => match cur with [] => [] | _ :: _ => [rev cur] end
  | c :: rest =>
      if is_separator c
      then match cur with
           | [] => spec_tokens_go [] rest
           | _ :: _ => rev cur :: spec_tokens_go [] rest
           end
      else spec_tokens_go (c :: cur) rest
  end.

Definition spec_tokens (text : jsstring) : list jsstring :=
  spec_tokens_go [] text.

Fixpoint spec_pairs (tokens : list jsstring) : list Recipient :=
  match tokens with
  | [] => []
  | [a] => [{| address := a; amount := js "0" |}]
  | a :: b :: rest => {| address := a; amount := b |} :: spec_pairs rest
  end.

(** A text of [n] addresses, for the cap of [handleParse]. *)
Definition sample_text (n : nat) : jsstring :=
  concat (repeat (js "addr ") n).

(** ** The effect on [sameAmount] and [mode] of [App.tsx] *)

Definition set_parsedRecipients (d : Dashboard) (rs : list Recipient)
  : Dashboard :=
  {| publicKey := publicKey d; mode := mode d; tokenType := tokenType d;
     splMint := splMint d; splDecimals := splDecimals d;
     splProgramId := splProgramId d; tokenAccounts := tokenAccounts d;
     customTokens := customTokens d; rawText := rawText d;
     parsedRecipients := rs; sameAmount := sameAmount d;
     status := status d; statusMsg := statusMsg d; txSigs := txSigs d |}.

(** [if (mode === 'SAME')
       setParsedRecipients(prev => prev.map(r => ({ ...r, amount: sameAmount })))] *)
Definition sameAmount_effect (d : Dashboard) : Dashboard :=
  match mode d with
  | SAME =>
      set_parsedRecipients d
        (map (fun r => {| address := address r; amount := sameAmount d |})
             (parsedRecipients d))
  | DIFF => d
  end.

(** ** What the builder makes for a recipient *)

(** The instruction the body of [for (const recipient of chunk)] adds for
    the recipient [r]: [None] when [new PublicKey], [BigInt] or the address
    derivation throws. *)
Definition transfer_instruction (w : World) (sender : PublicKey)
    (isSol : bool) (tokenMint : jsstring) (decimals : nat)
    (programId : PublicKey) (r : Recipient) : option Instruction :=
  match w_newPublicKey w (address r),
        to_smallest_unit (amount r) decimals with
  | Resolved recipientPubkey, Some amountBig =>
      if isSol
      then Some (SystemTransfer sender recipientPubkey amountBig)
      else
        match w_newPublicKey w tokenMint with
        | Resolved mintPubkey =>
            match w_getAssociatedTokenAddress w mintPubkey sender programId,
                  w_getAssociatedTokenAddress w mintPubkey recipientPubkey
                    programId with
            | Resolved senderATA, Resolved recipientATA =>
                Some (TransferChecked senderATA mintPubkey recipientATA
                        sender amountBig decimals programId)
            | _, _ => None
            end
        | Rejected _ => None
        end
  | _, _ => None
  end.

(** A transfer transaction as the builder leaves it for the chunk [c]: one
    instruction for each recipient of the chunk, in order, and no blockhash,
    expiry height or fee payer yet. *)
Definition transfer_tx_for (w : World) (sender : PublicKey) (isSol : bool)
    (tokenMint : jsstring) (decimals : nat) (programId : PublicKey)
    (c : list Recipient) (tx : Transaction) : Prop :=
  Forall2 (fun r i => transfer_instruction w sender isSol tokenMint decimals
                        programId r = Some i)
          c (instructions tx) /\
  recentBlockhash tx = None /\ lastValidBlockHeight tx = None /\
  feePayer tx = None.

(** The account a transfer instruction pays into, for a token transfer. *)
Definition token_destination (i : Instruction) : option PublicKey :=
  match i with
  | TransferChecked _ _ destination _ _ _ _ => Some destination
  | _ => None
  end.

(** The account a creation instruction creates. *)
Definition created_account (i : Instruction) : option PublicKey :=
  match i with
  | CreateAssociatedTokenAccount _ ata _ _ _ => Some ata
  | _ => None
  end.

Definition all_instructions (txs : list Transaction) : list Instruction :=
  concat (map instructions txs).

(** ** Statements on the runs of the handlers *)

(** A run from [m] to [m'] that was refused with the message [msg]: it ends
    in ERROR with that message and no signature, and nothing was asked of
    the network, no time has passed and nothing was recorded. *)
Definition refused (m m' : Machine) (msg : jsstring) : Prop :=
  status (dash m') = ERROR /\ statusMsg (dash m') = MsgFailed msg /\
  txSigs (dash m') = [] /\
  steps m' = steps m /\ clock m' = clock m /\ log m' = log m.

(** What the user entered and selected: the dashboard without its status,
    its status message and its reported signatures. *)
Definition entered (m : Machine) : Dashboard :=
  let d := dash m in
  {| publicKey := publicKey d; mode := mode d; tokenType := tokenType d;
     splMint := splMint d; splDecimals := splDecimals d;
     splProgramId := splProgramId d; tokenAccounts := tokenAccounts d;
     customTokens := customTokens d; rawText := rawText d;
     parsedRecipients := parsedRecipients d; sameAmount := sameAmount d;
     status := IDLE; statusMsg := MsgEmpty; txSigs := [] |}.

(** In [evs] the watcher was awaited, after its submission, on every
    transaction submitted. *)
Definition awaited (evs : list Event) : Prop :=
  forall pre t kind i sig post,
    evs = pre ++ EvSent t kind i sig :: post ->
    exists r, In (EvConfirmed sig r) post.

(** The recipients [handleSend] keeps: a valid address and an amount that
    parses to a number greater than zero. *)
Definition valid_recipients (w : World) (d : Dashboard) : list Recipient :=
  filter (fun r => isValidAddress w (address r)
                   && gt_zero (parseFloat (amount r)))
         (parsedRecipients d).

(** The mint [handleSend] builds for. *)
Definition mint_to_use (d : Dashboard) : jsstring :=
  match tokenType d with SOL => SOL_MINT | _ => splMint d end.

(** ** The token lists of [App.tsx] *)

Definition set_tokenAccounts (d : Dashboard) (ts : list TokenAccount)
  : Dashboard :=
  {| publicKey := publicKey d; mode := mode d; tokenType := tokenType d;
     splMint := splMint d; splDecimals := splDecimals d;
     splProgramId := splProgramId d; tokenAccounts := ts;
     customTokens := customTokens d; rawText := rawText d;
     parsedRecipients := parsedRecipients d; sameAmount := sameAmount d;
     status := status d; statusMsg := statusMsg d; txSigs := txSigs d |}.

Definition set_customTokens (d : Dashboard) (ts : list TokenAccount)
  : Dashboard :=
  {| publicKey := publicKey d; mode := mode d; tokenType := tokenType d;
     splMint := splMint d; splDecimals := splDecimals d;
     splProgramId := splProgramId d; tokenAccounts := tokenAccounts d;
     customTokens := ts; rawText := rawText d;
     parsedRecipients := parsedRecipients d; sameAmount := sameAmount d;
     status := status d; statusMsg := statusMsg d; txSigs := txSigs d |}.



(** [token.mint === mint ? { ...token, amountToSend: amount } : token] *)
Definition with_amount (mint_ amount_ : jsstring) (token : TokenAccount)
  : TokenAccount :=
  if jsstring_eqb (mint token) mint_
  then {| mint := mint token; token_decimals := token_decimals token;
          symbol := symbol token; selected := selected token;
          amountToSend := Some amount_;
          token_programId := token_programId token |}
  else token.



(** [handleTokenAmountChange(mint, amount)] *)
Definition handleTokenAmountChange (d : Dashboard) (mint_ amount_ : jsstring)
  : Dashboard :=
  set_tokenAccounts d (map (with_amount mint_ amount_) (tokenAccounts d)).

(** [handleCustomTokenAmountChange(mint, amount)] *)
Definition handleCustomTokenAmountChange (d : Dashboard)
    (mint_ amount_ : jsstring) : Dashboard :=
  set_customTokens d (map (with_amount mint_ amount_) (customTokens d)).

(** The tokens [handleMultiTokenSend] sends, in order. *)
Definition selected_tokens (d : Dashboard) : list TokenAccount :=
  filter token_selected (tokenAccounts d ++ customTokens d).

(** ** Mint look-ups *)

(** What the token programs answer for a mint: [getMint] under a program
    resolves with the decimals of the mint or rejects. *)
Record MintWorld := {
  w_TOKEN_2022_PROGRAM_ID : PublicKey;
  w_getMint : nat -> PublicKey -> PublicKey -> Response nat }.

(** [getTokenDecimals] of [App.tsx]: the mint is looked up under Token-2022
    first and under the Token program when that throws; [null] when the
    address is no key or both look-ups throw. *)
Definition getTokenDecimals (w : World) (mw : MintWorld)
    (mintAddress : jsstring) : M (option (nat * PublicKey)) :=
  try_catch
    (mint_ <- newPublicKey w mintAddress ;;
     try_catch
       (decimals <-
          request w (fun k => w_getMint mw k mint_
                                (w_TOKEN_2022_PROGRAM_ID mw)) ;;
        ret (Some (decimals, w_TOKEN_2022_PROGRAM_ID mw)))
       (fun _ =>
          decimals <-
            request w (fun k => w_getMint mw k mint_ (w_TOKEN_PROGRAM_ID w)) ;;
          ret (Some (decimals, w_TOKEN_PROGRAM_ID w))))
    (fun _ => ret None).

Module SolanaUtilsHelpers.

(** [checkRecipientATA] of [utils/solanaUtils.ts]: whether the associated
    account of the recipient for the mint exists; [false] when anything
    throws. *)
Definition checkRecipientATA (w : World)
    (recipientAddress mintAddress : jsstring) : M bool :=
  try_catch
    (mint_ <- newPublicKey w mintAddress ;;
     recipient <- newPublicKey w recipientAddress ;;
     ata <- getAssociatedTokenAddress w mint_ recipient
              (w_TOKEN_PROGRAM_ID w) ;;
     request w (fun k => w_getAccountInfo w k ata))
    (fun _ => ret false).

End SolanaUtilsHelpers.

(** The instructions the stand-alone builder adds for a recipient: the
    transfer instruction [i], alone or right after the instruction that
    creates the account it pays into. *)
Definition pays_recipient (sender programId : PublicKey) (i : Instruction)
    (added : list Instruction) : Prop :=
  added = [i] \/
  exists ata owner mintPubkey,
    token_destination i = Some ata /\
    added = [CreateAssociatedTokenAccount sender ata owner mintPubkey
               programId; i].

(* ===================================================================== *)
(** * Part II. Properties                                                 *)
(* ===================================================================== *)

(** ** The stepping loop *)

Lemma for_step_test {S} (n : nat) (step : positive) (body : nat -> S -> S)
    (i : nat) (s : S) :
  for_step n step body i s =
  if i <? n then for_step n step body (i + Pos.to_nat step) (body i s)
  else s.
Proof.
  rewrite for_step_equation_1.
  destruct (i <? n) eqn:Htest.
  - apply Nat.ltb_lt in Htest.
    destruct (lt_dec i n) as [Hlt|Hge]; [reflexivity | contradiction].
  - apply Nat.ltb_ge in Htest.
    destruct (lt_dec i n) as [Hlt|Hge]; [lia | reflexivity].
Qed.

(** A loop invariant rule: [P] holds of the index and state at every test of
    the loop, hence at its exit, where the index has passed [n]. *)
Lemma for_step_invariant {S} (n : nat) (step : positive)
    (body : nat -> S -> S) (P : nat -> S -> Prop) :
  (forall i s, i < n -> P i s -> P (i + Pos.to_nat step) (body i s)) ->
  forall i s, P i s ->
  exists j, n <= j /\ P j (for_step n step body i s).
Proof.
  intros Hstep i.
  remember (n - i) as k eqn:Hk.
  revert i Hk. induction k as [k IH] using lt_wf_ind.
  intros i Hk s HP. rewrite for_step_test.
  destruct (i <? n) eqn:Hlt.
  - apply Nat.ltb_lt in Hlt.
    pose proof (Pos2Nat.is_pos step).
    apply (IH (n - (i + Pos.to_nat step))); [lia | reflexivity |].
    now apply Hstep.
  - apply Nat.ltb_ge in Hlt. exists i. split; [lia | exact HP].
Qed.

(** ** Chunking *)

Lemma firstn_add_skipn {A} (l : list A) (i k : nat) :
  firstn (i + k) l = firstn i l ++ firstn k (skipn i l).
Proof.
  revert l. induction i as [|i IH]; intros l; [reflexivity|].
  destruct l as [|x l]; cbn.
  - now rewrite firstn_nil.
  - now rewrite IH.
Qed.

Lemma slice_window {A} (l : list A) (i k : nat) :
  slice l i (i + k) = firstn k (skipn i l).
Proof. unfold slice. now replace (i + k - i) with k by lia. Qed.

Lemma chunk_invariant_step {A} (l : list A) (b : positive) (i : nat)
    (chunks : list (list A)) :
  i < List.length l ->
  chunk_invariant l (Pos.to_nat b) i chunks ->
  chunk_invariant l (Pos.to_nat b) (i + Pos.to_nat b)
    (chunks ++ [slice l i (i + Pos.to_nat b)]).
Proof.
  intros Hi (Hcat & Hall & Hidx & Hlast).
  pose proof (Pos2Nat.is_pos b) as Hb.
  rewrite slice_window. split; [|split; [|split]].
  - rewrite concat_app, Hcat, firstn_add_skipn. cbn. now rewrite app_nil_r.
  - apply Forall_app. split; [exact Hall|].
    constructor; [|constructor].
    rewrite length_firstn, length_skipn. lia.
  - rewrite length_app. cbn. lia.
  - right. rewrite length_app. cbn.
    replace (List.length chunks + 1 - 1) with (List.length chunks) by lia.
    lia.
Qed.

Lemma chunk_invariant_exit {A} (l : list A) (b : positive) (j : nat)
    (chunks : list (list A)) :
  List.length l <= j ->
  chunk_invariant l (Pos.to_nat b) j chunks ->
  List.length chunks = (List.length l + Pos.to_nat b - 1) / Pos.to_nat b /\
  Forall (fun batch => 1 <= List.length batch <= Pos.to_nat b) chunks /\
  concat chunks = l.
Proof.
  intros Hj (Hcat & Hall & Hidx & Hlast).
  pose proof (Pos2Nat.is_pos b) as Hb.
  split; [|split; [exact Hall|]].
  - destruct Hlast as [H0|Hlast].
    + rewrite H0 in *. assert (List.length l = 0) by lia.
      replace (List.length l) with 0 by lia.
      symmetry. apply Nat.div_small. lia.
    + apply Nat.div_unique
        with (r := List.length l + Pos.to_nat b - 1
                   - Pos.to_nat b * List.length chunks); nia.
  - rewrite Hcat. now apply firstn_all2.
Qed.

(** The chunks of a list: their number, their sizes, and their content. *)
Lemma chunk_spec {A} (l : list A) (b : positive) :
  List.length (chunk l b)
  = (List.length l + Pos.to_nat b - 1) / Pos.to_nat b /\
  Forall (fun batch => 1 <= List.length batch <= Pos.to_nat b) (chunk l b) /\
  concat (chunk l b) = l.
Proof.
  unfold chunk.
  destruct (@for_step_invariant (list (list A)) (List.length l) b
              (fun i chunks => chunks ++ [slice l i (i + Pos.to_nat b)])
              (chunk_invariant l (Pos.to_nat b))
              (fun i s => @chunk_invariant_step A l b i s)
              0 []) as (j & Hj & Hinv).
  - split; [reflexivity|]. split; [constructor|]. cbn. split; [lia|now left].
  - now apply chunk_invariant_exit with (j := j).
Qed.

(** C2. For a recipient list of length N and a positive batch size B, the
    chunking step of [buildMultiSendTransaction] makes ceil(N/B) batches
    (the quotient of N + B - 1 by B), each of at least one and at most B
    recipients, and the batches put end to end in order are the list
    itself: nothing is dropped, moved or repeated. *)
Theorem chunk_partition {A} (recipients : list A) (B : positive) :
  List.length (chunk recipients B)
  = (List.length recipients + Pos.to_nat B - 1) / Pos.to_nat B /\
  Forall (fun batch => 1 <= List.length batch <= Pos.to_nat B)
         (chunk recipients B) /\
  concat (chunk recipients B) = recipients.
Proof.
  destruct (chunk_spec recipients B) as (Hcount & Hsizes & Hconcat).
  split; [exact Hcount|]. split; [exact Hsizes | exact Hconcat].
Qed.

(** ** Tokens and pairs *)

Lemma separator_white_space (c : code_unit) :
  is_separator c = false -> is_white_space c = false.
Proof.
  unfold is_separator. intros H.
  apply orb_false_elim in H as [H _].
  now apply orb_false_elim in H as [_ H].
Qed.

Lemma drop_while_keeps (p : code_unit -> bool) (s : jsstring) :
  Forall (fun c => p c = false) s -> drop_while p s = s.
Proof. intros H. destruct H as [|c s Hc Hs]; cbn; [reflexivity | now rewrite Hc]. Qed.

Lemma trim_separator_free (s : jsstring) : separator_free s -> trim s = s.
Proof.
  intros H.
  assert (Hw : Forall (fun c => is_white_space c = false) s).
  { eapply Forall_impl; [|exact H]. apply separator_white_space. }
  unfold trim. rewrite (drop_while_keeps _ Hw).
  rewrite drop_while_keeps; [apply rev_involutive | now apply Forall_rev].
Qed.

Lemma truthy_rev (s : jsstring) : truthy (rev s) = truthy s.
Proof.
  destruct s as [|c s]; [reflexivity|]. cbn.
  destruct (rev s); reflexivity.
Qed.

(** The tokens of the code are the tokens of the specification. *)
Lemma split_go_spec (text cur : jsstring) (in_sep : bool) :
  separator_free cur ->
  (in_sep = true -> cur = []) ->
  filter (fun token => truthy (trim token)) (split_go cur in_sep text)
  = spec_tokens_go cur text.
Proof.
  revert cur in_sep. induction text as [|c rest IH]; intros cur in_sep Hfree Hsep.
  - cbn. rewrite trim_separator_free by now apply Forall_rev.
    rewrite truthy_rev. destruct cur; reflexivity.
  - cbn. destruct (is_separator c) eqn:Hc.
    + destruct in_sep.
      * rewrite (Hsep eq_refl). apply IH; [constructor | reflexivity].
      * cbn. rewrite trim_separator_free by now apply Forall_rev.
        rewrite truthy_rev.
        destruct cur as [|x cur]; cbn [truthy];
          (rewrite IH; [reflexivity | constructor | reflexivity]).
    + apply IH; [now constructor | discriminate].
Qed.

Lemma spec_tokens_go_tokens (text cur : jsstring) :
  separator_free cur ->
  Forall (fun t => t <> [] /\ separator_free t) (spec_tokens_go cur text).
Proof.
  revert cur. induction text as [|c rest IH]; intros cur Hfree; cbn.
  - destruct cur as [|x cur]; constructor; [|constructor].
    split; [|now apply Forall_rev].
    intros E. apply (f_equal (@List.length _)) in E.
    rewrite length_rev in E. discriminate.
  - destruct (is_separator c) eqn:Hc.
    + destruct cur as [|x cur]; [apply IH; constructor|].
      constructor; [|apply IH; constructor].
      split; [|now apply Forall_rev].
      intros E. apply (f_equal (@List.length _)) in E.
      rewrite length_rev in E. discriminate.
    + apply IH. now constructor.
Qed.

(** Nothing but separators is lost. *)
Lemma spec_tokens_go_concat (text cur : jsstring) :
  concat (spec_tokens_go cur text)
  = rev cur ++ filter (fun c => negb (is_separator c)) text.
Proof.
  revert cur. induction text as [|c rest IH]; intros cur; cbn.
  - destruct cur; cbn; [reflexivity | now rewrite !app_nil_r].
  - destruct (is_separator c) eqn:Hc; cbn.
    + destruct cur as [|x cur]; cbn; now rewrite IH.
    + rewrite IH. cbn. now rewrite <- app_assoc.
Qed.

Lemma skipn_nth_error_cons {A} (l : list A) (i : nat) (x : A) :
  nth_error l i = Some x -> skipn i l = x :: skipn (S i) l.
Proof.
  revert l. induction i as [|i IH]; intros [|y l] H; try discriminate.
  - now inversion H.
  - cbn in H. cbn [skipn]. now apply IH.
Qed.

Lemma skipn_nth_error_nil {A} (l : list A) (i : nat) :
  nth_error l i = None -> skipn i l = [].
Proof. intros H. apply skipn_all2. now apply nth_error_None. Qed.

(** The positional loop reads the tokens two by two. *)
Lemma paired_loop_spec (tokens : list jsstring) :
  Forall (fun t => t <> [] /\ separator_free t) tokens ->
  paired_loop tokens = spec_pairs tokens.
Proof.
  intros Htok. unfold paired_loop.
  destruct (@for_step_invariant (list Recipient) (List.length tokens) 2
              (paired_body tokens)
              (fun i rs => rs ++ spec_pairs (skipn i tokens)
                           = spec_pairs tokens)) with (i := 0)
              (s := @nil Recipient) as (j & Hj & Hinv).
  - intros i rs Hi Hinv.
    destruct (nth_error tokens i) as [t|] eqn:Ht;
      [|apply nth_error_None in Ht; lia].
    rewrite (skipn_nth_error_cons _ _ Ht) in Hinv.
    destruct (proj1 (Forall_forall _ _) Htok t (nth_error_In _ _ Ht))
      as [Hne Hfree].
    unfold paired_body. rewrite Ht.
    destruct t as [|c t]; [contradiction|]. cbn [truthy].
    rewrite (trim_separator_free Hfree).
    replace (i + Pos.to_nat 2) with (S (S i)) by (cbn; lia).
    replace (i + 1) with (S i) by lia.
    destruct (nth_error tokens (S i)) as [a|] eqn:Ha.
    + rewrite (skipn_nth_error_cons _ _ Ha) in Hinv.
      destruct (proj1 (Forall_forall _ _) Htok a (nth_error_In _ _ Ha))
        as [Hane Hafree].
      rewrite (trim_separator_free Hafree).
      destruct a as [|c' a]; [contradiction|].
      unfold or_else. cbn [truthy].
      rewrite <- app_assoc. exact Hinv.
    + rewrite (skipn_nth_error_nil _ _ Ha) in Hinv.
      rewrite skipn_all2 by (apply nth_error_None in Ha; lia).
      rewrite <- app_assoc. exact Hinv.
  - reflexivity.
  - rewrite skipn_all2, app_nil_r in Hinv by lia. exact Hinv.
Qed.

Lemma spec_pairs_app (n : nat) (pre rest : list jsstring) :
  List.length pre = 2 * n ->
  spec_pairs (pre ++ rest) = spec_pairs pre ++ spec_pairs rest.
Proof.
  revert pre. induction n as [|n IH]; intros pre Hlen.
  - destruct pre; [reflexivity | discriminate].
  - destruct pre as [|a [|b pre]]; try (cbn in Hlen; lia).
    cbn [app spec_pairs]. rewrite IH by (cbn in Hlen; lia). reflexivity.
Qed.

Lemma tokenize_spec (text : jsstring) : tokenize text = spec_tokens text.
Proof.
  unfold tokenize, split_separators, spec_tokens.
  apply split_go_spec; [constructor | discriminate].
Qed.

(** C8. The tokens of [handleParse] are the maximal runs of code units other
    than newlines, white space and commas: they are the tokens of the
    specification, none is empty, none holds a separator, and together they
    are the text without its separators.  In PAIRED mode the recipients are
    the tokens read two by two as (address, amount), and a last address
    without an amount token gets the amount ["0"]. *)
Theorem handleParse_tokens_and_pairs (text sameAmount : jsstring) :
  tokenize text = spec_tokens text /\
  Forall (fun t => t <> [] /\ separator_free t) (tokenize text) /\
  concat (tokenize text) = filter (fun c => negb (is_separator c)) text /\
  parse_recipients DIFF sameAmount text = spec_pairs (tokenize text) /\
  (forall pre a n,
      tokenize text = pre ++ [a] -> List.length pre = 2 * n ->
      parse_recipients DIFF sameAmount text
      = spec_pairs pre ++ [{| address := a; amount := js "0" |}]).
Proof.
  assert (Htok : Forall (fun t => t <> [] /\ separator_free t)
                        (tokenize text)).
  { rewrite tokenize_spec. apply spec_tokens_go_tokens. constructor. }
  assert (Hpairs : parse_recipients DIFF sameAmount text
                   = spec_pairs (tokenize text)).
  { unfold parse_recipients. now apply paired_loop_spec. }
  split; [apply tokenize_spec|]. split; [exact Htok|].
  split; [rewrite tokenize_spec; apply spec_tokens_go_concat|].
  split; [exact Hpairs|].
  intros pre a n Hsplit Hlen.
  rewrite Hpairs, Hsplit. now rewrite (spec_pairs_app n).
Qed.

(** The theorem at a text of three tokens, the last address alone. *)
Lemma handleParse_tokens_and_pairs_witness :
  parse_recipients DIFF [] (js "alice 1.5, bob")
  = spec_pairs [js "alice"; js "1.5"]
    ++ [{| address := js "bob"; amount := js "0" |}].
Proof.
  apply (proj2 (proj2 (proj2 (proj2
           (handleParse_tokens_and_pairs (js "alice 1.5, bob") []))))
         [js "alice"; js "1.5"] (js "bob") 1);
    reflexivity.
Defined.

(** ** The cap on the number of recipients *)

(** C7. When the text holds more recipients than the cap of 100,
    [handleParse] keeps exactly the first 100 of them and sets the
    limit-exceeded warning; when it holds at most 100, it keeps them all and
    clears the status message. *)
Theorem handleParse_cap (d : Dashboard) (text : jsstring) :
  let recipients := parse_recipients (mode d) (sameAmount d) text in
  (MAX_BATCH_SIZE < List.length recipients ->
   parsedRecipients (handleParse d text) = firstn MAX_BATCH_SIZE recipients /\
   List.length (parsedRecipients (handleParse d text)) = MAX_BATCH_SIZE /\
   statusMsg (handleParse d text) = MsgLimitExceeded MAX_BATCH_SIZE) /\
  (List.length recipients <= MAX_BATCH_SIZE ->
   parsedRecipients (handleParse d text) = recipients /\
   statusMsg (handleParse d text) = MsgEmpty).
Proof.
  intros recipients. unfold handleParse. fold recipients. split; intros H.
  - apply Nat.ltb_lt in H as Ht. rewrite Ht. cbn [set_parse parsedRecipients statusMsg].
    unfold slice. rewrite Nat.sub_0_r. cbn [skipn].
    repeat split. rewrite length_firstn. lia.
  - apply Nat.ltb_ge in H as Ht. rewrite Ht. now cbn.
Qed.

(** The theorem at a text of 101 addresses and at a text of two. *)
Lemma handleParse_cap_witness :
  (parsedRecipients
     (handleParse (sample_dashboard SOL [] []) (sample_text 101))
   = firstn MAX_BATCH_SIZE
       (parse_recipients SAME (js "0.01") (sample_text 101)) /\
   statusMsg (handleParse (sample_dashboard SOL [] []) (sample_text 101))
   = MsgLimitExceeded MAX_BATCH_SIZE) /\
  (parsedRecipients
     (handleParse (sample_dashboard SOL [] []) (sample_text 2))
   = parse_recipients SAME (js "0.01") (sample_text 2) /\
   statusMsg (handleParse (sample_dashboard SOL [] []) (sample_text 2))
   = MsgEmpty).
Proof.
  split.
  - destruct (proj1 (handleParse_cap (sample_dashboard SOL [] [])
                       (sample_text 101))) as (H1 & _ & H2).
    + apply Nat.ltb_lt. vm_compute. reflexivity.
    + split; [exact H1 | exact H2].
  - apply (proj2 (handleParse_cap (sample_dashboard SOL [] [])
                    (sample_text 2))).
    apply Nat.leb_le. vm_compute. reflexivity.
Defined.

(** ** The confirmation watcher *)

Lemma jsstring_eqb_eq (a b : jsstring) : jsstring_eqb a b = true -> a = b.
Proof.
  unfold jsstring_eqb.
  destruct (list_eq_dec N.eq_dec a b); [auto | discriminate].
Qed.

Lemma poll_machine (w : World) (sig commitment : jsstring) (m : Machine) :
  snd (poll w sig commitment m) = tick w 0 m.
Proof.
  unfold poll.
  destruct (w_getSignatureStatuses w (steps m) sig) as [[|[|[st|] ?]]|];
    try reflexivity.
  destruct (err st); [reflexivity|].
  destruct (confirmationStatus st); [|reflexivity].
  destruct (_ || _); reflexivity.
Qed.

(** A turn returns only on a status with an error, or on a status without
    error at the requested commitment or finalized. *)
Lemma poll_returns (w : World) (sig commitment : jsstring) (m : Machine)
    (r : ConfirmResult) :
  fst (poll w sig commitment m) = Some r ->
  status_confirms w sig commitment (steps m) r \/
  status_fails w sig (steps m) r.
Proof.
  unfold poll, status_confirms, status_fails.
  destruct (w_getSignatureStatuses w (steps m) sig) as [[|[|[st|] rest]]|];
    try discriminate.
  destruct (err st) as [json|] eqn:Herr.
  - intros H. inversion H. right. exists json, st, rest. auto.
  - destruct (confirmationStatus st) as [c|] eqn:Hc; [|discriminate].
    destruct (jsstring_eqb c commitment) eqn:E1; cbn [orb].
    + intros H. inversion H. left. split; [reflexivity|].
      exists st, rest. apply jsstring_eqb_eq in E1. subst c. auto.
    + destruct (jsstring_eqb c (js "finalized")) eqn:E2; [|discriminate].
      intros H. inversion H. left. split; [reflexivity|].
      exists st, rest. apply jsstring_eqb_eq in E2. subst c. auto.
Qed.

(** A reply that shows no status yet makes the turn go on. *)
Lemma poll_not_visible (w : World) (sig commitment : jsstring) (m : Machine) :
  not_visible (w_getSignatureStatuses w (steps m) sig) = true ->
  fst (poll w sig commitment m) = None.
Proof.
  unfold poll, not_visible.
  destruct (w_getSignatureStatuses w (steps m) sig) as [[|[|[st|] rest]]|];
    try discriminate; reflexivity.
Qed.

Lemma confirm_loop_outcome (w : World) (sig commitment : jsstring)
    (start : N) (timeoutMs : Z) (m : Machine) :
  watcher_outcome w sig commitment timeoutMs start m
    (fst (confirm_loop w sig commitment start timeoutMs m))
    (snd (confirm_loop w sig commitment start timeoutMs m)).
Proof.
  funelim (confirm_loop w sig commitment start timeoutMs m).
  - clear Heq Heqcall. rename H into IH.
    destruct (fst (poll w signature commitment m)) as [r|] eqn:Hpoll.
    + cbn [fst snd]. rewrite poll_machine.
      apply poll_returns in Hpoll.
      unfold watcher_outcome. cbn [tick steps]. split; [lia|].
      destruct Hpoll as [Hok|Hfail]; [left | right; left];
        exists (steps m); (split; [lia | assumption]).
    + rewrite poll_machine in *.
      destruct IH as (Hsteps & IH). cbn [tick steps] in *.
      split; [lia|].
      destruct IH as [(k & Hk & Hok)|[(k & Hk & Hfail)|Htime]].
      * left. exists k. split; [lia | assumption].
      * right; left. exists k. split; [lia | assumption].
      * right; right. exact Htime.
  - cbn [fst snd]. split; [lia|]. right; right.
    split; [reflexivity | lia].
Qed.

Lemma confirm_loop_pending (w : World) (sig commitment : jsstring)
    (start : N) (timeoutMs : Z) (m : Machine) :
  (Z.of_N (clock m) - Z.of_N start < timeoutMs)%Z ->
  fst (poll w sig commitment m) = None ->
  confirm_loop w sig commitment start timeoutMs m
  = confirm_loop w sig commitment start timeoutMs (tick w 2000 (tick w 0 m)).
Proof.
  intros Htime Hpoll. rewrite confirm_loop_equation_1.
  destruct (Z_lt_dec _ _) as [?|?]; [|contradiction].
  cbn. rewrite Hpoll, poll_machine. reflexivity.
Qed.

Lemma timeout_is_not_failure (json : jsstring) :
  timeout_result
  <> {| success := false;
        error := Some (js "Transaction failed: " ++ json) |}.
Proof. unfold timeout_result. cbn. intros H. inversion H. Qed.

(** C9. [confirmTransactionWithTimeout] always returns, and with one of
    three values: the success value, only after a poll showed a status
    without error at the requested commitment or finalized; the failure
    value carrying the error of the transaction, only after a poll showed a
    status with that error; or the timeout value, only once the timeout has
    elapsed.  The timeout value is none of the failure values.  A reply that
    shows no status yet (null, empty, or a null entry) returns nothing: the
    watcher polls again, 2000 ms or more later. *)
Theorem confirmTransactionWithTimeout_outcomes (w : World)
    (signature commitment : jsstring) (timeoutMs : Z) (m : Machine) :
  (exists r m',
      confirmTransactionWithTimeout w signature commitment timeoutMs m
      = (Returned r, m') /\
      watcher_outcome w signature commitment timeoutMs (clock m) m r m') /\
  (forall json,
      timeout_result
      <> {| success := false;
            error := Some (js "Transaction failed: " ++ json) |}) /\
  (forall start m1,
      (Z.of_N (clock m1) - Z.of_N start < timeoutMs)%Z ->
      not_visible (w_getSignatureStatuses w (steps m1) signature) = true ->
      confirm_loop w signature commitment start timeoutMs m1
      = confirm_loop w signature commitment start timeoutMs
          (tick w 2000 (tick w 0 m1)) /\
      (clock m1 + 2000 <= clock (tick w 2000 (tick w 0 m1)))%N).
Proof.
  split; [|split].
  - unfold confirmTransactionWithTimeout.
    pose proof (confirm_loop_outcome w signature commitment (clock m)
                  timeoutMs m) as H.
    destruct (confirm_loop w signature commitment (clock m) timeoutMs m)
      as [r m'].
    exists r, m'. split; [reflexivity | exact H].
  - apply timeout_is_not_failure.
  - intros start m1 Htime Hvis. split.
    + apply confirm_loop_pending; [exact Htime|].
      now apply poll_not_visible.
    + cbn [tick clock]. lia.
Qed.

(** The theorem in a world where the signature never becomes visible: the
    first poll returns nothing and the next one is 2000 ms later. *)
Lemma confirmTransactionWithTimeout_outcomes_witness :
  let W := sample_world no_accounts never_visible wallet_signs in
  let m0 := sample_machine (sample_dashboard SOL [] []) in
  confirm_loop W (js "sig") (js "confirmed") 0 90000 m0
  = confirm_loop W (js "sig") (js "confirmed") 0 90000
      (tick W 2000 (tick W 0 m0)) /\
  (clock m0 + 2000 <= clock (tick W 2000 (tick W 0 m0)))%N.
Proof.
  intros W m0.
  apply (proj2 (proj2 (confirmTransactionWithTimeout_outcomes
                         W (js "sig") (js "confirmed") 90000 m0)));
    reflexivity.
Defined.

(** ** Sequential code: returning runs *)

Lemma bind_returned {A B} (c : M A) (k : A -> M B) (m m' : Machine) (b : B) :
  bind c k m = (Returned b, m') ->
  exists a m1, c m = (Returned a, m1) /\ k a m1 = (Returned b, m').
Proof.
  unfold bind. destruct (c m) as [[a|e] m1]; [|discriminate].
  intros H. now exists a, m1.
Qed.

Lemma sdk_returned {A} (r : Response A) (m m' : Machine) (a : A) :
  sdk r m = (Returned a, m') -> r = Resolved a /\ m' = m.
Proof.
  unfold sdk. destruct r; intros H; inversion H; auto.
Qed.

Lemma request_returned (w : World) {A} (reply : nat -> Response A)
    (m m' : Machine) (a : A) :
  request w reply m = (Returned a, m') ->
  reply (steps m) = Resolved a /\ m' = tick w 0 m.
Proof.
  unfold request. destruct (reply (steps m)); intros H; inversion H; auto.
Qed.

(** ** Account resolution *)

Lemma resolve_ata_returned (w : World) (mintPubkey programId : PublicKey)
    (stats stats' : AtaStats) (work work' : list AtaWork) (r : Recipient)
    (m m' : Machine) :
  resolve_ata w mintPubkey programId (stats, work) r m
  = (Returned (stats', work'), m') ->
  exists x,
    looked_up w mintPubkey programId r x /\
    existing stats' = existing stats + (if lookup_found x then 1 else 0) /\
    toCreate stats' = toCreate stats + (if lookup_found x then 0 else 1) /\
    work' = work ++ (if lookup_found x then []
                     else [work_of mintPubkey x]).
Proof.
  unfold resolve_ata. intros H.
  apply bind_returned in H as (key & m1 & Hkey & H).
  apply sdk_returned in Hkey as [Hkey ->].
  apply bind_returned in H as (ata & m2 & Hata & H).
  apply sdk_returned in Hata as [Hata ->].
  apply bind_returned in H as (found & m3 & Hfound & H).
  apply request_returned in Hfound as [Hfound ->].
  exists {| lookup_key := key; lookup_ata := ata; lookup_found := found |}.
  split; [repeat split; eauto|]. cbn [lookup_found].
  destruct found; inversion H; cbn; rewrite ?app_nil_r; repeat split; lia.
Qed.

Lemma resolve_fold_returned (w : World) (mintPubkey programId : PublicKey)
    (recipients : list Recipient) :
  forall stats work stats' work' m m',
    foldM (resolve_ata w mintPubkey programId) recipients (stats, work) m
    = (Returned (stats', work'), m') ->
    exists looked,
      Forall2 (looked_up w mintPubkey programId) recipients looked /\
      existing stats'
      = existing stats + List.length (filter lookup_found looked) /\
      toCreate stats'
      = toCreate stats + List.length (filter lookup_missing looked) /\
      work' = work ++ map (work_of mintPubkey)
                          (filter lookup_missing looked).
Proof.
  induction recipients as [|r rs IH]; intros stats work stats' work' m m' H.
  - inversion H. exists []. cbn. rewrite app_nil_r.
    repeat split; try lia. constructor.
  - cbn [foldM] in H.
    apply bind_returned in H as ([stats1 work1] & m1 & Hr & H).
    apply resolve_ata_returned in Hr as (x & Hx & He & Ht & Hw).
    apply IH in H as (looked & Hl & He' & Ht' & Hw').
    exists (x :: looked). split; [now constructor|].
    unfold lookup_missing in *. cbn [filter].
    destruct (lookup_found x); cbn [negb List.length map] in *;
      subst work1; rewrite ?app_nil_r, <- ?app_assoc in Hw';
      repeat split; try lia; exact Hw'.
Qed.

Lemma resolve_atas_returned (w : World) (mintPubkey programId : PublicKey)
    (recipients : list Recipient) (m m' : Machine) (stats : AtaStats)
    (work : list AtaWork) :
  resolve_atas w mintPubkey programId recipients m
  = (Returned (stats, work), m') ->
  exists looked,
    Forall2 (looked_up w mintPubkey programId) recipients looked /\
    existing stats = List.length (filter lookup_found looked) /\
    toCreate stats = List.length (filter lookup_missing looked) /\
    work = map (work_of mintPubkey) (filter lookup_missing looked).
Proof.
  unfold resolve_atas. intros H.
  apply resolve_fold_returned in H as (looked & Hl & He & Ht & Hw).
  exists looked. cbn in He, Ht, Hw. auto.
Qed.

(** C4 as amended. When the account-resolution step returns, every recipient
    was looked up once, in order, and fell on exactly one side: [existing]
    counts the recipients whose derived account was found, and the creation
    work holds, in order, one item for each recipient whose derived account
    was not found; the two counts add up to the number of recipients.
    Recipients are not compared with each other: nothing is said about
    recipients that share a derived account. *)
Theorem resolve_atas_partition (w : World) (mintPubkey programId : PublicKey)
    (recipients : list Recipient) (m m' : Machine) (stats : AtaStats)
    (work : list AtaWork) :
  resolve_atas w mintPubkey programId recipients m
  = (Returned (stats, work), m') ->
  exists looked,
    Forall2 (looked_up w mintPubkey programId) recipients looked /\
    existing stats = List.length (filter lookup_found looked) /\
    toCreate stats = List.length (filter lookup_missing looked) /\
    work = map (work_of mintPubkey) (filter lookup_missing looked) /\
    existing stats + toCreate stats = List.length recipients.
Proof.
  intros H.
  apply resolve_atas_returned in H as (looked & Hl & He & Ht & Hw).
  exists looked. repeat split; try assumption.
  rewrite He, Ht. rewrite (Forall2_length Hl).
  unfold lookup_missing. clear.
  induction looked as [|x l IH]; [reflexivity|].
  cbn. destruct (lookup_found x); cbn; lia.
Qed.

(** The theorem for two recipients without account, in the sample world. *)
Lemma resolve_atas_partition_witness :
  exists looked,
    Forall2 (looked_up (sample_world no_accounts always_confirmed wallet_signs)
               77%N 6%N) [alice; bob] looked /\
    0 = List.length (filter lookup_found looked) /\
    2 = List.length (filter lookup_missing looked) /\
    [ {| work_recipient := 65%N; work_ata := 5046337%N; work_mint := 77%N |};
      {| work_recipient := 66%N; work_ata := 5046338%N; work_mint := 77%N |} ]
    = map (work_of 77%N) (filter lookup_missing looked) /\
    0 + 2 = 2.
Proof.
  eapply (resolve_atas_partition
            (sample_world no_accounts always_confirmed wallet_signs)
            77%N 6%N [alice; bob]
            (sample_machine (sample_dashboard SPL [alice; bob] []))
            (stats := {| existing := 0; toCreate := 2 |})).
  vm_compute. reflexivity.
Defined.

(** C4 as stated fails: a recipient listed twice, whose derived account does
    not exist, yields two creation work items for that one account. *)
Lemma resolve_atas_duplicates :
  ~ (forall w mintPubkey programId recipients m m' stats work,
        resolve_atas w mintPubkey programId recipients m
        = (Returned (stats, work), m') ->
        NoDup (map work_ata work)).
Proof.
  intros H.
  destruct (resolve_atas (sample_world no_accounts always_confirmed wallet_signs)
              77%N 6%N [alice; alice]
              (sample_machine (sample_dashboard SPL [alice; alice] [])))
    as [[[stats work]|e] m'] eqn:E.
  - apply H in E as Hnodup. vm_compute in E. inversion E; subst.
    cbn in Hnodup. inversion Hnodup as [|x l Hnotin _]; subst.
    apply Hnotin. now left.
  - vm_compute in E. discriminate.
Qed.

(** ** Success without confirmation *)

(** C1 at three failing inputs.  A native send whose only transfer batch
    fails on chain, a native send whose only transfer batch is never seen
    before the timeout, and a multi-asset send whose batches all fail: the
    watcher returns the failure or timeout value each time, and each run
    still ends in SUCCESS with the signatures reported. *)
Theorem handleSend_success_without_confirmation :
  (let m' := run_handleSend
               (sample_world no_accounts always_failed wallet_signs)
               (sample_machine (sample_dashboard SOL [alice] [])) in
   status (dash m') = SUCCESS /\
   log m' = [ EvBuilt 0 0 1; EvSent 0 Transfer 0 (js "1");
              EvConfirmed (js "1")
                {| success := false;
                   error := Some (js "Transaction failed: {InstructionError:[0,Custom:1]}") |} ]) /\
  (let m' := run_handleSend
               (sample_world no_accounts never_visible wallet_signs)
               (sample_machine (sample_dashboard SOL [alice] [])) in
   status (dash m') = SUCCESS /\
   log m' = [ EvBuilt 0 0 1; EvSent 0 Transfer 0 (js "1");
              EvConfirmed (js "1") timeout_result ]) /\
  (let m' := run_handleMultiTokenSend
               (sample_world no_accounts always_failed wallet_signs)
               (sample_machine
                  (sample_dashboard MULTI [alice] [sample_token "USDC" "1.5"])) in
   status (dash m') = SUCCESS /\
   Forall (fun ev => match ev with
                     | EvConfirmed _ r => success r = false
                     | _ => True
                     end) (log m') /\
   List.length (txSigs (dash m')) = 2).
Proof.
  split; [|split]; vm_compute; repeat split; repeat constructor.
Qed.

(** ** What sequential code leaves unchanged *)

Lemma Preserves_ret {X A} (f : Machine -> X) (a : A) : Preserves f (ret a).
Proof. intros m. reflexivity. Qed.

Lemma Preserves_throw {X A} (f : Machine -> X) (e : JsError) :
  Preserves f (@throw A e).
Proof. intros m. reflexivity. Qed.

Lemma Preserves_bind {X A B} (f : Machine -> X) (c : M A) (k : A -> M B) :
  Preserves f c -> (forall a, Preserves f (k a)) -> Preserves f (bind c k).
Proof.
  intros Hc Hk m. unfold bind. specialize (Hc m).
  destruct (c m) as [[a|e] m1]; cbn in *; [|exact Hc].
  now rewrite (Hk a m1).
Qed.

Lemma Preserves_try_catch {X A} (f : Machine -> X) (c : M A)
    (h : JsError -> M A) :
  Preserves f c -> (forall e, Preserves f (h e)) ->
  Preserves f (try_catch c h).
Proof.
  intros Hc Hh m. unfold try_catch. specialize (Hc m).
  destruct (c m) as [[a|e] m1]; cbn in *; [exact Hc|].
  now rewrite (Hh e m1).
Qed.

Lemma Preserves_foldM {X A S} (f : Machine -> X) (body : S -> A -> M S)
    (l : list A) :
  (forall s a, Preserves f (body s a)) ->
  forall s, Preserves f (foldM body l s).
Proof.
  intros Hbody. induction l as [|a l IH]; intros s; cbn [foldM].
  - apply Preserves_ret.
  - apply Preserves_bind; [apply Hbody | exact IH].
Qed.

Lemma Stable_log : Stable log.
Proof. intros m m' H _. exact H. Qed.

Lemma Stable_reported : Stable reported.
Proof. intros m m' _ H. exact H. Qed.

Lemma Preserves_sdk {X A} (f : Machine -> X) (r : Response A) :
  Preserves f (sdk r).
Proof. intros m. unfold sdk. destruct r; reflexivity. Qed.

Lemma Preserves_request {X A} (w : World) (f : Machine -> X)
    (reply : nat -> Response A) :
  Stable f -> Preserves f (request w reply).
Proof.
  intros Hf m. unfold request.
  destruct (reply (steps m)); cbn; now apply Hf.
Qed.

Lemma Preserves_sleep {X} (w : World) (f : Machine -> X) (ms : N) :
  Stable f -> Preserves f (sleep w ms).
Proof. intros Hf m. cbn. now apply Hf. Qed.

Lemma Preserves_setStatus {X} (f : Machine -> X) (s : Status) :
  Stable f -> Preserves f (setStatus s).
Proof. intros Hf m. cbn. now apply Hf. Qed.

Lemma Preserves_setStatusMsg {X} (f : Machine -> X) (msg : StatusMsg) :
  Stable f -> Preserves f (setStatusMsg msg).
Proof. intros Hf m. cbn. now apply Hf. Qed.

Lemma Preserves_setTxSigs (sigs : list Signature) :
  Preserves log (setTxSigs sigs).
Proof. intros m. reflexivity. Qed.

Lemma Preserves_emit (ev : Event) : Preserves reported (emit ev).
Proof. intros m. reflexivity. Qed.

Lemma confirm_loop_frame (w : World) (sig commitment : jsstring) (start : N)
    (timeoutMs : Z) (m : Machine) :
  log (snd (confirm_loop w sig commitment start timeoutMs m)) = log m /\
  dash (snd (confirm_loop w sig commitment start timeoutMs m)) = dash m.
Proof.
  funelim (confirm_loop w sig commitment start timeoutMs m).
  - clear Heq Heqcall.
    destruct (fst (poll w signature commitment m)).
    + cbn [snd]. rewrite poll_machine. split; reflexivity.
    + rewrite poll_machine in *. exact H.
  - split; reflexivity.
Qed.

Lemma Preserves_confirm {X} (w : World) (f : Machine -> X)
    (sig commitment : jsstring) (timeoutMs : Z) :
  Stable f ->
  Preserves f (confirmTransactionWithTimeout w sig commitment timeoutMs).
Proof.
  intros Hf m. unfold confirmTransactionWithTimeout.
  pose proof (confirm_loop_frame w sig commitment (clock m) timeoutMs m)
    as [Hlog Hdash].
  destruct (confirm_loop w sig commitment (clock m) timeoutMs m) as [r m'].
  cbn in *. apply Hf; [exact Hlog | unfold reported; now rewrite Hdash].
Qed.

Create HintDb frame.

#[local] Hint Resolve Stable_log Stable_reported : frame.

Lemma Preserves_getLatestBlockhash {X} (w : World) (f : Machine -> X) :
  Stable f -> Preserves f (getLatestBlockhash w).
Proof. apply Preserves_request. Qed.

Lemma Preserves_sendRawTransaction {X} (w : World) (f : Machine -> X)
    (raw : jsstring) :
  Stable f -> Preserves f (sendRawTransaction w raw).
Proof. apply Preserves_request. Qed.

Lemma Preserves_sendTransaction {X} (w : World) (f : Machine -> X)
    (tx : Transaction) :
  Stable f -> Preserves f (sendTransaction w tx).
Proof. apply Preserves_request. Qed.

#[local] Hint Resolve Preserves_getLatestBlockhash
  Preserves_sendRawTransaction Preserves_sendTransaction : frame.
Lemma Preserves_newPublicKey {X} (w : World) (f : Machine -> X)
    (s : jsstring) : Preserves f (newPublicKey w s).
Proof. apply Preserves_sdk. Qed.

Lemma Preserves_getAssociatedTokenAddress {X} (w : World) (f : Machine -> X)
    (mintKey owner programId : PublicKey) :
  Preserves f (getAssociatedTokenAddress w mintKey owner programId).
Proof. apply Preserves_sdk. Qed.

#[local] Hint Resolve Preserves_newPublicKey
  Preserves_getAssociatedTokenAddress : frame.

#[local] Hint Resolve Preserves_ret Preserves_throw Preserves_sdk
  Preserves_request Preserves_sleep Preserves_setStatus
  Preserves_setStatusMsg Preserves_setTxSigs Preserves_emit
  Preserves_confirm : frame.

(** Frames by the structure of the code. *)
Ltac frame :=
  repeat first
    [ progress intros
    | solve [auto with frame]
    | apply Preserves_bind
    | apply Preserves_try_catch
    | apply Preserves_foldM
    | match goal with
      | |- Preserves _ (match ?x with _ => _ end) => destruct x
      | |- Preserves _ (let '(_, _) := ?x in _) => destruct x
      end ].

Lemma Preserves_requestAlchemyFeePayer {X} (w : World) (f : Machine -> X)
    (tx : jsstring) :
  Stable f -> Preserves f (requestAlchemyFeePayer w tx).
Proof. intros Hf. unfold requestAlchemyFeePayer. frame. Qed.

#[local] Hint Resolve Preserves_requestAlchemyFeePayer : frame.

Lemma Preserves_build {X} (w : World) (f : Machine -> X) (sender : PublicKey)
    (recipients : list Recipient) (tokenMint : jsstring) (decimals : nat)
    (programId : PublicKey) :
  Stable f ->
  Preserves f (buildMultiSendTransaction w sender recipients tokenMint
                 decimals programId).
Proof.
  intros Hf.
  unfold buildMultiSendTransaction, resolve_atas, build_transfer_tx,
    resolve_ata, add_transfer, newPublicKey, getAssociatedTokenAddress.
  frame.
Qed.

#[local] Hint Resolve Preserves_build : frame.

Lemma Preserves_await_confirmation (w : World) (sig : Signature) :
  Preserves reported (await_confirmation w sig).
Proof. unfold await_confirmation. frame. Qed.

#[local] Hint Resolve Preserves_await_confirmation : frame.

Lemma handleSend_try_reported (w : World) (pk : PublicKey) (d : Dashboard) :
  Preserves reported (handleSend_try w pk d).
Proof.
  unfold handleSend_try, handleSend_creations, handleSend_transfers,
    send_ata_batch, send_transfer_batch, push_signature,
    getLatestBlockhash, sendRawTransaction, sendTransaction.
  frame.
Qed.

Lemma handleMultiTokenSend_try_reported (w : World) (pk : PublicKey)
    (d : Dashboard) :
  Preserves reported (handleMultiTokenSend_try w pk d).
Proof.
  unfold handleMultiTokenSend_try, multi_send_token, multi_creations,
    multi_transfers, multi_send_ata, multi_send_transfer, confirm_from,
    push_signature,
    getLatestBlockhash, sendRawTransaction, sendTransaction.
  frame.
Qed.

(** ** What sequential code appends to the record *)

Lemma Emits_conseq {A} (c : M A) (Q Q' : Outcome A -> list Event -> Prop) :
  Emits c Q -> (forall o evs, Q o evs -> Q' o evs) -> Emits c Q'.
Proof.
  intros Hc HQ m. destruct (Hc m) as (evs & Hlog & H).
  exists evs. split; [exact Hlog | now apply HQ].
Qed.

Lemma Emits_ret {A} (a : A) (Q : Outcome A -> list Event -> Prop) :
  Q (Returned a) [] -> Emits (ret a) Q.
Proof. intros H m. exists []. cbn. now rewrite app_nil_r. Qed.

Lemma Emits_throw {A} (e : JsError) (Q : Outcome A -> list Event -> Prop) :
  Q (Thrown e) [] -> Emits (throw e) Q.
Proof. intros H m. exists []. cbn. now rewrite app_nil_r. Qed.

Lemma Emits_emit (ev : Event) (Q : Outcome unit -> list Event -> Prop) :
  Q (Returned tt) [ev] -> Emits (emit ev) Q.
Proof. intros H m. exists [ev]. cbn. now split. Qed.

Lemma Emits_bind {A B} (c : M A) (k : A -> M B)
    (Qc : Outcome A -> list Event -> Prop)
    (Q : Outcome B -> list Event -> Prop) :
  Emits c Qc ->
  (forall e evs1, Qc (Thrown e) evs1 -> Q (Thrown e) evs1) ->
  (forall a evs1, Qc (Returned a) evs1 ->
                  Emits (k a) (fun o evs2 => Q o (evs1 ++ evs2))) ->
  Emits (bind c k) Q.
Proof.
  intros Hc Hthrow Hk m. unfold bind.
  destruct (Hc m) as (evs1 & Hlog1 & H1).
  destruct (c m) as [[a|e] m1]; cbn in *.
  - destruct (Hk a evs1 H1 m1) as (evs2 & Hlog2 & H2).
    exists (evs1 ++ evs2). split; [|exact H2].
    now rewrite Hlog2, Hlog1, app_assoc.
  - exists evs1. split; [exact Hlog1 | now apply Hthrow].
Qed.

Lemma Emits_try_catch {A} (c : M A) (h : JsError -> M A)
    (Qc Q : Outcome A -> list Event -> Prop) :
  Emits c Qc ->
  (forall a evs, Qc (Returned a) evs -> Q (Returned a) evs) ->
  (forall e evs1, Qc (Thrown e) evs1 ->
                  Emits (h e) (fun o evs2 => Q o (evs1 ++ evs2))) ->
  Emits (try_catch c h) Q.
Proof.
  intros Hc Hret Hh m. unfold try_catch.
  destruct (Hc m) as (evs1 & Hlog1 & H1).
  destruct (c m) as [[a|e] m1]; cbn in *.
  - exists evs1. split; [exact Hlog1 | now apply Hret].
  - destruct (Hh e evs1 H1 m1) as (evs2 & Hlog2 & H2).
    exists (evs1 ++ evs2). split; [|exact H2].
    now rewrite Hlog2, Hlog1, app_assoc.
Qed.

(** Code that appends nothing: only its throwing has to be accounted for. *)
Lemma Emits_bind_silent {A B} (c : M A) (k : A -> M B)
    (Q : Outcome B -> list Event -> Prop) :
  Preserves log c ->
  (forall e, Q (Thrown e) []) ->
  (forall a, Emits (k a) Q) ->
  Emits (bind c k) Q.
Proof.
  intros Hc Hthrow Hk.
  apply Emits_bind with (Qc := fun _ evs => evs = []).
  - intros m. exists []. split; [|reflexivity].
    now rewrite (Hc m), app_nil_r.
  - intros e evs1 ->. apply Hthrow.
  - intros a evs1 ->. exact (Hk a).
Qed.

Lemma Emits_bind_quiet {A B} (c : M A) (k : A -> M B)
    (Q : Outcome B -> list Event -> Prop) :
  Quiet c -> (forall a, Emits (k a) Q) -> Emits (bind c k) Q.
Proof.
  intros Hc Hk m. unfold bind.
  destruct (Hc m) as (Hlog & a & Ha).
  destruct (c m) as [o m1]; cbn in *. subst o.
  destruct (Hk a m1) as (evs & Hlog2 & H2).
  exists evs. split; [|exact H2]. now rewrite Hlog2, Hlog.
Qed.

Lemma Quiet_ret {A} (a : A) : Quiet (ret a).
Proof. intros m. split; [reflexivity | now exists a]. Qed.

Lemma Quiet_setStatus (s : Status) : Quiet (setStatus s).
Proof. intros m. split; [reflexivity | now exists tt]. Qed.

Lemma Quiet_setStatusMsg (msg : StatusMsg) : Quiet (setStatusMsg msg).
Proof. intros m. split; [reflexivity | now exists tt]. Qed.

Lemma Quiet_setTxSigs (sigs : list Signature) : Quiet (setTxSigs sigs).
Proof. intros m. split; [reflexivity | now exists tt]. Qed.

Lemma Quiet_sleep (w : World) (ms : N) : Quiet (sleep w ms).
Proof. intros m. split; [reflexivity | now exists tt]. Qed.

Lemma Quiet_if {A} (b : bool) (c1 c2 : M A) :
  Quiet c1 -> Quiet c2 -> Quiet (if b then c1 else c2).
Proof. destruct b; auto. Qed.

Create HintDb quiet.

#[local] Hint Resolve Quiet_ret Quiet_setStatus Quiet_setStatusMsg
  Quiet_setTxSigs Quiet_sleep Quiet_if : quiet.

Lemma await_confirmation_emits (w : World) (sig : Signature) :
  Emits (await_confirmation w sig)
    (fun o evs => o = Returned tt /\ exists r, evs = [EvConfirmed sig r]).
Proof.
  intros m. unfold await_confirmation, bind, confirmTransactionWithTimeout.
  pose proof (confirm_loop_frame w sig (js "confirmed") (clock m) 90000 m)
    as [Hlog _].
  destruct (confirm_loop w sig (js "confirmed") (clock m) 90000 m) as [r m'].
  cbn in *. exists [EvConfirmed sig r]. rewrite Hlog.
  split; [reflexivity|]. split; [reflexivity | now exists r].
Qed.

Lemma push_signature_emits (t : nat) (kind : BatchKind) (i : nat)
    (sigs : list Signature) (sig : Signature) :
  Emits (push_signature t kind i sigs sig)
    (fun o evs => o = Returned (sigs ++ [sig]) /\
                  evs = [EvSent t kind i sig]).
Proof. intros m. exists [EvSent t kind i sig]. cbn. auto. Qed.

Ltac quiet_step :=
  apply Emits_bind_quiet; [solve [auto with quiet] | intros].

Ltac silent_step :=
  apply Emits_bind_silent; [solve [frame] | intros | intros].

Lemma one_sent_thrown (t : nat) (kind : BatchKind) (i : nat)
    (sigs : list Signature) (e : JsError) :
  one_sent t kind i sigs (Thrown e) [].
Proof. left. now exists e. Qed.

#[local] Hint Resolve one_sent_thrown : quiet.

Lemma send_ata_batch_emits (w : World) (pk : PublicKey) (n : nat)
    (sigs : list Signature) (i : nat) (tx : Transaction) :
  Emits (send_ata_batch w pk n sigs (i, tx)) (one_sent 0 Creation i sigs).
Proof.
  unfold send_ata_batch.
  apply Emits_try_catch with (Qc := one_sent 0 Creation i sigs).
  - silent_step; [auto with quiet|].
    apply Emits_bind with (Qc := one_sent 0 Creation i sigs).
    + generalize ALCHEMY_CONFIG_enabled. intros [|].
      * quiet_step. silent_step; [auto with quiet|].
        silent_step; [auto with quiet|].
        match goal with |- Emits (match ?r with _ => _ end) _ => destruct r end.
        -- silent_step; [auto with quiet|].
           eapply Emits_conseq; [apply push_signature_emits|].
           intros o evs [-> ->]. right. eauto.
        -- apply Emits_throw. auto with quiet.
      * quiet_step. silent_step; [auto with quiet|].
        eapply Emits_conseq; [apply push_signature_emits|].
        intros o evs [-> ->]. right. eauto.
    + auto.
    + intros pushed evs1 H. quiet_step. apply Emits_ret. now rewrite app_nil_r.
  - auto.
  - intros e evs1 [(e' & _ & ->)|(sig & Hsig & _)]; [|discriminate].
    apply Emits_throw. auto with quiet.
Qed.

Lemma send_transfer_batch_emits (w : World) (pk : PublicKey) (n : nat)
    (sigs : list Signature) (i : nat) (tx : Transaction) :
  Emits (send_transfer_batch w pk n sigs (i, tx)) (one_sent 0 Transfer i sigs).
Proof.
  unfold send_transfer_batch.
  quiet_step. silent_step; [auto with quiet|].
  silent_step; [auto with quiet|].
  apply Emits_bind with (Qc := one_sent 0 Transfer i sigs).
  - eapply Emits_conseq; [apply push_signature_emits|].
    intros o evs [-> ->]. right. eauto.
  - auto.
  - intros pushed evs1 H. quiet_step. apply Emits_ret. now rewrite app_nil_r.
Qed.

Lemma multi_send_ata_emits (w : World) (pk : PublicKey) (t : nat)
    (token : TokenAccount) (sigs : list Signature) (i : nat)
    (tx : Transaction) :
  Emits (multi_send_ata w pk t token sigs (i, tx)) (one_sent t Creation i sigs).
Proof.
  unfold multi_send_ata.
  silent_step; [auto with quiet|].
  apply Emits_bind with (Qc := one_sent t Creation i sigs).
  - generalize ALCHEMY_CONFIG_enabled. intros [|].
    + silent_step; [auto with quiet|].
      silent_step; [auto with quiet|].
      match goal with |- Emits (match ?r with _ => _ end) _ => destruct r end.
      * silent_step; [auto with quiet|].
        eapply Emits_conseq; [apply push_signature_emits|].
        intros o evs [-> ->]. right. eauto.
      * apply Emits_throw. auto with quiet.
    + silent_step; [auto with quiet|].
      eapply Emits_conseq; [apply push_signature_emits|].
      intros o evs [-> ->]. right. eauto.
  - auto.
  - intros pushed evs1 H. quiet_step. apply Emits_ret. now rewrite app_nil_r.
Qed.

Lemma multi_send_transfer_emits (w : World) (pk : PublicKey) (t : nat)
    (token : TokenAccount) (n : nat) (sigs : list Signature) (i : nat)
    (tx : Transaction) :
  Emits (multi_send_transfer w pk t token n sigs (i, tx))
        (one_sent t Transfer i sigs).
Proof.
  unfold multi_send_transfer.
  quiet_step. silent_step; [auto with quiet|].
  silent_step; [auto with quiet|].
  apply Emits_bind with (Qc := one_sent t Transfer i sigs).
  - eapply Emits_conseq; [apply push_signature_emits|].
    intros o evs [-> ->]. right. eauto.
  - auto.
  - intros pushed evs1 H. quiet_step. apply Emits_ret. now rewrite app_nil_r.
Qed.

(** A submission loop, from the specification of its body. *)
Lemma foldM_sent (t : nat) (kind : BatchKind)
    (body : list Signature -> nat * Transaction -> M (list Signature)) :
  (forall sigs i tx, Emits (body sigs (i, tx)) (one_sent t kind i sigs)) ->
  forall txs k sigs,
    Emits (foldM body (combine (seq k (List.length txs)) txs) sigs)
          (many_sent t kind k (List.length txs) sigs).
Proof.
  intros Hbody. induction txs as [|tx txs IH]; intros k sigs.
  - apply Emits_ret. exists []. split; [reflexivity|].
    right. now rewrite app_nil_r.
  - cbn [List.length seq combine foldM].
    apply Emits_bind with (Qc := one_sent t kind k sigs).
    + apply Hbody.
    + intros e evs1 [(e' & _ & ->)|(sig & Hsig & _)]; [|discriminate].
      exists []. split; [reflexivity|]. left. exists e. split; [reflexivity|].
      cbn. lia.
    + intros a evs1 [(e' & He & _)|(sig & Hsig & ->)]; [discriminate|].
      inversion Hsig; subst a.
      eapply Emits_conseq; [apply IH|].
      intros o evs2 (S & -> & H). exists (sig :: S). split; [reflexivity|].
      destruct H as [(e & -> & Hlen)|(-> & Hlen)].
      * left. exists e. split; [reflexivity|]. cbn. lia.
      * right. rewrite <- app_assoc. cbn. split; [reflexivity | lia].
Qed.

(** The loop that awaits the watcher on each signature of a list. *)
Lemma foldM_confirms (w : World) (sigs : list Signature) :
  Emits (foldM (fun _ sig => await_confirmation w sig) sigs tt)
        (fun o evs => o = Returned tt /\ confirms sigs evs).
Proof.
  induction sigs as [|sig sigs IH]; cbn [foldM].
  - apply Emits_ret. split; [reflexivity | constructor].
  - eapply Emits_bind; [apply await_confirmation_emits | |].
    + intros e evs1 [H _]. discriminate.
    + intros [] evs1 [_ (r & ->)].
      eapply Emits_conseq; [apply IH|].
      intros o evs2 [-> H]. split; [reflexivity|].
      constructor; [now exists r | exact H].
Qed.

Lemma foldM_confirms_items (w : World) (n : nat)
    (items : list (nat * Signature)) :
  Emits (foldM (fun _ item =>
                  setStatusMsg (MsgConfirmingBatch (fst item + 1) n) ;;;
                  await_confirmation w (snd item)) items tt)
        (fun o evs => o = Returned tt /\ confirms (map snd items) evs).
Proof.
  induction items as [|item items IH]; cbn [foldM map].
  - apply Emits_ret. split; [reflexivity | constructor].
  - eapply Emits_bind.
    + quiet_step. apply await_confirmation_emits.
    + intros e evs1 [H _]. discriminate.
    + intros [] evs1 [_ (r & ->)].
      eapply Emits_conseq; [apply IH|].
      intros o evs2 [-> H]. split; [reflexivity|].
      constructor; [now exists r | exact H].
Qed.

Lemma confirms_are_confirmations (sigs : list Signature) (evs : list Event) :
  confirms sigs evs -> Forall is_confirmation evs.
Proof.
  induction 1 as [|sig ev sigs evs (r & ->) _ IH]; constructor; [exact I | exact IH].
Qed.

(** ** The phases of an asset *)

Lemma handleSend_creations_emits (w : World) (pk : PublicKey)
    (built : BuildResult) :
  Emits (handleSend_creations w pk built)
        (creation_shape 0 (List.length (ataTxs built)) []).
Proof.
  unfold handleSend_creations.
  destruct (ataTxs built) as [|tx txs] eqn:E.
  - apply Emits_ret. exists [], []. split; [reflexivity|].
    right. repeat split. constructor.
  - rewrite <- E. clear E tx txs. quiet_step.
    eapply Emits_bind;
      [apply foldM_sent with (t := 0) (kind := Creation);
       intros; apply send_ata_batch_emits | |].
    + intros e evs1 (S & -> & [(e' & _ & Hlen)|(H & _)]); [|discriminate].
      exists S, []. rewrite app_nil_r. split; [reflexivity|].
      left. exists e. auto.
    + intros acc evs1 (S & -> & [(e' & H & _)|(H & Hlen)]); [discriminate|].
      inversion H; subst acc. cbn [app]. quiet_step.
      eapply Emits_bind; [apply foldM_confirms | |].
      * intros e evs2 [H2 _]. discriminate.
      * intros [] evs2 [_ Hc]. quiet_step. quiet_step.
        apply Emits_ret. exists S, evs2. rewrite !app_nil_r.
        split; [reflexivity|]. right. auto.
Qed.

Lemma handleSend_transfers_emits (w : World) (pk : PublicKey) (n : nat)
    (built : BuildResult) (sigs : list Signature) :
  Emits (handleSend_transfers w pk n built sigs) (transfer_shape 0 sigs).
Proof.
  unfold handleSend_transfers. quiet_step.
  eapply Emits_bind;
    [apply foldM_sent with (t := 0) (kind := Transfer);
     intros; apply send_transfer_batch_emits | |].
  - intros e evs1 (S & -> & _). exists S, []. rewrite app_nil_r.
    split; [reflexivity|]. split; [constructor | discriminate].
  - intros acc evs1 (S & -> & [(e' & H & _)|(H & Hlen)]); [discriminate|].
    inversion H; subst acc. quiet_step.
    eapply Emits_bind; [apply foldM_confirms_items | |].
    + intros e evs2 [H2 _]. discriminate.
    + intros [] evs2 [_ Hc]. apply Emits_ret.
      exists S, evs2. rewrite app_nil_r. split; [reflexivity|].
      split; [eapply confirms_are_confirmations; exact Hc|].
      intros sigs' H'. now inversion H'.
Qed.

Lemma skipn_new_signatures {A} (old new : list A) :
  skipn (List.length (old ++ new) - List.length new) (old ++ new) = new.
Proof.
  rewrite length_app. replace (_ + _ - _) with (List.length old) by lia.
  rewrite skipn_app, skipn_all, Nat.sub_diag. reflexivity.
Qed.

Lemma multi_creations_emits (w : World) (pk : PublicKey) (t : nat)
    (token : TokenAccount) (built : BuildResult) (sigs : list Signature) :
  Emits (multi_creations w pk t token built sigs)
        (creation_shape t (List.length (ataTxs built)) sigs).
Proof.
  unfold multi_creations.
  destruct (ataTxs built) as [|tx txs] eqn:E.
  - apply Emits_ret. exists [], []. split; [reflexivity|].
    right. rewrite app_nil_r. repeat split. constructor.
  - rewrite <- E. clear E tx txs. quiet_step.
    eapply Emits_bind;
      [apply foldM_sent with (t := t) (kind := Creation);
       intros; apply multi_send_ata_emits | |].
    + intros e evs1 (S & -> & [(e' & _ & Hlen)|(H & _)]); [|discriminate].
      exists S, []. rewrite app_nil_r. split; [reflexivity|].
      left. exists e. auto.
    + intros acc evs1 (S & -> & [(e' & H & _)|(H & Hlen)]); [discriminate|].
      inversion H; subst acc. unfold confirm_from.
      rewrite <- Hlen, skipn_new_signatures.
      eapply Emits_bind; [apply foldM_confirms | |].
      * intros e evs2 [H2 _]. discriminate.
      * intros [] evs2 [_ Hc].
        apply Emits_ret. exists S, evs2. rewrite !app_nil_r.
        split; [reflexivity|]. right. auto.
Qed.

Lemma multi_transfers_emits (w : World) (pk : PublicKey) (t : nat)
    (token : TokenAccount) (built : BuildResult) (sigs : list Signature) :
  Emits (multi_transfers w pk t token built sigs) (transfer_shape t sigs).
Proof.
  unfold multi_transfers. quiet_step.
  eapply Emits_bind;
    [apply foldM_sent with (t := t) (kind := Transfer);
     intros; apply multi_send_transfer_emits | |].
  - intros e evs1 (S & -> & _). exists S, []. rewrite app_nil_r.
    split; [reflexivity|]. split; [constructor | discriminate].
  - intros acc evs1 (S & -> & [(e' & H & _)|(H & Hlen)]); [discriminate|].
    inversion H; subst acc. unfold confirm_from.
    eapply Emits_bind; [apply foldM_confirms | |].
    + intros e evs2 [H2 _]. discriminate.
    + intros [] evs2 [_ Hc]. apply Emits_ret.
      exists S, evs2. rewrite app_nil_r. split; [reflexivity|].
      split; [eapply confirms_are_confirmations; exact Hc|].
      intros sigs' H'. now inversion H'.
Qed.

Lemma Emits_bind_emit {B} (ev : Event) (k : unit -> M B)
    (Q : Outcome B -> list Event -> Prop) :
  Emits (k tt) (fun o evs2 => Q o (ev :: evs2)) -> Emits (bind (emit ev) k) Q.
Proof.
  intros Hk.
  apply Emits_bind with (Qc := fun o evs => o = Returned tt /\ evs = [ev]).
  - now apply Emits_emit.
  - intros e evs1 [H _]. discriminate.
  - intros [] evs1 [_ ->]. exact Hk.
Qed.

(** The two phases after the build event. *)
Lemma phases_emit {A} (t nA nT : nat) (base : list Signature)
    (creations : M (list Signature))
    (transfers : list Signature -> M (list Signature))
    (finish : list Signature -> A) (proj : A -> list Signature) :
  Emits creations (creation_shape t nA base) ->
  (forall sigs, Emits (transfers sigs) (transfer_shape t sigs)) ->
  (forall sigs, proj (finish sigs) = sigs) ->
  Emits (sigs <- creations ;; sigs <- transfers sigs ;; ret (finish sigs))
        (fun o evs => asset_outcome t proj base o (EvBuilt t nA nT :: evs)).
Proof.
  intros Hc Ht Hproj.
  eapply Emits_bind; [exact Hc | |].
  - intros e evs1 (S & C & -> & [(e' & _ & Hlen & ->)|(H & _)]);
      [|discriminate].
    right. exists S, []. split; [|discriminate].
    exists nA, nT, [], []. cbn. rewrite !app_nil_r.
    split; [reflexivity|]. split; [constructor|]. right. auto.
  - intros acc evs1 (S & C & -> & [(e' & H & _)|(H & Hlen & Hconf)]);
      [discriminate|].
    inversion H; subst acc.
    eapply Emits_bind; [apply Ht | |].
    + intros e evs2 (S2 & C2 & -> & HC2 & _).
      right. exists S, S2. split; [|discriminate].
      exists nA, nT, C, C2. rewrite <- !app_assoc.
      split; [reflexivity|]. split; [exact HC2|]. left. auto.
    + intros acc evs2 (S2 & C2 & -> & HC2 & Hsigs).
      apply Emits_ret. rewrite app_nil_r.
      right. exists S, S2. split.
      * exists nA, nT, C, C2. rewrite <- !app_assoc.
        split; [reflexivity|]. split; [exact HC2|]. left. auto.
      * intros r Hr. inversion Hr; subst r. rewrite Hproj.
        rewrite (Hsigs acc eq_refl). now rewrite <- app_assoc.
Qed.

Lemma handleSend_try_emits (w : World) (pk : PublicKey) (d : Dashboard) :
  Emits (handleSend_try w pk d)
        (asset_outcome 0 (fun r => fst (fst r)) []).
Proof.
  unfold handleSend_try.
  match goal with |- Emits (match ?l with _ => _ end) _ => destruct l end.
  { apply Emits_throw. left. eauto. }
  match goal with |- Emits (if ?b then _ else _) _ => destruct b end.
  { apply Emits_throw. left. eauto. }
  quiet_step. quiet_step.
  apply Emits_bind_silent; [solve [frame] | left; eauto | intros built].
  apply Emits_bind_emit.
  apply (@phases_emit (list Signature * nat * AtaStats) 0 _
           (List.length (transferTxs built)) []
           (handleSend_creations w pk built)
           (handleSend_transfers w pk _ built)
           (fun sigs => (sigs, _, ataStats built))
           (fun r => fst (fst r))).
  - apply handleSend_creations_emits.
  - intros sigs. apply handleSend_transfers_emits.
  - reflexivity.
Qed.

Lemma multi_send_token_emits (w : World) (pk : PublicKey)
    (validRecipients : list Recipient) (tokens : nat) (st : MultiState)
    (t : nat) (token : TokenAccount) :
  Emits (multi_send_token w pk validRecipients tokens st (t, token))
        (asset_outcome t allSignatures (allSignatures st)).
Proof.
  unfold multi_send_token.
  quiet_step.
  apply Emits_bind_silent; [solve [frame] | left; eauto | intros built].
  apply Emits_bind_emit.
  apply (@phases_emit MultiState t _
           (List.length (transferTxs built)) (allSignatures st)
           (multi_creations w pk t token built (allSignatures st))
           (multi_transfers w pk t token built)
           (fun sigs =>
              {| allSignatures := sigs;
                 totalAtasCreated := _; totalAtasExisted := _ |})
           allSignatures).
  - apply multi_creations_emits.
  - intros sigs. apply multi_transfers_emits.
  - reflexivity.
Qed.

(** ** Reading the record of an asset *)

Unset Implicit Arguments.

Lemma sent_events_cons (t : nat) (kind : BatchKind) (k : nat)
    (sig : Signature) (S : list Signature) :
  sent_events t kind k (sig :: S)
  = EvSent t kind k sig :: sent_events t kind (Datatypes.S k) S.
Proof. reflexivity. Qed.

Lemma sent_events_signatures (t : nat) (kind : BatchKind) (S : list Signature) :
  forall k, sent_signatures (sent_events t kind k S) = S.
Proof.
  induction S as [|sig S IH]; intros k; [reflexivity|].
  rewrite sent_events_cons. cbn. now rewrite IH.
Qed.

Lemma confirmations_signatures (C : list Event) :
  Forall is_confirmation C -> sent_signatures C = [].
Proof.
  induction 1 as [|ev C Hev _ IH]; [reflexivity|].
  destruct ev; try contradiction. cbn. exact IH.
Qed.

Lemma sent_signatures_app (a b : list Event) :
  sent_signatures (a ++ b) = sent_signatures a ++ sent_signatures b.
Proof. apply flat_map_app. Qed.

Lemma asset_shape_signatures (t : nat) (S S2 : list Signature)
    (evs : list Event) :
  asset_shape t S S2 evs -> sent_signatures evs = S ++ S2.
Proof.
  intros (nA & nT & C & C2 & -> & HC2 & H).
  assert (HC : Forall is_confirmation C).
  { destruct H as [(_ & Hc)|(_ & -> & _)];
      [eapply confirms_are_confirmations; exact Hc | constructor]. }
  change (sent_signatures (EvBuilt t nA nT :: ?l)) with (sent_signatures l).
  rewrite !sent_signatures_app, !sent_events_signatures.
  rewrite (confirmations_signatures _ HC), (confirmations_signatures _ HC2).
  now rewrite app_nil_r.
Qed.

Lemma sent_events_In (t : nat) (kind : BatchKind) (S : list Signature)
    (ev : Event) :
  forall k, In ev (sent_events t kind k S) ->
            exists i sig, ev = EvSent t kind i sig.
Proof.
  induction S as [|sig S IH]; intros k Hin; [contradiction|].
  rewrite sent_events_cons in Hin. destruct Hin as [<-|Hin]; eauto.
Qed.

Lemma sent_events_nth (t : nat) (kind : BatchKind) (S : list Signature) :
  forall k i,
    i < List.length S ->
    exists sig E1 E2,
      nth_error S i = Some sig /\
      sent_events t kind k S = E1 ++ EvSent t kind (k + i) sig :: E2.
Proof.
  induction S as [|s S IH]; intros k i Hi; [cbn in Hi; lia|].
  rewrite sent_events_cons. destruct i as [|i].
  - exists s, [], (sent_events t kind (Datatypes.S k) S).
    rewrite Nat.add_0_r. now split.
  - destruct (IH (Datatypes.S k) i) as (sig & E1 & E2 & Hnth & Heq);
      [cbn in Hi; lia|].
    exists sig, (EvSent t kind k s :: E1), E2.
    split; [exact Hnth|]. rewrite Heq.
    now replace (k + Datatypes.S i) with (Datatypes.S k + i) by lia.
Qed.

Lemma confirms_nth (S : list Signature) (C : list Event) :
  confirms S C ->
  forall i sig, nth_error S i = Some sig ->
                exists r C1 C2, C = C1 ++ EvConfirmed sig r :: C2.
Proof.
  induction 1 as [|s ev S C (r & ->) _ IH]; intros i sig Hnth.
  - destruct i; discriminate.
  - destruct i as [|i].
    + inversion Hnth; subst. now exists r, [], C.
    + destruct (IH i sig Hnth) as (r' & C1 & C2 & ->).
      now exists r', (EvConfirmed s r :: C1), C2.
Qed.

(** An event that has a property no event of [A] has lies after [A]. *)
Lemma split_after {X} (P : X -> Prop) (A : list X) :
  Forall (fun x => ~ P x) A ->
  forall Y l e post,
    A ++ Y = l ++ e :: post -> P e ->
    exists Y1, l = A ++ Y1 /\ Y = Y1 ++ e :: post.
Proof.
  induction 1 as [|a A Ha _ IH]; intros Y l e post Heq He.
  - now exists l.
  - destruct l as [|x l]; cbn in Heq; inversion Heq; subst.
    + contradiction.
    + destruct (IH _ _ _ _ H1 He) as (Y1 & -> & ->). now exists Y1.
Qed.

Lemma creation_part_no_transfer (t nA nT : nat) (S : list Signature)
    (C : list Event) :
  Forall is_confirmation C ->
  Forall (fun ev => ~ is_transfer_sent ev)
         (EvBuilt t nA nT :: sent_events t Creation 0 S ++ C).
Proof.
  intros HC. constructor; [auto|]. apply Forall_app. split.
  - apply Forall_forall. intros ev Hin.
    apply sent_events_In in Hin as (i & sig & ->). auto.
  - eapply Forall_impl; [|exact HC]. intros [] H; auto.
Qed.

Lemma transfer_part_events (t : nat) (S2 : list Signature) (C2 : list Event)
    (ev : Event) :
  Forall is_confirmation C2 ->
  In ev (sent_events t Transfer 0 S2 ++ C2) ->
  (exists i sig, ev = EvSent t Transfer i sig) \/ is_confirmation ev.
Proof.
  intros HC2 Hin. apply in_app_or in Hin as [Hin|Hin].
  - left. eapply sent_events_In; exact Hin.
  - right. eapply Forall_forall; [exact HC2 | exact Hin].
Qed.

(** The builds recorded in the record of the asset [t]: its own. *)
Lemma asset_shape_builts (t : nat) (S S2 : list Signature)
    (evs : list Event) (t' a b : nat) :
  asset_shape t S S2 evs ->
  In (EvBuilt t' a b) evs ->
  exists nT C C2,
    t' = t /\
    evs = EvBuilt t a nT :: sent_events t Creation 0 S ++ C
          ++ sent_events t Transfer 0 S2 ++ C2.
Proof.
  intros (nA & nT & C & C2 & -> & HC2 & H) Hin.
  assert (HC : Forall is_confirmation C).
  { destruct H as [(_ & Hc)|(_ & -> & _)];
      [eapply confirms_are_confirmations; exact Hc | constructor]. }
  destruct Hin as [Heq|Hin].
  - inversion Heq; subst. eexists _, C, C2. split; reflexivity.
  - exfalso. apply in_app_or in Hin as [Hin|Hin].
    + apply sent_events_In in Hin as (i & sig & Hev). discriminate.
    + apply in_app_or in Hin as [Hin|Hin].
      * apply (proj1 (Forall_forall _ _) HC) in Hin. exact Hin.
      * apply (transfer_part_events _ _ _ _ HC2) in Hin
          as [(i & sig & Hev)|Hev]; [discriminate | exact Hev].
Qed.

(** One more asset keeps the order. *)
Lemma asset_shape_ordered (k : nat) (S S2 : list Signature)
    (block evs0 : list Event) :
  asset_shape k S S2 block ->
  creation_precedes_transfer evs0 ->
  builts_below k evs0 ->
  creation_precedes_transfer (evs0 ++ block) /\
  builts_below (Datatypes.S k) (evs0 ++ block).
Proof.
  intros Hshape Hord Hbelow. split.
  - intros pre t j sig post Heq.
    apply app_eq_app in Heq as (l & [[-> Heq]|[-> Heq]]).
    + destruct l as [|e l].
      * exfalso. destruct Hshape as (nA & nT & C & C2 & -> & _).
        discriminate.
      * inversion Heq; subst e. now apply (Hord pre t j sig l).
    + pose proof Hshape as (nA & nT & C & C2 & Hblock & HC2 & H).
      assert (HC : Forall is_confirmation C).
      { destruct H as [(_ & Hc)|(_ & -> & _)];
          [eapply confirms_are_confirmations; exact Hc | constructor]. }
      rewrite Hblock in Heq.
      change (EvBuilt k nA nT :: ?a ++ C ++ ?b)
        with ((EvBuilt k nA nT :: a) ++ C ++ b) in Heq.
      rewrite app_assoc in Heq.
      apply (split_after is_transfer_sent _
               (creation_part_no_transfer k nA nT S C HC)) in Heq
        as (Y1 & -> & HY); [|exact I].
      assert (Hin : In (EvSent t Transfer j sig)
                       (sent_events k Transfer 0 S2 ++ C2)).
      { rewrite HY. apply in_or_app. right. now left. }
      apply (transfer_part_events _ _ _ _ HC2) in Hin as [(i & s & Hev)|Hev];
        [|contradiction].
      inversion Hev; subst t.
      destruct H as [(Hlen & Hconf)|(_ & _ & -> & ->)];
        [|destruct Y1; discriminate].
      assert (HY1 : forall ev, In ev Y1 -> ~ is_built ev).
      { intros ev Hev1.
        assert (Hin : In ev (sent_events k Transfer 0 S2 ++ C2)).
        { rewrite HY. apply in_or_app. now left. }
        apply (transfer_part_events _ _ _ _ HC2) in Hin as [(i' & s' & ->)|Hc];
          [auto | destruct ev; auto]. }
      split.
      * exists nA, nT. apply in_or_app. right. now left.
      * intros a b Hin i' Hi'.
        apply in_app_or in Hin as [Hin|Hin];
          [apply Hbelow in Hin; lia|].
        assert (a = nA) as ->.
        { apply in_app_or in Hin as [Hin|Hin].
          - destruct Hin as [Heq'|Hin]; [now inversion Heq'|].
            exfalso. apply in_app_or in Hin as [Hin|Hin].
            + apply sent_events_In in Hin as (? & ? & ?). discriminate.
            + apply (proj1 (Forall_forall _ _) HC) in Hin. exact Hin.
          - exfalso. exact (HY1 _ Hin I). }
        rewrite <- Hlen in Hi'.
        destruct (sent_events_nth k Creation S 0 i' Hi')
          as (sg & E1 & E2 & Hnth & HS).
        destruct (confirms_nth S C Hconf _ _ Hnth) as (r & C1 & C2' & ->).
        exists sg, r, (evs0 ++ EvBuilt k nA nT :: E1),
          (E2 ++ C1), (C2' ++ Y1).
        rewrite HS. cbn [Nat.add]. cbn [app].
        repeat (rewrite <- app_assoc; cbn [app]).
        reflexivity.
  - intros t a b Hin. apply in_app_or in Hin as [Hin|Hin].
    + apply Hbelow in Hin. lia.
    + destruct (asset_shape_builts _ _ _ _ _ _ _ Hshape Hin)
        as (_ & _ & _ & -> & _). lia.
Qed.

Lemma asset_blocks_ordered (k : nat) (evs : list Event) :
  asset_blocks k evs ->
  forall evs0,
    creation_precedes_transfer evs0 ->
    builts_below k evs0 ->
    creation_precedes_transfer (evs0 ++ evs).
Proof.
  induction 1 as [k|k S S2 block rest Hshape _ IH]; intros evs0 Hord Hbelow.
  - now rewrite app_nil_r.
  - rewrite app_assoc.
    destruct (asset_shape_ordered _ _ _ _ _ Hshape Hord Hbelow)
      as [Hord' Hbelow'].
    now apply IH.
Qed.

Lemma asset_blocks_precede (k : nat) (evs : list Event) :
  asset_blocks k evs -> creation_precedes_transfer evs.
Proof.
  intros H. apply (asset_blocks_ordered k evs H []).
  - intros pre t j sig post Heq. destruct pre; discriminate.
  - intros t nA nT [].
Qed.

Lemma asset_blocks_signatures_app (block rest : list Event)
    (base S S2 rest_sigs : list Signature) (t : nat) :
  asset_shape t S S2 block ->
  rest_sigs = (base ++ S ++ S2) ++ sent_signatures rest ->
  rest_sigs = base ++ sent_signatures (block ++ rest).
Proof.
  intros Hshape ->.
  rewrite sent_signatures_app, (asset_shape_signatures _ _ _ _ Hshape).
  now rewrite <- !app_assoc.
Qed.

(** ** The runs of the two handlers *)

Lemma token_loop_emits (w : World) (pk : PublicKey)
    (validRecipients : list Recipient) (n : nat)
    (tokens : list TokenAccount) :
  forall k st,
    Emits (foldM (multi_send_token w pk validRecipients n)
                 (combine (seq k (List.length tokens)) tokens) st)
          (run_outcome allSignatures (allSignatures st) k).
Proof.
  induction tokens as [|token tokens IH]; intros k st.
  - apply Emits_ret. split; [constructor|].
    intros r Hr. inversion Hr. cbn. now rewrite app_nil_r.
  - cbn [List.length seq combine foldM].
    eapply Emits_bind; [apply multi_send_token_emits | |].
    + intros e evs1 [(-> & _)|(S & S2 & Hshape & _)].
      * split; [constructor | discriminate].
      * split; [|discriminate].
        rewrite <- (app_nil_r evs1). econstructor; [exact Hshape | constructor].
    + intros st1 evs1 [(_ & e & He)|(S & S2 & Hshape & Hsigs)];
        [discriminate|].
      specialize (Hsigs st1 eq_refl).
      eapply Emits_conseq; [apply IH|].
      intros o evs2 [Hblocks Hrest]. split.
      * econstructor; eassumption.
      * intros r Hr. apply (asset_blocks_signatures_app _ _ _ _ _ _ _ Hshape).
        rewrite <- Hsigs. now apply Hrest.
Qed.

Lemma handleMultiTokenSend_try_emits (w : World) (pk : PublicKey)
    (d : Dashboard) :
  Emits (handleMultiTokenSend_try w pk d)
        (run_outcome (fun r => allSignatures (fst (fst r))) [] 0).
Proof.
  unfold handleMultiTokenSend_try.
  match goal with |- Emits (match ?l with _ => _ end) _ => destruct l end.
  { apply Emits_throw. split; [constructor | discriminate]. }
  match goal with |- Emits (match ?l with _ => _ end) _ =>
    destruct l eqn:E end.
  { apply Emits_throw. split; [constructor | discriminate]. }
  rewrite <- E. clear E. quiet_step.
  eapply Emits_bind; [apply token_loop_emits | |].
  - intros e evs1 [H _]. split; [exact H | discriminate].
  - intros st evs1 [Hblocks Hsigs]. apply Emits_ret. rewrite app_nil_r.
    split; [exact Hblocks|]. intros res Hres. inversion Hres. cbn.
    exact (Hsigs st eq_refl).
Qed.

Lemma handleSend_try_run (w : World) (pk : PublicKey) (d : Dashboard) :
  Emits (handleSend_try w pk d) (run_outcome (fun r => fst (fst r)) [] 0).
Proof.
  eapply Emits_conseq; [apply handleSend_try_emits|].
  intros o evs [(-> & e & ->)|(S & S2 & Hshape & Hsigs)].
  - split; [constructor | discriminate].
  - split.
    + rewrite <- (app_nil_r evs). econstructor; [exact Hshape | constructor].
    + intros r Hr. rewrite (Hsigs r Hr).
      now rewrite (asset_shape_signatures _ _ _ _ Hshape).
Qed.

Lemma handleMultiTokenSend_end (w : World) (m : Machine) (pk : PublicKey) :
  publicKey (dash m) = Some pk ->
  run_end m (run_handleMultiTokenSend w m).
Proof.
  intros Hpk. unfold run_handleMultiTokenSend, handleMultiTokenSend.
  rewrite Hpk.
  cbv [bind try_catch setStatus setStatusMsg setTxSigs ret].
  cbn [fst snd].
  match goal with
  | |- context [handleMultiTokenSend_try w pk (dash m) ?mp] =>
      pose proof (handleMultiTokenSend_try_emits w pk (dash m) mp)
        as (evs & Hlog & Hblocks & Hsigs);
      pose proof (handleMultiTokenSend_try_reported w pk (dash m) mp) as Hrep;
      destruct (handleMultiTokenSend_try w pk (dash m) mp) as [[r|e] m1]
  end; cbn in *.
  - destruct r as [[st tokens] recipients]. cbn.
    exists evs. split; [exact Hlog|].
    split; [eapply asset_blocks_precede; exact Hblocks|].
    left. split; [reflexivity|]. exact (Hsigs _ eq_refl).
  - exists evs. split; [exact Hlog|].
    split; [eapply asset_blocks_precede; exact Hblocks|].
    right. split; [reflexivity | exact Hrep].
Qed.

Lemma handleSend_single_end (w : World) (m : Machine) (pk : PublicKey)
    (finish : list Signature * nat * AtaStats -> StatusMsg)
    (failed : JsError -> StatusMsg) :
  run_end m
    (snd ((setStatus VALIDATING ;;;
           setStatusMsg MsgValidating ;;;
           setTxSigs [] ;;;
           try_catch
             (r <- handleSend_try w pk (dash m) ;;
              let '(signatures, recipients, stats) := r in
              setTxSigs signatures ;;;
              setStatus SUCCESS ;;;
              setStatusMsg (finish (signatures, recipients, stats)))
             (fun err => setStatus ERROR ;;; setStatusMsg (failed err)))
            m)).
Proof.
  cbv [bind try_catch setStatus setStatusMsg setTxSigs ret].
  cbn [fst snd].
  match goal with
  | |- context [handleSend_try w pk (dash m) ?mp] =>
      pose proof (handleSend_try_run w pk (dash m) mp)
        as (evs & Hlog & Hblocks & Hsigs);
      pose proof (handleSend_try_reported w pk (dash m) mp) as Hrep;
      destruct (handleSend_try w pk (dash m) mp) as [[r|e] m1]
  end; cbn in *.
  - destruct r as [[sigs recipients] stats]. cbn.
    exists evs. split; [exact Hlog|].
    split; [eapply asset_blocks_precede; exact Hblocks|].
    left. split; [reflexivity|]. exact (Hsigs _ eq_refl).
  - exists evs. split; [exact Hlog|].
    split; [eapply asset_blocks_precede; exact Hblocks|].
    right. split; [reflexivity | exact Hrep].
Qed.

Lemma handleSend_end (w : World) (m : Machine) (pk : PublicKey) :
  publicKey (dash m) = Some pk ->
  run_end m (run_handleSend w m).
Proof.
  intros Hpk. unfold run_handleSend, handleSend. rewrite Hpk.
  destruct (tokenType (dash m)) eqn:Htype.
  - apply (handleSend_single_end w m pk
             (fun r => MsgSent (snd (fst r)) (toCreate (snd r))
                         (existing (snd r)))).
  - apply (handleSend_single_end w m pk
             (fun r => MsgSent (snd (fst r)) (toCreate (snd r))
                         (existing (snd r)))).
  - apply (handleMultiTokenSend_end w m pk Hpk).
Qed.

(** C3 as amended. A run with a connected wallet ends in SUCCESS or in
    ERROR.  When it ends in ERROR the reported signature list is empty: the
    list is cleared when the run starts and is set again only together with
    SUCCESS.  When it ends in SUCCESS the reported list holds the signatures
    of all the submissions of the run, in the order of submission. *)
Theorem signatures_reported_with_success_only (w : World) (m m' : Machine)
    (pk : PublicKey) :
  publicKey (dash m) = Some pk ->
  m' = run_handleSend w m \/ m' = run_handleMultiTokenSend w m ->
  exists evs,
    log m' = log m ++ evs /\
    ((status (dash m') = SUCCESS /\ txSigs (dash m') = sent_signatures evs) \/
     (status (dash m') = ERROR /\ txSigs (dash m') = [])).
Proof.
  intros Hpk [-> | ->].
  - destruct (handleSend_end w m pk Hpk) as (evs & Hlog & _ & H).
    now exists evs.
  - destruct (handleMultiTokenSend_end w m pk Hpk) as (evs & Hlog & _ & H).
    now exists evs.
Qed.

(** The theorem at a token send whose creation batch is accepted and whose
    transfer batch the wallet rejects. *)
Lemma signatures_reported_with_success_only_witness :
  let W := sample_world no_accounts always_confirmed wallet_rejects in
  let m := sample_machine (sample_dashboard SPL [alice] []) in
  exists evs,
    log (run_handleSend W m) = log m ++ evs /\
    ((status (dash (run_handleSend W m)) = SUCCESS /\
      txSigs (dash (run_handleSend W m)) = sent_signatures evs) \/
     (status (dash (run_handleSend W m)) = ERROR /\
      txSigs (dash (run_handleSend W m)) = [])).
Proof.
  intros W m.
  apply (signatures_reported_with_success_only W m (run_handleSend W m) 1%N);
    [reflexivity | left; reflexivity].
Defined.

(** C3 as stated fails: in a multi-asset run the first asset is sent and
    confirmed, the creation batch of the second is sent and confirmed, and
    the wallet rejects the transfer of the second; the run ends in ERROR and
    none of the three signatures is reported. *)
Lemma error_hides_signatures :
  ~ (forall w m evs,
        log (run_handleSend w m) = log m ++ evs ->
        status (dash (run_handleSend w m)) = ERROR ->
        incl (sent_signatures evs) (txSigs (dash (run_handleSend w m)))).
Proof.
  intros H.
  specialize (H (sample_world no_accounts always_confirmed
                   (wallet_fails_from 10))
                (sample_machine
                   (sample_dashboard MULTI [alice]
                      [sample_token "USDC" "1.5"; sample_token "BONK" "2"]))
                [ EvBuilt 0 1 1; EvSent 0 Creation 0 (js "3");
                  EvConfirmed (js "3") {| success := true; error := None |};
                  EvSent 0 Transfer 0 (js "7");
                  EvConfirmed (js "7") {| success := true; error := None |};
                  EvBuilt 1 1 1; EvSent 1 Creation 0 (js "13");
                  EvConfirmed (js "13") {| success := true; error := None |} ]).
  assert (Hin : In (js "3")
                   (txSigs (dash (run_handleSend
                      (sample_world no_accounts always_confirmed
                         (wallet_fails_from 10))
                      (sample_machine
                         (sample_dashboard MULTI [alice]
                            [sample_token "USDC" "1.5";
                             sample_token "BONK" "2"])))))).
  { apply H; [vm_compute; reflexivity | vm_compute; reflexivity |].
    vm_compute. now left. }
  vm_compute in Hin. exact Hin.
Qed.

(** ** Creation batches *)

Lemma for_step_commute {S T} (h : S -> T) (n : nat) (step : positive)
    (body : nat -> S -> S) (body' : nat -> T -> T) :
  (forall i s, h (body i s) = body' i (h s)) ->
  forall i s, h (for_step n step body i s) = for_step n step body' i (h s).
Proof.
  intros Hstep i.
  remember (n - i) as k eqn:Hk.
  revert i Hk. induction k as [k IH] using lt_wf_ind.
  intros i Hk s.
  rewrite (for_step_test n step body i s),
    (for_step_test n step body' i (h s)).
  destruct (i <? n) eqn:Hlt; [|reflexivity].
  apply Nat.ltb_lt in Hlt. pose proof (Pos2Nat.is_pos step).
  rewrite (IH (n - (i + Pos.to_nat step))); [|lia|reflexivity].
  now rewrite Hstep.
Qed.

Lemma build_ata_txs_chunks (sender programId : PublicKey)
    (work : list AtaWork) :
  build_ata_txs sender programId work
  = map (build_ata_tx sender programId) (chunk work 2).
Proof.
  unfold build_ata_txs, chunk. symmetry.
  apply (for_step_commute (map (build_ata_tx sender programId))).
  intros i chunks. now rewrite map_app.
Qed.

Lemma build_ata_tx_instructions (sender programId : PublicKey)
    (ataChunk : list AtaWork) :
  List.length (instructions (build_ata_tx sender programId ataChunk))
  = List.length ataChunk.
Proof.
  unfold build_ata_tx.
  assert (H : forall tx,
             List.length
               (instructions
                  (fold_left
                     (fun ataTx a =>
                        tx_add ataTx
                          (CreateAssociatedTokenAccount sender (work_ata a)
                             (work_recipient a) (work_mint a) programId))
                     ataChunk tx))
             = List.length (instructions tx) + List.length ataChunk).
  { induction ataChunk as [|a l IH]; intros tx; cbn [fold_left].
    - cbn. lia.
    - rewrite IH. cbn. rewrite length_app. cbn. lia. }
  now rewrite H.
Qed.

(** The creation transactions are the creation work cut in chunks of two. *)
Lemma build_ata_txs_sizes (sender programId : PublicKey)
    (work : list AtaWork) :
  Forall (fun tx => 1 <= List.length (instructions tx) <= 2)
         (build_ata_txs sender programId work) /\
  List.length (concat (map instructions
                         (build_ata_txs sender programId work)))
  = List.length work.
Proof.
  rewrite build_ata_txs_chunks.
  destruct (chunk_spec work 2) as (_ & Hsizes & Hconcat).
  split.
  - apply Forall_map. eapply Forall_impl; [|exact Hsizes].
    intros c Hc. now rewrite build_ata_tx_instructions.
  - rewrite <- Hconcat at 2. clear.
    induction (chunk work 2) as [|c l IH]; [reflexivity|].
    cbn. rewrite !length_app, IH, build_ata_tx_instructions. reflexivity.
Qed.

Lemma build_creation_batches (w : World) (sender : PublicKey)
    (recipients : list Recipient) (tokenMint : jsstring) (decimals : nat)
    (programId : PublicKey) (m m' : Machine) (built : BuildResult) :
  buildMultiSendTransaction w sender recipients tokenMint decimals programId m
  = (Returned built, m') ->
  Forall (fun tx => 1 <= List.length (instructions tx) <= 2) (ataTxs built) /\
  List.length (concat (map instructions (ataTxs built)))
  = toCreate (ataStats built).
Proof.
  unfold buildMultiSendTransaction. intros H.
  apply bind_returned in H as ([stats txs] & m1 & Hres & H).
  apply bind_returned in H as (transfers & m2 & _ & H).
  inversion H; subst built; clear H. cbn [ataTxs ataStats fst snd].
  destruct (jsstring_eqb tokenMint SOL_MINT).
  - inversion Hres; subst. split; [constructor | reflexivity].
  - apply bind_returned in Hres as (mintKey & m3 & _ & Hres).
    apply bind_returned in Hres as ([stats' work] & m4 & Hr & Hres).
    inversion Hres; subst; clear Hres. cbn [fst snd].
    apply resolve_atas_returned in Hr as (looked & _ & _ & Ht & Hw).
    assert (Hlen : toCreate stats = List.length work).
    { rewrite Ht, Hw. now rewrite length_map. }
    destruct work as [|a work']; [split; [constructor | now rewrite Hlen]|].
    rewrite Hlen. apply build_ata_txs_sizes.
Qed.

(** C5. The creation work of an asset is cut into creation transactions of
    at least one and at most two creation instructions each, which together
    hold one instruction for each account to create.  In the record of every
    run of either handler, when a transfer batch of an asset is submitted the
    build of that asset is recorded, and every creation batch the build
    planned has been submitted and the confirmation watcher has then been
    awaited on the signature that submission returned. *)
Theorem creation_batches_precede_transfers (w : World) :
  (forall sender recipients tokenMint decimals programId m,
      match fst (buildMultiSendTransaction w sender recipients tokenMint
                   decimals programId m) with
      | Returned built =>
          Forall (fun tx => 1 <= List.length (instructions tx) <= 2)
                 (ataTxs built) /\
          List.length (concat (map instructions (ataTxs built)))
          = toCreate (ataStats built)
      | Thrown _ => True
      end) /\
  (forall m, exists evs,
      log (run_handleSend w m) = log m ++ evs /\
      creation_precedes_transfer evs) /\
  (forall m, exists evs,
      log (run_handleMultiTokenSend w m) = log m ++ evs /\
      creation_precedes_transfer evs).
Proof.
  assert (Hnil : creation_precedes_transfer []).
  { intros pre t j sig post Heq. destruct pre; discriminate. }
  split; [|split].
  - intros sender recipients tokenMint decimals programId m.
    destruct (buildMultiSendTransaction w sender recipients tokenMint
                decimals programId m) as [[built|e] m'] eqn:E; [|exact I].
    eapply build_creation_batches; exact E.
  - intros m. destruct (publicKey (dash m)) as [pk|] eqn:Hpk.
    + destruct (handleSend_end w m pk Hpk) as (evs & Hlog & Hord & _).
      now exists evs.
    + exists []. unfold run_handleSend, handleSend. rewrite Hpk. cbn.
      now rewrite app_nil_r.
  - intros m. destruct (publicKey (dash m)) as [pk|] eqn:Hpk.
    + destruct (handleMultiTokenSend_end w m pk Hpk) as (evs & Hlog & Hord & _).
      now exists evs.
    + exists []. unfold run_handleMultiTokenSend, handleMultiTokenSend.
      rewrite Hpk. cbn. now rewrite app_nil_r.
Qed.

(** ** Binary64 arithmetic: mantissas and shifts *)

Lemma fexp_binary64 (e : Z) : fexp 53 1024 e = Z.max (e - 53) (-1074).
Proof. reflexivity. Qed.

Lemma digits2_pos_bounds (p : positive) :
  (2 ^ (Zpos (digits2_pos p) - 1) <= Zpos p < 2 ^ Zpos (digits2_pos p))%Z.
Proof.
  induction p as [p IH|p IH|]; cbn [digits2_pos].
  - rewrite Pos2Z.inj_succ, Z.pow_succ_r by lia.
    replace (Z.succ (Zpos (digits2_pos p)) - 1)%Z
      with (Z.succ (Zpos (digits2_pos p) - 1)) by lia.
    rewrite Z.pow_succ_r by lia. lia.
  - rewrite Pos2Z.inj_succ, Z.pow_succ_r by lia.
    replace (Z.succ (Zpos (digits2_pos p)) - 1)%Z
      with (Z.succ (Zpos (digits2_pos p) - 1)) by lia.
    rewrite Z.pow_succ_r by lia. lia.
  - cbn. lia.
Qed.

Lemma digits_le_53 (p : positive) :
  (Zpos (digits2_pos p) <= 53)%Z <-> (Zpos p < 2 ^ 53)%Z.
Proof.
  pose proof (digits2_pos_bounds p) as [Hlo Hhi]. split; intros H.
  - eapply Z.lt_le_trans; [exact Hhi|]. apply Z.pow_le_mono_r; lia.
  - destruct (Z_le_gt_dec (Zpos (digits2_pos p)) 53) as [?|Hgt]; [assumption|].
    exfalso.
    assert (2 ^ 53 <= 2 ^ (Zpos (digits2_pos p) - 1))%Z
      by (apply Z.pow_le_mono_r; lia).
    lia.
Qed.

Lemma Zdigits2_nonneg (m : Z) : (0 <= Zdigits2 m)%Z.
Proof. destruct m; cbn; lia. Qed.

Lemma Zdigits2_pos (m : Z) : (0 < m)%Z -> (0 < Zdigits2 m)%Z.
Proof. destruct m; cbn; lia. Qed.

Lemma Zdigits2_zero (m : Z) : (0 <= m)%Z -> Zdigits2 m = 0%Z -> m = 0%Z.
Proof. destruct m; cbn; lia. Qed.

Lemma shr_1_spec (mrs : shr_record) :
  (0 <= shr_m mrs)%Z ->
  (0 <= shr_m (shr_1 mrs))%Z /\
  Zdigits2 (shr_m (shr_1 mrs)) = Z.max 0 (Zdigits2 (shr_m mrs) - 1).
Proof.
  destruct mrs as [m r s]. cbn [shr_m]. intros Hm.
  destruct m as [|p|p]; [cbn; lia | | lia].
  destruct p as [p|p|]; cbn [shr_1 shr_m Zdigits2 digits2_pos];
    rewrite ?Pos2Z.inj_succ; lia.
Qed.

Lemma iter_shr_1_spec (p : positive) :
  forall mrs,
    (0 <= shr_m mrs)%Z ->
    (0 <= shr_m (iter_pos shr_1 p mrs))%Z /\
    Zdigits2 (shr_m (iter_pos shr_1 p mrs))
    = Z.max 0 (Zdigits2 (shr_m mrs) - Zpos p).
Proof.
  induction p as [p IH|p IH|]; intros mrs Hm; cbn [iter_pos].
  - destruct (shr_1_spec mrs Hm) as [H1 D1].
    destruct (IH _ H1) as [H2 D2]. destruct (IH _ H2) as [H3 D3].
    split; [exact H3|]. rewrite D3, D2, D1. lia.
  - destruct (IH _ Hm) as [H2 D2]. destruct (IH _ H2) as [H3 D3].
    split; [exact H3|]. rewrite D3, D2. lia.
  - apply shr_1_spec. exact Hm.
Qed.

Lemma shr_record_of_loc_m (m : Z) (l : location) :
  shr_m (shr_record_of_loc m l) = m.
Proof. destruct l as [|[]]; reflexivity. Qed.

(** The shift to the canonical exponent: the mantissa stays non-negative,
    loses as many digits as the exponent gains, and fits in 53 bits. *)
Lemma shr_fexp_spec (m e : Z) (l : location) :
  (0 <= m)%Z ->
  let shift := Z.max 0 (fexp 53 1024 (Zdigits2 m + e) - e) in
  (0 <= shr_m (fst (shr_fexp 53 1024 m e l)))%Z /\
  Zdigits2 (shr_m (fst (shr_fexp 53 1024 m e l)))
  = Z.max 0 (Zdigits2 m - shift) /\
  snd (shr_fexp 53 1024 m e l) = (e + shift)%Z.
Proof.
  intros Hm shift. unfold shr_fexp, shr. subst shift.
  pose proof (Zdigits2_nonneg m).
  destruct (fexp 53 1024 (Zdigits2 m + e) - e)%Z as [|p|p] eqn:Hn;
    cbn [fst snd]; rewrite ?shr_record_of_loc_m.
  - repeat split; lia.
  - destruct (iter_shr_1_spec p (shr_record_of_loc m l)) as [H1 D1];
      [now rewrite shr_record_of_loc_m|].
    rewrite shr_record_of_loc_m in D1. repeat split; lia.
  - repeat split; lia.
Qed.

Lemma shr_fexp_53 (m e : Z) (l : location) :
  (0 <= m)%Z ->
  (Zdigits2 (shr_m (fst (shr_fexp 53 1024 m e l))) <= 53)%Z.
Proof.
  intros Hm. destruct (shr_fexp_spec m e l Hm) as (_ & D & _).
  rewrite D, fexp_binary64. pose proof (Zdigits2_nonneg m). lia.
Qed.

Lemma round_nearest_even_bounds (m : Z) (l : location) :
  (m <= round_nearest_even m l <= m + 1)%Z.
Proof.
  destruct l as [|[]]; cbn; try lia. destruct (Z.even m); lia.
Qed.

(** Rounding a non-negative mantissa gives a zero, an infinity, or a finite
    number of at most 53 bits, with the sign given. *)
Lemma binary_round_aux_cases (s : bool) (m e : Z) (l : location) :
  (0 <= m)%Z ->
  rounded s (binary_round_aux 53 1024 s m e l).
Proof.
  intros Hm. unfold binary_round_aux.
  destruct (shr_fexp 53 1024 m e l) as [mrs1 e1] eqn:E1.
  pose proof (shr_fexp_spec m e l Hm) as (H1 & _). rewrite E1 in H1.
  cbn [fst] in H1.
  pose proof (round_nearest_even_bounds (shr_m mrs1)
                (loc_of_shr_record mrs1)) as Hr.
  set (m2 := round_nearest_even (shr_m mrs1) (loc_of_shr_record mrs1)) in *.
  assert (Hm2 : (0 <= m2)%Z) by lia.
  pose proof (shr_fexp_spec m2 e1 loc_Exact Hm2) as (H3 & _).
  pose proof (shr_fexp_53 m2 e1 loc_Exact Hm2) as D3.
  destruct (shr_fexp 53 1024 m2 e1 loc_Exact) as [mrs3 e3].
  cbn [fst] in *. unfold rounded.
  destruct (shr_m mrs3) as [|p|p]; [reflexivity | | lia].
  destruct (e3 <=? 1024 - 53)%Z; [|reflexivity].
  split; [reflexivity | exact D3].
Qed.

(** Above the least exponent a positive mantissa does not round to zero. *)
Lemma binary_round_aux_positive (s : bool) (p : positive) (e : Z)
    (l : location) :
  (-1074 <= e)%Z ->
  binary_round_aux 53 1024 s (Zpos p) e l <> S754_zero s.
Proof.
  intros He. unfold binary_round_aux.
  destruct (shr_fexp 53 1024 (Zpos p) e l) as [mrs1 e1] eqn:E1.
  pose proof (shr_fexp_spec (Zpos p) e l ltac:(lia)) as (H1 & D1 & X1).
  rewrite E1 in H1, D1, X1. cbn [fst snd] in *.
  rewrite fexp_binary64 in D1, X1. cbn [Zdigits2] in D1, X1.
  assert (Hm1 : (0 < shr_m mrs1)%Z).
  { destruct (Z.eq_dec (shr_m mrs1) 0) as [E|]; [|lia].
    rewrite E in D1. cbn [Zdigits2] in D1. lia. }
  pose proof (round_nearest_even_bounds (shr_m mrs1)
                (loc_of_shr_record mrs1)) as Hr.
  set (m2 := round_nearest_even (shr_m mrs1) (loc_of_shr_record mrs1)) in *.
  pose proof (shr_fexp_spec m2 e1 loc_Exact ltac:(lia)) as (H3 & D3 & _).
  destruct (shr_fexp 53 1024 m2 e1 loc_Exact) as [mrs3 e3].
  cbn [fst] in *. rewrite fexp_binary64 in D3.
  assert (Hd2 : (0 < Zdigits2 m2)%Z) by (apply Zdigits2_pos; lia).
  destruct (shr_m mrs3) as [|q|q]; [cbn in D3; lia | | lia].
  destruct (e3 <=? 1024 - 53)%Z; discriminate.
Qed.

(** ** Integers as numbers *)

Lemma iter_xO_spec (p q : positive) :
  Zpos (Pos.iter xO p q) = (Zpos p * 2 ^ Zpos q)%Z /\
  Zpos (digits2_pos (Pos.iter xO p q))
  = (Zpos (digits2_pos p) + Zpos q)%Z.
Proof.
  induction q as [|q [IHv IHd]] using Pos.peano_ind.
  - cbn [Pos.iter digits2_pos]. rewrite Pos2Z.inj_succ. split; lia.
  - rewrite Pos.iter_succ. cbn [digits2_pos].
    rewrite !Pos2Z.inj_succ, Z.pow_succ_r by lia.
    rewrite Pos2Z.inj_xO. split; lia.
Qed.

(** A mantissa of exactly 53 bits at an exponent in range is its own
    rounding. *)
Lemma binary_round_aux_exact (s : bool) (mz : positive) (ez : Z) :
  Zpos (digits2_pos mz) = 53%Z ->
  (-1074 <= ez <= 971)%Z ->
  binary_round_aux 53 1024 s (Zpos mz) ez loc_Exact = S754_finite s mz ez.
Proof.
  intros Hd He.
  assert (Hf : (fexp 53 1024 (Zdigits2 (Zpos mz) + ez) - ez = 0)%Z).
  { rewrite fexp_binary64. cbn [Zdigits2]. lia. }
  unfold binary_round_aux, shr_fexp. rewrite Hf.
  cbn [shr shr_record_of_loc shr_m loc_of_shr_record round_nearest_even].
  rewrite Hf. cbn [shr shr_record_of_loc shr_m].
  replace (ez <=? 1024 - 53)%Z with true; [reflexivity|].
  symmetry. apply Z.leb_le. lia.
Qed.

(** The number made from a non-zero integer below [2^53] is that integer. *)
Lemma binary_round_integer (s : bool) (p : positive) :
  (Zpos p < 2 ^ 53)%Z ->
  exists mz ez,
    binary_round 53 1024 s p 0 = S754_finite s mz ez /\
    (-52 <= ez <= 0)%Z /\
    Zpos mz = (Zpos p * 2 ^ (- ez))%Z.
Proof.
  intros Hp. apply digits_le_53 in Hp.
  unfold binary_round, shl_align. rewrite fexp_binary64.
  pose proof (Pos2Z.is_pos (digits2_pos p)) as Hpos.
  destruct (Z.max (Zpos (digits2_pos p) + 0 - 53) (-1074) - 0)%Z
    as [|q|q] eqn:Hq.
  - exists p, 0%Z. rewrite binary_round_aux_exact by lia.
    repeat split; lia.
  - lia.
  - destruct (iter_xO_spec p q) as [Hv Hdig].
    exists (Pos.iter xO p q), (Z.max (Zpos (digits2_pos p) + 0 - 53) (-1074)).
    rewrite binary_round_aux_exact by lia.
    split; [reflexivity|]. split; [lia|].
    rewrite Hv. f_equal. f_equal. lia.
Qed.

Lemma BigInt_binary_round (s : bool) (p : positive) :
  (Zpos p < 2 ^ 53)%Z ->
  BigInt (binary_round 53 1024 s p 0)
  = Some (if s then Zneg p else Zpos p).
Proof.
  intros Hp. destruct (binary_round_integer s p Hp) as (mz & ez & -> & He & Hv).
  unfold BigInt. destruct (0 <=? ez)%Z eqn:E0.
  - apply Z.leb_le in E0. assert (ez = 0%Z) as -> by lia.
    cbn in Hv. f_equal. destruct s; lia.
  - assert (Hpow : (0 < 2 ^ (- ez))%Z) by (apply Z.pow_pos_nonneg; lia).
    rewrite Hv, Z.mod_mul by lia. cbn [Z.eqb]. f_equal.
    destruct s.
    + change (Zneg mz) with (- Zpos mz)%Z. rewrite Hv.
      rewrite <- Z.mul_opp_l, Z.div_mul by lia. reflexivity.
    + rewrite Z.div_mul by lia. reflexivity.
Qed.

Lemma BigInt_binary_normalize (n : Z) :
  (- 2 ^ 53 < n < 2 ^ 53)%Z ->
  BigInt (binary_normalize 53 1024 n 0 false) = Some n.
Proof.
  intros Hn. destruct n as [|p|p]; [reflexivity | |].
  - apply (BigInt_binary_round false). lia.
  - apply (BigInt_binary_round true). lia.
Qed.

(** ** Rounding half up *)

(** [round_half_up v e] is the integer [n] with [n - 1/2 <= v * 2^e < n +
    1/2]. *)
Lemma round_half_up_spec (v e : Z) :
  (e < 0)%Z ->
  let n := round_half_up v e in
  ((2 * n - 1) * 2 ^ (- e) <= 2 * v < (2 * n + 1) * 2 ^ (- e))%Z.
Proof.
  intros He n. subst n. unfold round_half_up.
  assert (Hpow : (0 < 2 ^ (- e))%Z) by (apply Z.pow_pos_nonneg; lia).
  pose proof (Z.div_mod (2 * v + 2 ^ (- e)) (2 * 2 ^ (- e)) ltac:(lia)) as Hdm.
  pose proof (Z.mod_pos_bound (2 * v + 2 ^ (- e)) (2 * 2 ^ (- e)) ltac:(lia)).
  nia.
Qed.

Lemma round_half_up_small (v e : Z) :
  (e < 0)%Z -> (- 2 ^ 53 < v < 2 ^ 53)%Z ->
  (- 2 ^ 53 < round_half_up v e < 2 ^ 53)%Z.
Proof.
  intros He Hv.
  pose proof (round_half_up_spec v e He) as H. cbv zeta in H.
  assert (Hpow : (2 <= 2 ^ (- e))%Z).
  { change 2%Z with (2 ^ 1)%Z at 1. apply Z.pow_le_mono_r; lia. }
  set (D := (2 ^ (- e))%Z) in *. set (n := round_half_up v e) in *.
  split; nia.
Qed.

(** [BigInt(Math.round(x))] of a finite number of at most 53 bits is its
    rounding half up. *)
Lemma BigInt_Math_round (s : bool) (m : positive) (e : Z) :
  (Zpos (digits2_pos m) <= 53)%Z ->
  BigInt (Math_round (S754_finite s m e)) = Some (rounded_integer s m e).
Proof.
  intros Hm. unfold Math_round, rounded_integer.
  destruct (0 <=? e)%Z eqn:He.
  - unfold BigInt. now rewrite He.
  - apply Z.leb_gt in He. apply digits_le_53 in Hm.
    pose proof (round_half_up_small (if s then Zneg m else Zpos m) e He
                  ltac:(destruct s; lia)) as Hn.
    destruct (round_half_up (if s then Zneg m else Zpos m) e) as [|n|n] eqn:E;
      [reflexivity | |]; rewrite <- E in *;
      now apply BigInt_binary_normalize.
Qed.

(** ** The amount conversion *)

Lemma number_mul_fits (x y : number) : fits_53 (number_mul x y).
Proof.
  destruct x as [sx|sx| |sx mx ex], y as [sy|sy| |sy my ey]; cbn; trivial.
  pose proof (binary_round_aux_cases (xorb sx sy) (Zpos (mx * my))
                (ex + ey) loc_Exact ltac:(lia)) as H.
  unfold number_mul, SFmul.
  destruct (binary_round_aux 53 1024 (xorb sx sy) (Zpos (mx * my))
              (ex + ey) loc_Exact); cbn in *; tauto.
Qed.

Lemma to_smallest_unit_value (amount : jsstring) (decimals : nat) :
  to_smallest_unit amount decimals
  = match number_mul (parseFloat amount) (Math_pow10 decimals) with
    | S754_zero _ => Some 0%Z
    | S754_finite s m e => Some (rounded_integer s m e)
    | _ => None
    end.
Proof.
  unfold to_smallest_unit.
  pose proof (number_mul_fits (parseFloat amount) (Math_pow10 decimals)) as H.
  destruct (number_mul (parseFloat amount) (Math_pow10 decimals))
    as [s|s| |s m e]; try reflexivity.
  now apply BigInt_Math_round.
Qed.

(** C6 as amended. The conversion returns the integer nearest to the
    binary64 product of the parsed amount and [10^decimals], the larger one
    on a tie (zero for a zero product, a RangeError for [NaN] and the
    infinities): an integral product is returned as it is, and otherwise the
    result [n] satisfies [n - 1/2 <= product < n + 1/2].  It yields
    1_500_000_000 for ["1.5"] at 9 decimals and 1 for ["0.000000001"] at 9
    decimals.  The parse and the product are rounded to binary64, so the
    result is not the exact scaled amount for every amount of the scale. *)
Theorem to_smallest_unit_rounds_half_up :
  (forall amount decimals,
      to_smallest_unit amount decimals
      = match number_mul (parseFloat amount) (Math_pow10 decimals) with
        | S754_zero _ => Some 0%Z
        | S754_finite s m e => Some (rounded_integer s m e)
        | _ => None
        end) /\
  (forall (s : bool) (m : positive) (e : Z),
      let v := if s then Zneg m else Zpos m in
      let n := rounded_integer s m e in
      if (0 <=? e)%Z then n = (v * 2 ^ e)%Z
      else ((2 * n - 1) * 2 ^ (- e) <= 2 * v < (2 * n + 1) * 2 ^ (- e))%Z) /\
  to_smallest_unit (js "1.5") 9 = Some 1500000000%Z /\
  to_smallest_unit (js "0.000000001") 9 = Some 1%Z.
Proof.
  split; [exact to_smallest_unit_value|]. split.
  - intros s m e v n. subst n. unfold rounded_integer.
    destruct (0 <=? e)%Z eqn:He; [reflexivity|].
    apply Z.leb_gt in He. apply (round_half_up_spec v e He).
  - split; vm_compute; reflexivity.
Qed.

(** C6 as stated fails: 9007199.254740993 has nine decimals, and its
    conversion at 9 decimals is not 9007199254740993. *)
Lemma to_smallest_unit_inexact :
  to_smallest_unit (js "9007199.254740993") 9 = Some 9007199254740992%Z /\
  to_smallest_unit (js "9007199.254740993") 9 <> Some 9007199254740993%Z.
Proof. split; [vm_compute; reflexivity | vm_compute; discriminate]. Qed.

Lemma gt_zero_positive (x : number) :
  gt_zero x = true ->
  x = S754_infinity false \/ exists m e, x = S754_finite false m e.
Proof.
  destruct x as [s|[|]| |[|] m e]; cbn; try discriminate; eauto.
Qed.

Lemma Math_pow10_positive (decimals : nat) :
  Math_pow10 decimals = S754_infinity false \/
  exists m e, Math_pow10 decimals = S754_finite false m e.
Proof.
  unfold Math_pow10.
  assert (Hpow : (0 < 10 ^ Z.of_nat decimals)%Z)
    by (apply Z.pow_pos_nonneg; lia).
  destruct (10 ^ Z.of_nat decimals)%Z as [|p|p]; try lia.
  unfold binary_normalize, binary_round.
  destruct (shl_align p 0 (fexp 53 1024 (Zpos (digits2_pos p) + 0)))
    as [mz ez] eqn:E.
  assert (Hez : (-1074 <= ez)%Z).
  { unfold shl_align in E. rewrite fexp_binary64 in E.
    destruct (Z.max (Zpos (digits2_pos p) + 0 - 53) (-1074) - 0)%Z;
      inversion E; lia. }
  pose proof (binary_round_aux_cases false (Zpos mz) ez loc_Exact
                ltac:(lia)) as Hc.
  pose proof (binary_round_aux_positive false mz ez loc_Exact Hez) as Hp.
  destruct (binary_round_aux 53 1024 false (Zpos mz) ez loc_Exact)
    as [s|s| |s m e]; cbn in Hc.
  - subst s. contradiction.
  - subst s. now left.
  - contradiction.
  - destruct Hc as [-> _]. right. eauto.
Qed.

(** The product of a positive amount and the power of ten is a zero, a
    positive finite number, or the positive infinity. *)
Lemma positive_product (x : number) (decimals : nat) :
  gt_zero x = true ->
  rounded false (number_mul x (Math_pow10 decimals)).
Proof.
  intros Hx.
  destruct (gt_zero_positive x Hx) as [->|(mx & ex & ->)];
    destruct (Math_pow10_positive decimals) as [->|(my & ey & ->)];
    try reflexivity.
  unfold number_mul, SFmul.
  exact (binary_round_aux_cases false (Zpos (mx * my)) (ex + ey) loc_Exact
           ltac:(lia)).
Qed.

(** C10 as amended. The conversion throws for every amount that does not
    parse as a number.  The filters of the two handlers establish that a
    dispatched amount parses to a number greater than zero, finite or not:
    the amount the multi-asset send dispatches is the one its check tested.
    For such an amount the conversion throws exactly when the binary64
    product of the parsed amount and [10^decimals] is infinite, and returns
    an integer otherwise.  When the conversion throws, so does the
    instruction builder. *)
Theorem to_smallest_unit_throws :
  (forall amount decimals,
      parseFloat amount = S754_nan ->
      to_smallest_unit amount decimals = None) /\
  (forall amount decimals,
      gt_zero (parseFloat amount) = true ->
      (parseFloat amount = S754_infinity false \/
       exists m e, parseFloat amount = S754_finite false m e) /\
      (to_smallest_unit amount decimals = None <->
       number_mul (parseFloat amount) (Math_pow10 decimals)
       = S754_infinity false)) /\
  (forall t,
      token_selected t = true ->
      exists a, amountToSend t = Some a /\
                or_else a (js "0") = a /\
                gt_zero (parseFloat a) = true) /\
  (forall w sender isSol tokenMint decimals programId tx r m key,
      w_newPublicKey w (address r) = Resolved key ->
      to_smallest_unit (amount r) decimals = None ->
      fst (add_transfer w sender isSol tokenMint decimals programId tx r m)
      = Thrown range_error).
Proof.
  split; [|split; [|split]].
  - intros amount decimals Hnan. unfold to_smallest_unit. rewrite Hnan.
    reflexivity.
  - intros amount decimals Hpos. split; [now apply gt_zero_positive|].
    rewrite to_smallest_unit_value.
    pose proof (positive_product (parseFloat amount) decimals Hpos) as H.
    destruct (number_mul (parseFloat amount) (Math_pow10 decimals))
      as [s|s| |s m e]; cbn in H.
    + split; discriminate.
    + subst s. split; reflexivity.
    + contradiction.
    + split; discriminate.
  - intros t Ht. unfold token_selected in Ht.
    apply andb_prop in Ht as [_ Ht].
    destruct (amountToSend t) as [a|]; [|discriminate].
    apply andb_prop in Ht as [Htruthy Hgt].
    exists a. unfold or_else. rewrite Htruthy. auto.
  - intros w sender isSol tokenMint decimals programId tx r m key Hkey Hnone.
    unfold add_transfer, bind, newPublicKey, sdk. rewrite Hkey, Hnone.
    reflexivity.
Qed.

(** The theorem at the amount ["Infinity"], which passes the filter, and at
    the amount ["abc"], which does not parse. *)
Lemma to_smallest_unit_throws_witness :
  to_smallest_unit (js "abc") 9 = None /\
  (to_smallest_unit (js "Infinity") 9 = None <->
   number_mul (parseFloat (js "Infinity")) (Math_pow10 9)
   = S754_infinity false) /\
  (exists a, amountToSend (sample_token "USDC" "1.5") = Some a /\
             or_else a (js "0") = a /\
             gt_zero (parseFloat a) = true) /\
  fst (add_transfer (sample_world no_accounts always_confirmed wallet_signs)
         1%N true SOL_MINT 9 6%N new_Transaction
         {| address := js "A"; amount := js "Infinity" |}
         (sample_machine (sample_dashboard SOL [] [])))
  = Thrown range_error.
Proof.
  destruct to_smallest_unit_throws as (Hnan & Hpos & Htok & Hthrow).
  split; [apply Hnan; reflexivity|].
  split; [apply (Hpos (js "Infinity") 9); reflexivity|].
  split; [apply Htok; reflexivity|].
  apply (Hthrow _ _ _ _ _ _ _ _ _ 65%N); reflexivity.
Defined.

(** C10 as stated fails: the amount ["Infinity"] passes the filter of
    [handleSend], and its conversion throws. *)
Lemma filter_passes_infinity :
  ~ (forall amount decimals,
        gt_zero (parseFloat amount) = true ->
        to_smallest_unit amount decimals <> None).
Proof.
  intros H. apply (H (js "Infinity") 9); reflexivity.
Qed.

(** ** The stand-alone builder *)

(** The builder of [utils/solanaUtils.ts] on three token recipients without
    account: one transfer transaction, where the creation instruction of
    each recipient comes right before its transfer instruction. *)
Example solanaUtils_creates_in_the_transfer_transaction :
  option_map
    (map (fun tx => map (fun i => match i with
                                  | CreateAssociatedTokenAccount _ ata _ _ _ =>
                                      (true, ata)
                                  | TransferChecked _ _ dest _ _ _ _ =>
                                      (false, dest)
                                  | SystemTransfer _ dest _ => (false, dest)
                                  end) (instructions tx)))
    (match fst (SolanaUtils.buildMultiSendTransaction
                  (sample_world no_accounts always_confirmed wallet_signs)
                  1%N [alice; bob; alice] (js "Mint") 6 true
                  (sample_machine (sample_dashboard SPL [] []))) with
     | Returned txs => Some txs
     | Thrown _ => None
     end)
  = Some [[(true, 5046337%N); (false, 5046337%N);
           (true, 5046338%N); (false, 5046338%N);
           (true, 5046337%N); (false, 5046337%N)]].
Proof. vm_compute. reflexivity. Qed.

(** ** The recipients [handleParse] leaves *)

Lemma tokens_well_formed (text : jsstring) :
  Forall (fun t => t <> [] /\ separator_free t) (tokenize text).
Proof. rewrite tokenize_spec. apply spec_tokens_go_tokens. constructor. Qed.

(** Induction on a list read two entries at a time. *)
Lemma two_by_two {A} (P : list A -> Prop) :
  P [] -> (forall a, P [a]) ->
  (forall a b rest, P rest -> P (a :: b :: rest)) ->
  forall l, P l.
Proof.
  intros H0 H1 H2 l.
  enough (H : P l /\ forall a, P (a :: l)) by apply H.
  induction l as [|b l [IHl IHc]]; split; auto.
Qed.

Lemma spec_pairs_well_formed (tokens : list jsstring) :
  Forall (fun t => t <> [] /\ separator_free t) tokens ->
  Forall (fun r => (address r <> [] /\ separator_free (address r)) /\
                   (amount r <> [] /\ separator_free (amount r)))
         (spec_pairs tokens).
Proof.
  assert (Hzero : js "0" <> [] /\ separator_free (js "0")).
  { split; [discriminate|]. repeat constructor. }
  induction tokens as [|a|a b rest IH] using two_by_two;
    intros H; cbn [spec_pairs].
  - constructor.
  - inversion H; subst. repeat constructor; tauto.
  - inversion H as [|? ? Ha H']; subst. inversion H' as [|? ? Hb H'']; subst.
    constructor; [tauto|]. now apply IH.
Qed.

Lemma spec_pairs_length (tokens : list jsstring) :
  List.length (spec_pairs tokens) = (List.length tokens + 1) / 2.
Proof.
  induction tokens as [|a|a b rest IH] using two_by_two;
    cbn [spec_pairs List.length]; try reflexivity.
  rewrite IH.
  replace (S (S (List.length rest)) + 1) with (List.length rest + 1 + 1 * 2)
    by lia.
  rewrite Nat.div_add by lia. lia.
Qed.

Lemma parse_recipients_same (sameAmount text : jsstring) :
  parse_recipients SAME sameAmount text
  = map (fun t => {| address := t; amount := or_else sameAmount (js "0") |})
        (tokenize text).
Proof.
  unfold parse_recipients. apply map_ext_in. intros t Ht.
  pose proof (tokens_well_formed text) as H.
  rewrite Forall_forall in H. destruct (H t Ht) as [_ Hfree].
  now rewrite trim_separator_free.
Qed.

Lemma firstn_slice {A} (l : list A) (n : nat) : slice l 0 n = firstn n l.
Proof. unfold slice. now rewrite Nat.sub_0_r. Qed.

Lemma handleParse_recipients (d : Dashboard) (text : jsstring) :
  parsedRecipients (handleParse d text)
  = firstn MAX_BATCH_SIZE (parse_recipients (mode d) (sameAmount d) text).
Proof.
  unfold handleParse.
  destruct (MAX_BATCH_SIZE <? _) eqn:E; cbn [set_parse parsedRecipients].
  - apply firstn_slice.
  - apply Nat.ltb_ge in E. now rewrite firstn_all2.
Qed.

(** X1. Every recipient [handleParse] leaves has an address that is not
    empty and holds no newline, white space or comma, and an amount that is
    not empty: the common amount, or ["0"] when that is empty, in SAME mode,
    and a text without separator in DIFF mode.  There are never more than
    100 of them. *)
Theorem handleParse_well_formed (d : Dashboard) (text : jsstring) :
  Forall (fun r => address r <> [] /\ separator_free (address r) /\
                   amount r <> [] /\
                   match mode d with
                   | SAME => amount r = or_else (sameAmount d) (js "0")
                   | DIFF => separator_free (amount r)
                   end)
         (parsedRecipients (handleParse d text)) /\
  List.length (parsedRecipients (handleParse d text)) <= MAX_BATCH_SIZE.
Proof.
  rewrite handleParse_recipients. split; [|apply firstn_le_length].
  apply Forall_forall. intros r Hr.
  apply (In_nth_error) in Hr as [k Hk].
  assert (Hin : In r (parse_recipients (mode d) (sameAmount d) text)).
  { apply nth_error_In with k.
    rewrite nth_error_firstn in Hk.
    destruct (k <? MAX_BATCH_SIZE); [exact Hk | discriminate]. }
  clear Hk. pose proof (tokens_well_formed text) as Htok.
  destruct (mode d) eqn:Hmode.
  - rewrite parse_recipients_same in Hin.
    apply in_map_iff in Hin as (t & <- & Ht).
    rewrite Forall_forall in Htok. destruct (Htok t Ht) as [Hne Hfree].
    cbn [address amount]. repeat split; try assumption.
    unfold or_else. destruct (sameAmount d); cbn; discriminate.
  - unfold parse_recipients in Hin. rewrite paired_loop_spec in Hin by exact Htok.
    pose proof (spec_pairs_well_formed _ Htok) as Hwf.
    rewrite Forall_forall in Hwf. specialize (Hwf r Hin). tauto.
Qed.

(** X2. [handleParse] leaves one recipient for each token in SAME mode and
    one for each pair of tokens in DIFF mode, a last token alone counting as
    a pair, up to the cap of 100. *)
Theorem handleParse_count (d : Dashboard) (text : jsstring) :
  List.length (parsedRecipients (handleParse d text))
  = Nat.min MAX_BATCH_SIZE
      (match mode d with
       | SAME => List.length (tokenize text)
       | DIFF => (List.length (tokenize text) + 1) / 2
       end).
Proof.
  rewrite handleParse_recipients, length_firstn. f_equal.
  destruct (mode d).
  - rewrite parse_recipients_same. apply length_map.
  - unfold parse_recipients.
    rewrite paired_loop_spec by apply tokens_well_formed.
    apply spec_pairs_length.
Qed.

Lemma tokenize_nil (text : jsstring) :
  tokenize text = [] <-> Forall (fun c => is_separator c = true) text.
Proof.
  pose proof (tokens_well_formed text) as Hwf.
  assert (Hc : concat (tokenize text)
               = filter (fun c => negb (is_separator c)) text).
  { rewrite tokenize_spec. apply spec_tokens_go_concat. }
  split.
  - intros H. rewrite H in Hc. cbn in Hc.
    apply Forall_forall. intros c Hin.
    destruct (is_separator c) eqn:E; [reflexivity|].
    assert (Hf : In c (filter (fun c => negb (is_separator c)) text)).
    { apply filter_In. split; [exact Hin | now rewrite E]. }
    rewrite <- Hc in Hf. contradiction.
  - intros H. destruct (tokenize text) as [|t ts] eqn:E; [reflexivity|].
    inversion Hwf as [|? ? [Hne _] _]; subst.
    destruct t as [|c t]; [contradiction|].
    assert (Hf : In c (filter (fun c => negb (is_separator c)) text)).
    { rewrite <- Hc. cbn. now left. }
    apply filter_In in Hf as [Hin Hsep].
    rewrite Forall_forall in H. rewrite (H c Hin) in Hsep. discriminate.
Qed.

(** X3. [handleParse] leaves no recipient exactly when the text holds
    nothing but newlines, white space and commas (the empty text too); the
    status message is then cleared. *)
Theorem handleParse_blank (d : Dashboard) (text : jsstring) :
  (parsedRecipients (handleParse d text) = []
   <-> Forall (fun c => is_separator c = true) text) /\
  (Forall (fun c => is_separator c = true) text ->
   statusMsg (handleParse d text) = MsgEmpty).
Proof.
  assert (Hlen : parsedRecipients (handleParse d text) = []
                 <-> tokenize text = []).
  { rewrite <- !length_zero_iff_nil, handleParse_count.
    unfold MAX_BATCH_SIZE.
    destruct (mode d).
    - lia.
    - split; intros H.
      + destruct (List.length (tokenize text)) as [|n]; [reflexivity|].
        exfalso.
        assert (1 <= (S n + 1) / 2).
        { apply Nat.div_le_lower_bound; lia. }
        lia.
      + rewrite H. reflexivity. }
  split.
  - rewrite Hlen. apply tokenize_nil.
  - intros H. apply tokenize_nil in H.
    unfold handleParse, parse_recipients. rewrite H.
    destruct (mode d); reflexivity.
Qed.

(** The theorem at a text of blanks and commas. *)
Lemma handleParse_blank_witness :
  statusMsg (handleParse (sample_dashboard SOL [alice] []) (js " , ,  "))
  = MsgEmpty.
Proof.
  apply (proj2 (handleParse_blank (sample_dashboard SOL [alice] [])
                  (js " , ,  "))).
  repeat constructor.
Defined.

(** ** The effect of a new common amount *)

(** X4. The effect that follows a change of the common amount or of the
    mode keeps the recipients' addresses, in order.  In SAME mode it gives
    every recipient the common amount as it is; after [handleParse] this
    changes nothing when the common amount is not empty, and it replaces the
    ["0"] of [handleParse] by the empty text when it is.  In DIFF mode it
    does nothing. *)
Theorem sameAmount_effect_spec (d : Dashboard) (text : jsstring) :
  map address (parsedRecipients (sameAmount_effect d))
  = map address (parsedRecipients d) /\
  match mode d with
  | SAME =>
      Forall (fun r => amount r = sameAmount d)
             (parsedRecipients (sameAmount_effect d)) /\
      match sameAmount d with
      | [] =>
          Forall (fun r => amount r = js "0")
                 (parsedRecipients (handleParse d text))
      | _ :: _ => sameAmount_effect (handleParse d text) = handleParse d text
      end
  | DIFF => sameAmount_effect d = d
  end.
Proof.
  split.
  - unfold sameAmount_effect. destruct (mode d); [|reflexivity].
    cbn [set_parsedRecipients parsedRecipients]. rewrite map_map.
    reflexivity.
  - destruct (mode d) eqn:Hmode.
    + split.
      * unfold sameAmount_effect. rewrite Hmode.
        cbn [set_parsedRecipients parsedRecipients].
        apply Forall_forall. intros r Hr.
        apply in_map_iff in Hr as (r0 & <- & _). reflexivity.
      * assert (Hall : Forall (fun r => amount r
                                        = or_else (sameAmount d) (js "0"))
                         (parsedRecipients (handleParse d text))).
        { rewrite handleParse_recipients, Hmode, parse_recipients_same.
          apply Forall_forall. intros r Hr.
          apply (In_nth_error) in Hr as [k Hk].
          rewrite nth_error_firstn in Hk.
          destruct (k <? MAX_BATCH_SIZE); [|discriminate].
          apply nth_error_In in Hk.
          apply in_map_iff in Hk as (t & <- & _). reflexivity. }
        destruct (sameAmount d) as [|c s] eqn:Hs; [exact Hall|].
        unfold sameAmount_effect.
        assert (Hm : mode (handleParse d text) = SAME).
        { unfold handleParse. destruct (_ <? _); exact Hmode. }
        assert (Hsa : sameAmount (handleParse d text) = c :: s).
        { unfold handleParse. destruct (_ <? _); exact Hs. }
        rewrite Hm, Hsa.
        assert (Hid : map (fun r => {| address := address r;
                                       amount := c :: s |})
                          (parsedRecipients (handleParse d text))
                      = parsedRecipients (handleParse d text)).
        { rewrite <- (map_id (parsedRecipients (handleParse d text))) at 2.
          apply map_ext_in. intros r Hr.
          rewrite Forall_forall in Hall. specialize (Hall r Hr).
          cbn in Hall. destruct r as [a b]. cbn in *. now subst b. }
        rewrite Hid. unfold set_parsedRecipients.
        destruct (handleParse d text). reflexivity.
    + unfold sameAmount_effect. now rewrite Hmode.
Qed.

(** ** Amounts that pass the filters *)

Lemma round_half_up_nonneg (v e : Z) :
  (0 <= v)%Z -> (0 <= round_half_up v e)%Z.
Proof.
  intros Hv. unfold round_half_up.
  assert (0 < 2 ^ (- e) \/ 2 ^ (- e) = 0)%Z as [Hp|Hz].
  { destruct (Z_lt_le_dec (- e) 0) as [Hn|Hn].
    - right. now apply Z.pow_neg_r.
    - left. now apply Z.pow_pos_nonneg. }
  - apply Z.div_pos; lia.
  - rewrite Hz. cbn. now rewrite Z.div_0_r.
Qed.

(** X5. An amount that passes the filter of [handleSend] or the check of
    [handleMultiTokenSend] (it parses to a number greater than zero) is never
    converted to a negative number of smallest units, whatever the decimals;
    it can be converted to zero. *)
Theorem to_smallest_unit_nonneg (amount : jsstring) (decimals : nat) :
  gt_zero (parseFloat amount) = true ->
  match to_smallest_unit amount decimals with
  | Some n => (0 <= n)%Z
  | None => True
  end.
Proof.
  intros Hpos. rewrite to_smallest_unit_value.
  pose proof (positive_product (parseFloat amount) decimals Hpos) as H.
  destruct (number_mul (parseFloat amount) (Math_pow10 decimals))
    as [s|s| |s m e]; cbn in H; try exact I.
  - lia.
  - destruct H as [-> _]. unfold rounded_integer.
    destruct (0 <=? e)%Z.
    + apply Z.mul_nonneg_nonneg; [lia|]. apply Z.pow_nonneg. lia.
    + apply round_half_up_nonneg. lia.
Qed.

(** The theorem at an amount below half a lamport, which is sent as 0. *)
Lemma to_smallest_unit_nonneg_witness :
  gt_zero (parseFloat (js "0.0000000004")) = true /\
  to_smallest_unit (js "0.0000000004") 9 = Some 0%Z /\
  match to_smallest_unit (js "0.0000000004") 9 with
  | Some n => (0 <= n)%Z
  | None => True
  end.
Proof.
  split; [reflexivity|]. split; [vm_compute; reflexivity|].
  apply (to_smallest_unit_nonneg (js "0.0000000004") 9). reflexivity.
Defined.

(** ** The fee-payer request *)

(** X6. [requestAlchemyFeePayer] never throws: a rejected request and every
    reply come back as a value.  It makes one request, and it reports success
    only for a reply whose result carried a serialized transaction that is
    not empty, which is the one it returns. *)
Theorem requestAlchemyFeePayer_never_throws (w : World)
    (serializedTransaction : jsstring) (m : Machine) :
  exists r,
    requestAlchemyFeePayer w serializedTransaction m
    = (Returned r, tick w 0 m) /\
    match r with
    | FeePayerOk signed =>
        signed <> [] /\
        w_fetchFeePayer w (steps m) serializedTransaction
        = Resolved (ReplyResult signed)
    | FeePayerFailed error =>
        error <> [] /\
        forall signed,
          w_fetchFeePayer w (steps m) serializedTransaction
          = Resolved (ReplyResult signed) -> signed = []
    end.
Proof.
  unfold requestAlchemyFeePayer, try_catch, bind, request, ret.
  destruct (w_fetchFeePayer w (steps m) serializedTransaction)
    as [[text| |signed]|e] eqn:E.
  - eexists. split; [reflexivity|]. split; [discriminate|]. discriminate.
  - eexists. split; [reflexivity|]. split; [discriminate|]. discriminate.
  - destruct signed as [|c signed]; cbn [truthy].
    + eexists. split; [reflexivity|]. split; [discriminate|].
      intros signed H. now inversion H.
    + eexists. split; [reflexivity|]. split; [discriminate | reflexivity].
  - eexists. split; [reflexivity|]. split; [|discriminate].
    unfold or_else. destruct (message e); cbn; discriminate.
Qed.

(** ** The polls of the watcher *)

Lemma confirm_loop_steps (w : World) (sig commitment : jsstring)
    (start : N) (timeoutMs : Z) (m : Machine) :
  steps (snd (confirm_loop w sig commitment start timeoutMs m))
  <= steps m
     + 2 * Z.to_nat ((Z.of_N start + timeoutMs - Z.of_N (clock m) + 1999)
                     / 2000).
Proof.
  funelim (confirm_loop w sig commitment start timeoutMs m).
  - clear Heq Heqcall. rename H into IH.
    assert (Hone : (1 <= (Z.of_N startTime + timeoutMs - Z.of_N (clock m)
                          + 1999) / 2000)%Z).
    { apply Z.div_le_lower_bound; lia. }
    destruct (fst (poll w signature commitment m)) as [r|] eqn:Hpoll.
    + cbn [fst snd]. rewrite poll_machine. cbn [tick steps]. lia.
    + rewrite poll_machine in *. cbn [tick steps clock] in *.
      etransitivity; [exact IH|].
      assert (Hle : ((Z.of_N startTime + timeoutMs
                      - Z.of_N (clock m + 0 + w_elapsed w (steps m) + 2000
                                + w_elapsed w (S (steps m))) + 1999) / 2000
                     <= (Z.of_N startTime + timeoutMs - Z.of_N (clock m)
                         + 1999) / 2000 - 1)%Z).
      { replace ((Z.of_N startTime + timeoutMs - Z.of_N (clock m) + 1999)
                 / 2000 - 1)%Z
          with ((Z.of_N startTime + timeoutMs - Z.of_N (clock m) + 1999
                 + (-1) * 2000) / 2000)%Z
          by (rewrite Z.div_add by lia; lia).
        apply Z.div_le_mono; lia. }
      lia.
  - cbn [fst snd]. lia.
Qed.

(** X7. [confirmTransactionWithTimeout] asks for the status at most once for
    every 2000 ms of its timeout, rounded up: it ends within two steps (a
    status request and the sleep after it) for each of them, so within 90
    steps and 45 status requests for the 90000 ms the handlers give it.  With
    a timeout that is not positive it returns the timeout value at once,
    without a request. *)
Theorem confirmTransactionWithTimeout_polls (w : World)
    (signature commitment : jsstring) (timeoutMs : Z) (m : Machine) :
  steps (snd (confirmTransactionWithTimeout w signature commitment
                timeoutMs m))
  <= steps m + 2 * Z.to_nat ((timeoutMs + 1999) / 2000) /\
  steps (snd (confirmTransactionWithTimeout w signature (js "confirmed")
                90000 m))
  <= steps m + 90 /\
  ((timeoutMs <= 0)%Z ->
   confirmTransactionWithTimeout w signature commitment timeoutMs m
   = (Returned timeout_result, m)).
Proof.
  assert (Hsteps : forall c t,
             steps (snd (confirmTransactionWithTimeout w signature c t m))
             <= steps m + 2 * Z.to_nat ((t + 1999) / 2000)).
  { intros c t. unfold confirmTransactionWithTimeout.
    pose proof (confirm_loop_steps w signature c (clock m) t m) as H.
    destruct (confirm_loop w signature c (clock m) t m) as [r m'].
    cbn [snd] in *.
    replace (Z.of_N (clock m) + t - Z.of_N (clock m) + 1999)%Z
      with (t + 1999)%Z in H by lia.
    exact H. }
  split; [apply Hsteps|]. split; [apply (Hsteps (js "confirmed") 90000%Z)|].
  intros Ht. unfold confirmTransactionWithTimeout.
  rewrite confirm_loop_equation_1.
  destruct (Z_lt_dec _ _) as [Hlt|Hge]; [lia | reflexivity].
Qed.

(** The theorem at a timeout of zero. *)
Lemma confirmTransactionWithTimeout_polls_witness :
  confirmTransactionWithTimeout
    (sample_world no_accounts always_confirmed wallet_signs)
    (js "sig") (js "confirmed") 0
    (sample_machine (sample_dashboard SOL [] []))
  = (Returned timeout_result, sample_machine (sample_dashboard SOL [] [])).
Proof.
  apply (proj2 (proj2 (confirmTransactionWithTimeout_polls
                         (sample_world no_accounts always_confirmed
                            wallet_signs)
                         (js "sig") (js "confirmed") 0
                         (sample_machine (sample_dashboard SOL [] []))))).
  lia.
Defined.

(** ** The transactions of a build *)

Lemma add_transfer_returned (w : World) (sender : PublicKey) (isSol : bool)
    (tokenMint : jsstring) (decimals : nat) (programId : PublicKey)
    (tx tx' : Transaction) (r : Recipient) (m m' : Machine) :
  add_transfer w sender isSol tokenMint decimals programId tx r m
  = (Returned tx', m') ->
  m' = m /\
  exists i, transfer_instruction w sender isSol tokenMint decimals programId r
            = Some i /\
            tx' = tx_add tx i.
Proof.
  unfold add_transfer, transfer_instruction, bind, newPublicKey,
    getAssociatedTokenAddress, sdk, ret, throw.
  destruct (w_newPublicKey w (address r)) as [key|e]; [|discriminate].
  destruct (to_smallest_unit (amount r) decimals) as [amountBig|];
    [|discriminate].
  destruct isSol.
  - intros H. inversion H. eauto.
  - destruct (w_newPublicKey w tokenMint) as [mintKey|e]; [|discriminate].
    destruct (w_getAssociatedTokenAddress w mintKey sender programId)
      as [src|e]; [|discriminate].
    destruct (w_getAssociatedTokenAddress w mintKey key programId)
      as [dst|e]; [|discriminate].
    intros H. inversion H. eauto.
Qed.



Lemma fold_add_transfer_returned (w : World) (sender : PublicKey)
    (isSol : bool) (tokenMint : jsstring) (decimals : nat)
    (programId : PublicKey) (c : list Recipient) :
  forall tx tx' m m',
    foldM (add_transfer w sender isSol tokenMint decimals programId) c tx m
    = (Returned tx', m') ->
    exists added,
      Forall2 (fun r i => transfer_instruction w sender isSol tokenMint
                            decimals programId r = Some i) c added /\
      instructions tx' = instructions tx ++ added /\
      recentBlockhash tx' = recentBlockhash tx /\
      lastValidBlockHeight tx' = lastValidBlockHeight tx /\
      feePayer tx' = feePayer tx.
Proof.
  induction c as [|r c IH]; intros tx tx' m m' H; cbn [foldM] in H.
  - inversion H; subst. exists []. rewrite app_nil_r. repeat split.
    constructor.
  - apply bind_returned in H as (tx1 & m1 & Hadd & H).
    apply add_transfer_returned in Hadd as (_ & i & Hi & ->).
    apply IH in H as (added & Hall & Hins & Hb & Hh & Hf).
    exists (i :: added). cbn [tx_add instructions recentBlockhash
                               lastValidBlockHeight feePayer] in *.
    rewrite Hins, <- app_assoc. repeat split; try assumption.
    now constructor.
Qed.

Lemma fold_build_transfer_tx_returned (w : World) (sender : PublicKey)
    (isSol : bool) (tokenMint : jsstring) (decimals : nat)
    (programId : PublicKey) (chunks : list (list Recipient)) :
  forall txs txs' m m',
    foldM (build_transfer_tx w sender isSol tokenMint decimals programId)
      chunks txs m = (Returned txs', m') ->
    exists new,
      txs' = txs ++ new /\
      Forall2 (transfer_tx_for w sender isSol tokenMint decimals programId)
              chunks new.
Proof.
  induction chunks as [|c chunks IH]; intros txs txs' m m' H;
    cbn [foldM] in H.
  - inversion H; subst. exists []. rewrite app_nil_r. split; constructor.
  - apply bind_returned in H as (txs1 & m1 & Hc & H).
    unfold build_transfer_tx in Hc.
    apply bind_returned in Hc as (tx & m2 & Hfold & Hret).
    inversion Hret; subst txs1 m2; clear Hret.
    apply fold_add_transfer_returned in Hfold
      as (added & Hall & Hins & Hb & Hh & Hf).
    apply IH in H as (new & -> & Hnew).
    exists (tx :: new). rewrite <- app_assoc. split; [reflexivity|].
    constructor; [|exact Hnew].
    unfold transfer_tx_for. cbn in Hins, Hb, Hh, Hf. rewrite Hins.
    now repeat split.
Qed.

Lemma build_transfers_returned (w : World) (sender : PublicKey)
    (recipients : list Recipient) (tokenMint : jsstring) (decimals : nat)
    (programId : PublicKey) (m m' : Machine) (built : BuildResult) :
  buildMultiSendTransaction w sender recipients tokenMint decimals programId m
  = (Returned built, m') ->
  Forall2 (transfer_tx_for w sender (jsstring_eqb tokenMint SOL_MINT)
             tokenMint decimals programId)
          (chunk recipients
             (if jsstring_eqb tokenMint SOL_MINT
              then MAX_TX_SIZE_SOL else MAX_TX_SIZE_SPL))
          (transferTxs built).
Proof.
  unfold buildMultiSendTransaction. intros H.
  apply bind_returned in H as (resolved & m1 & _ & H).
  apply bind_returned in H as (transfers & m2 & Hfold & H).
  inversion H; subst built; clear H. cbn [transferTxs].
  apply fold_build_transfer_tx_returned in Hfold as (new & -> & Hnew).
  exact Hnew.
Qed.

Lemma Forall2_concat {A B} (R : A -> B -> Prop) (ls : list (list A))
    (ms : list (list B)) :
  Forall2 (Forall2 R) ls ms -> Forall2 R (concat ls) (concat ms).
Proof.
  induction 1 as [|l m0 ls ms Hl _ IH]; cbn; [constructor|].
  now apply Forall2_app.
Qed.

Lemma build_transfers_in_order (w : World) (sender : PublicKey)
    (recipients : list Recipient) (tokenMint : jsstring) (decimals : nat)
    (programId : PublicKey) (m m' : Machine) (built : BuildResult) :
  buildMultiSendTransaction w sender recipients tokenMint decimals programId m
  = (Returned built, m') ->
  Forall2 (fun r i => transfer_instruction w sender
                        (jsstring_eqb tokenMint SOL_MINT) tokenMint decimals
                        programId r = Some i)
          recipients (all_instructions (transferTxs built)).
Proof.
  intros H.
  pose proof (build_transfers_returned _ _ _ _ _ _ _ _ _ H) as Hall.
  destruct (chunk_spec recipients
              (if jsstring_eqb tokenMint SOL_MINT
               then MAX_TX_SIZE_SOL else MAX_TX_SIZE_SPL))
    as (_ & _ & Hconcat).
  rewrite <- Hconcat at 1. unfold all_instructions.
  apply Forall2_concat. clear Hconcat.
  induction Hall as [|c tx cs txs Hc _ IH]; cbn [map]; constructor.
  - apply Hc.
  - exact IH.
Qed.

(** X8. In a build that returns, the transfer transactions follow the
    chunks of the recipient list one for one (chunks of 8 for SOL and of 5
    for a token): the transaction of a chunk holds exactly one transfer
    instruction for each recipient of the chunk, in order, and nothing else.
    So there are ceil(N / size) transfer transactions of 1 to [size]
    instructions, and over all of them every recipient is paid once, in the
    order of the list. *)
Theorem build_transfers_follow_chunks (w : World) (sender : PublicKey)
    (recipients : list Recipient) (tokenMint : jsstring) (decimals : nat)
    (programId : PublicKey) (m m' : Machine) (built : BuildResult) :
  buildMultiSendTransaction w sender recipients tokenMint decimals programId m
  = (Returned built, m') ->
  let isSol := jsstring_eqb tokenMint SOL_MINT in
  let size := if isSol then MAX_TX_SIZE_SOL else MAX_TX_SIZE_SPL in
  Forall2 (transfer_tx_for w sender isSol tokenMint decimals programId)
          (chunk recipients size) (transferTxs built) /\
  List.length (transferTxs built)
  = (List.length recipients + Pos.to_nat size - 1) / Pos.to_nat size /\
  Forall (fun tx => 1 <= List.length (instructions tx) <= Pos.to_nat size)
         (transferTxs built) /\
  Forall2 (fun r i => transfer_instruction w sender isSol tokenMint decimals
                        programId r = Some i)
          recipients (all_instructions (transferTxs built)).
Proof.
  intros H isSol size.
  pose proof (build_transfers_returned _ _ _ _ _ _ _ _ _ H) as Hall.
  fold isSol size in Hall.
  destruct (chunk_spec recipients size) as (Hlen & Hsizes & Hconcat).
  split; [exact Hall|]. split; [|split].
  - rewrite <- (Forall2_length Hall). exact Hlen.
  - clear Hlen Hconcat. induction Hall as [|c tx cs txs Hc _ IH];
      [constructor|].
    inversion Hsizes; subst. constructor; [|now apply IH].
    destruct Hc as (Hc & _). now rewrite <- (Forall2_length Hc).
  - exact (build_transfers_in_order _ _ _ _ _ _ _ _ _ H).
Qed.

(** The theorem at a native send to three recipients. *)
Lemma build_transfers_follow_chunks_witness :
  exists built,
    List.length (transferTxs built) = (3 + 8 - 1) / 8 /\
    all_instructions (transferTxs built)
    = [SystemTransfer 1%N 65%N 10000000%Z;
       SystemTransfer 1%N 66%N 10000000%Z;
       SystemTransfer 1%N 65%N 10000000%Z].
Proof.
  pose (W := sample_world no_accounts always_confirmed wallet_signs).
  pose (m0 := sample_machine (sample_dashboard SOL [] [])).
  destruct (buildMultiSendTransaction W 1%N [alice; bob; alice] SOL_MINT 9
              6%N m0) as [[built|e] m1] eqn:E; [|vm_compute in E; discriminate].
  exists built.
  destruct (build_transfers_follow_chunks W 1%N [alice; bob; alice] SOL_MINT
              9 6%N m0 m1 built E) as (_ & Hlen & _ & _).
  split; [exact Hlen|].
  vm_compute in E. inversion E. reflexivity.
Defined.

(** ** The requests of a build *)











(** ** The accounts a build creates *)

Lemma build_ata_tx_spec (sender programId : PublicKey)
    (ataChunk : list AtaWork) :
  build_ata_tx sender programId ataChunk
  = {| instructions :=
         map (fun a => CreateAssociatedTokenAccount sender (work_ata a)
                         (work_recipient a) (work_mint a) programId)
             ataChunk;
       recentBlockhash := None; lastValidBlockHeight := None;
       feePayer := None |}.
Proof.
  unfold build_ata_tx.
  assert (H : forall tx,
             fold_left
               (fun ataTx a =>
                  tx_add ataTx
                    (CreateAssociatedTokenAccount sender (work_ata a)
                       (work_recipient a) (work_mint a) programId))
               ataChunk tx
             = {| instructions :=
                    instructions tx ++
                    map (fun a => CreateAssociatedTokenAccount sender
                                    (work_ata a) (work_recipient a)
                                    (work_mint a) programId) ataChunk;
                  recentBlockhash := recentBlockhash tx;
                  lastValidBlockHeight := lastValidBlockHeight tx;
                  feePayer := feePayer tx |}).
  { induction ataChunk as [|a l IH]; intros tx; cbn [fold_left map].
    - rewrite app_nil_r. now destruct tx.
    - rewrite IH. cbn. now rewrite <- app_assoc. }
  now rewrite H.
Qed.

Lemma build_ata_txs_instructions (sender programId : PublicKey)
    (work : list AtaWork) :
  all_instructions (build_ata_txs sender programId work)
  = map (fun a => CreateAssociatedTokenAccount sender (work_ata a)
                    (work_recipient a) (work_mint a) programId) work.
Proof.
  unfold all_instructions. rewrite build_ata_txs_chunks.
  destruct (chunk_spec work 2) as (_ & _ & Hconcat).
  rewrite <- Hconcat at 2. rewrite concat_map, !map_map.
  f_equal. apply map_ext. intros c. now rewrite build_ata_tx_spec.
Qed.

Lemma Forall2_In_r {A B} (R : A -> B -> Prop) (l : list A) (l' : list B)
    (b : B) :
  Forall2 R l l' -> In b l' -> exists a, In a l /\ R a b.
Proof.
  induction 1 as [|a0 b0 l l' H0 _ IH]; intros Hin; [contradiction|].
  destruct Hin as [->|Hin].
  - exists a0. split; [now left | exact H0].
  - destruct (IH Hin) as (a & Ha & HR). exists a. split; [now right | exact HR].
Qed.

Lemma Forall2_In_l {A B} (R : A -> B -> Prop) (l : list A) (l' : list B)
    (a : A) :
  Forall2 R l l' -> In a l -> exists b, In b l' /\ R a b.
Proof.
  induction 1 as [|a0 b0 l l' H0 _ IH]; intros Hin; [contradiction|].
  destruct Hin as [->|Hin].
  - exists b0. split; [now left | exact H0].
  - destruct (IH Hin) as (b & Hb & HR). exists b. split; [now right | exact HR].
Qed.

(** X10. In a token build that returns, the creation transactions hold
    creation instructions only, paid by the sender under the program of the
    build, each for an account the network did not have when it was looked
    up, and each account created is the destination of a transfer
    instruction of the same build, for the same mint.  No account is created
    that is not paid into. *)
Theorem created_accounts_are_paid (w : World) (sender : PublicKey)
    (recipients : list Recipient) (tokenMint : jsstring) (decimals : nat)
    (programId : PublicKey) (m m' : Machine) (built : BuildResult) :
  buildMultiSendTransaction w sender recipients tokenMint decimals programId m
  = (Returned built, m') ->
  Forall (fun i =>
            exists ata owner mintPubkey,
              i = CreateAssociatedTokenAccount sender ata owner mintPubkey
                    programId /\
              w_newPublicKey w tokenMint = Resolved mintPubkey /\
              (exists k, w_getAccountInfo w k ata = Resolved false) /\
              exists source amountBig,
                In (TransferChecked source mintPubkey ata sender amountBig
                      decimals programId)
                   (all_instructions (transferTxs built)))
         (all_instructions (ataTxs built)).
Proof.
  intros H.
  pose proof (build_transfers_in_order w sender recipients tokenMint
                decimals programId m m' built H) as Hpaid.
  unfold buildMultiSendTransaction in H.
  apply bind_returned in H as ([stats txs] & m1 & Hres & H).
  apply bind_returned in H as (transfers & m2 & _ & H).
  inversion H; subst built; clear H. cbn [ataTxs transferTxs fst snd] in *.
  destruct (jsstring_eqb tokenMint SOL_MINT).
  { inversion Hres; subst. constructor. }
  apply bind_returned in Hres as (mintKey & m3 & Hmint & Hres).
  apply sdk_returned in Hmint as [Hmint _].
  apply bind_returned in Hres as ([stats' work] & m4 & Hr & Hres).
  inversion Hres; subst; clear Hres. cbn [fst snd].
  apply resolve_atas_returned in Hr as (looked & Hlooked & _ & _ & Hw).
  assert (Hins : all_instructions
                   match work with
                   | [] => []
                   | _ :: _ => build_ata_txs sender programId work
                   end
                 = map (fun a => CreateAssociatedTokenAccount sender
                                   (work_ata a) (work_recipient a)
                                   (work_mint a) programId) work).
  { destruct work; [reflexivity | apply build_ata_txs_instructions]. }
  rewrite Hins, Hw. clear Hins Hw.
  apply Forall_forall. intros i Hi.
  apply in_map_iff in Hi as (a & <- & Ha).
  apply in_map_iff in Ha as (x & <- & Hx).
  apply filter_In in Hx as [Hx Hmiss].
  destruct (Forall2_In_r _ _ _ _ Hlooked Hx) as (r & Hr & Hkey & Hata & k & Hk).
  destruct (Forall2_In_l _ _ _ _ Hpaid Hr) as (j & Hj & Htr).
  cbn [work_of work_ata work_recipient work_mint].
  exists (lookup_ata x), (lookup_key x), mintKey.
  split; [reflexivity|]. split; [exact Hmint|]. split.
  - exists k. rewrite Hk. unfold lookup_missing in Hmiss.
    now destruct (lookup_found x).
  - unfold transfer_instruction in Htr. rewrite Hkey, Hmint, Hata in Htr.
    destruct (to_smallest_unit (amount r) decimals) as [amt|]; [|discriminate].
    destruct (w_getAssociatedTokenAddress w mintKey sender programId)
      as [src|e]; [|discriminate].
    inversion Htr; subst j. now exists src, amt.
Qed.

(** The theorem at a token send to two recipients without account. *)
Lemma created_accounts_are_paid_witness :
  exists built,
    List.length (all_instructions (ataTxs built)) = 2 /\
    Forall (fun i =>
              exists ata owner mintPubkey,
                i = CreateAssociatedTokenAccount 1%N ata owner mintPubkey 6%N /\
                w_newPublicKey
                  (sample_world no_accounts always_confirmed wallet_signs)
                  (js "Mint") = Resolved mintPubkey /\
                (exists k, no_accounts k ata = Resolved false) /\
                exists source amountBig,
                  In (TransferChecked source mintPubkey ata 1%N amountBig
                        6 6%N)
                     (all_instructions (transferTxs built)))
           (all_instructions (ataTxs built)).
Proof.
  pose (W := sample_world no_accounts always_confirmed wallet_signs).
  pose (m0 := sample_machine (sample_dashboard SPL [] [])).
  destruct (buildMultiSendTransaction W 1%N [alice; bob] (js "Mint") 6
              6%N m0) as [[built|e] m1] eqn:E; [|vm_compute in E; discriminate].
  exists built. split.
  - vm_compute in E. inversion E. reflexivity.
  - exact (created_accounts_are_paid W 1%N [alice; bob] (js "Mint") 6 6%N
             m0 m1 built E).
Defined.

(** ** Runs that are refused *)

Lemma valid_recipients_filter (w : World) (d : Dashboard) :
  filter (fun r => isValidAddress w (address r)
                   && gt_zero (parseFloat (amount r)))
         (parsedRecipients d)
  = valid_recipients w d.
Proof. reflexivity. Qed.

(** X11. Without a connected wallet a send does nothing.  With one, a run
    is refused before anything is asked of the network, ending in ERROR with
    the message of the cause and no signature: a single-asset send when no
    recipient has a valid address and an amount greater than zero, or when
    the asset is a token whose mint is not a valid address; a multi-asset
    send when no recipient has a valid address, or when no token is selected
    with an amount greater than zero. *)
Theorem handlers_refuse_before_sending (w : World) (m : Machine) :
  (publicKey (dash m) = None ->
   run_handleSend w m = m /\ run_handleMultiTokenSend w m = m) /\
  (forall pk,
      publicKey (dash m) = Some pk -> tokenType (dash m) <> MULTI ->
      (valid_recipients w (dash m) = [] ->
       refused m (run_handleSend w m) (js "No valid recipients found.")) /\
      (valid_recipients w (dash m) <> [] -> tokenType (dash m) = SPL ->
       isValidAddress w (splMint (dash m)) = false ->
       refused m (run_handleSend w m) (js "Invalid SPL Mint Address."))) /\
  (forall pk,
      publicKey (dash m) = Some pk ->
      (filter (fun r => isValidAddress w (address r))
              (parsedRecipients (dash m)) = [] ->
       refused m (run_handleMultiTokenSend w m)
         (js "No valid recipients found.")) /\
      (filter (fun r => isValidAddress w (address r))
              (parsedRecipients (dash m)) <> [] ->
       filter token_selected (tokenAccounts (dash m) ++ customTokens (dash m))
       = [] ->
       refused m (run_handleMultiTokenSend w m)
         (js "No tokens selected with valid amounts."))).
Proof.
  split; [|split].
  - intros Hpk. unfold run_handleSend, run_handleMultiTokenSend, handleSend,
      handleMultiTokenSend. rewrite Hpk. split; reflexivity.
  - intros pk Hpk Htype. unfold run_handleSend, handleSend. rewrite Hpk.
    split.
    + intros Hnone.
      destruct (tokenType (dash m)) eqn:Ht; try contradiction;
        unfold handleSend_try; rewrite valid_recipients_filter, Hnone;
        repeat split.
    + intros Hsome Hspl Hmint. rewrite Hspl.
      unfold handleSend_try. rewrite valid_recipients_filter.
      destruct (valid_recipients w (dash m)); [contradiction|].
      rewrite Hspl, Hmint. repeat split.
  - intros pk Hpk. unfold run_handleMultiTokenSend, handleMultiTokenSend.
    rewrite Hpk. split.
    + intros Hnone. unfold handleMultiTokenSend_try. rewrite Hnone.
      repeat split.
    + intros Hsome Htok. unfold handleMultiTokenSend_try.
      destruct (filter _ (parsedRecipients (dash m))); [contradiction|].
      rewrite Htok. repeat split.
Qed.

(** The theorem at a native send whose only recipient has the amount 0, and
    at a multi-asset send without a selected token. *)
Lemma handlers_refuse_before_sending_witness :
  refused
    (sample_machine
       (sample_dashboard SOL [{| address := js "A"; amount := js "0" |}] []))
    (run_handleSend (sample_world no_accounts always_confirmed wallet_signs)
       (sample_machine
          (sample_dashboard SOL
             [{| address := js "A"; amount := js "0" |}] [])))
    (js "No valid recipients found.") /\
  refused
    (sample_machine (sample_dashboard MULTI [alice] []))
    (run_handleMultiTokenSend
       (sample_world no_accounts always_confirmed wallet_signs)
       (sample_machine (sample_dashboard MULTI [alice] [])))
    (js "No tokens selected with valid amounts.").
Proof.
  split.
  - apply (proj1 (proj1 (proj2 (handlers_refuse_before_sending
             (sample_world no_accounts always_confirmed wallet_signs)
             (sample_machine
                (sample_dashboard SOL
                   [{| address := js "A"; amount := js "0" |}] []))))
             1%N eq_refl ltac:(discriminate))).
    reflexivity.
  - apply (proj2 (proj2 (proj2 (handlers_refuse_before_sending
             (sample_world no_accounts always_confirmed wallet_signs)
             (sample_machine (sample_dashboard MULTI [alice] []))))
             1%N eq_refl)).
    + discriminate.
    + reflexivity.
Defined.

(** ** The multi-asset send and the amounts of the recipients *)







(** ** What a run leaves of the dashboard *)

Lemma entered_frame (m m' : Machine) : dash m' = dash m -> entered m' = entered m.
Proof. unfold entered. now intros ->. Qed.

Lemma entered_request {A} (w : World) (reply : nat -> Response A) :
  Preserves entered (request w reply).
Proof. intros m. unfold request. now destruct (reply (steps m)). Qed.

Lemma entered_sleep (w : World) (ms : N) : Preserves entered (sleep w ms).
Proof. intros m. reflexivity. Qed.

Lemma entered_setStatus (s : Status) : Preserves entered (setStatus s).
Proof. intros m. reflexivity. Qed.

Lemma entered_setStatusMsg (msg : StatusMsg) :
  Preserves entered (setStatusMsg msg).
Proof. intros m. reflexivity. Qed.

Lemma entered_setTxSigs (sigs : list Signature) :
  Preserves entered (setTxSigs sigs).
Proof. intros m. reflexivity. Qed.

Lemma entered_emit (ev : Event) : Preserves entered (emit ev).
Proof. intros m. reflexivity. Qed.

Lemma entered_confirm (w : World) (sig commitment : jsstring)
    (timeoutMs : Z) :
  Preserves entered (confirmTransactionWithTimeout w sig commitment timeoutMs).
Proof.
  intros m. unfold confirmTransactionWithTimeout.
  pose proof (confirm_loop_frame w sig commitment (clock m) timeoutMs m)
    as [_ Hdash].
  destruct (confirm_loop w sig commitment (clock m) timeoutMs m) as [r m'].
  now apply entered_frame.
Qed.

Lemma entered_getLatestBlockhash (w : World) :
  Preserves entered (getLatestBlockhash w).
Proof. apply entered_request. Qed.

Lemma entered_sendRawTransaction (w : World) (raw : jsstring) :
  Preserves entered (sendRawTransaction w raw).
Proof. apply entered_request. Qed.

Lemma entered_sendTransaction (w : World) (tx : Transaction) :
  Preserves entered (sendTransaction w tx).
Proof. apply entered_request. Qed.

#[local] Hint Resolve entered_request entered_sleep entered_setStatus
  entered_setStatusMsg entered_setTxSigs entered_emit entered_confirm
  entered_getLatestBlockhash entered_sendRawTransaction
  entered_sendTransaction : frame.

Lemma entered_requestAlchemyFeePayer (w : World) (tx : jsstring) :
  Preserves entered (requestAlchemyFeePayer w tx).
Proof. unfold requestAlchemyFeePayer. frame. Qed.

Lemma entered_build (w : World) (sender : PublicKey)
    (recipients : list Recipient) (tokenMint : jsstring) (decimals : nat)
    (programId : PublicKey) :
  Preserves entered
    (buildMultiSendTransaction w sender recipients tokenMint decimals
       programId).
Proof.
  unfold buildMultiSendTransaction, resolve_atas, build_transfer_tx,
    resolve_ata, add_transfer, newPublicKey, getAssociatedTokenAddress.
  frame.
Qed.

Lemma entered_await_confirmation (w : World) (sig : Signature) :
  Preserves entered (await_confirmation w sig).
Proof. unfold await_confirmation. frame. Qed.

#[local] Hint Resolve entered_requestAlchemyFeePayer entered_build
  entered_await_confirmation : frame.

Lemma entered_handleMultiTokenSend (w : World) (d : Dashboard) :
  Preserves entered (handleMultiTokenSend w d).
Proof.
  unfold handleMultiTokenSend, handleMultiTokenSend_try, multi_send_token,
    multi_creations, multi_transfers, multi_send_ata, multi_send_transfer,
    confirm_from, push_signature.
  frame.
Qed.

Lemma entered_handleSend (w : World) (d : Dashboard) :
  Preserves entered (handleSend w d).
Proof.
  unfold handleSend. destruct (publicKey d); [|frame].
  destruct (tokenType d); try apply entered_handleMultiTokenSend;
    unfold handleSend_try, handleSend_creations, handleSend_transfers,
      send_ata_batch, send_transfer_batch, push_signature;
    frame.
Qed.

(** X12. A send changes nothing of what the user entered and selected: the
    wallet, the mode, the asset type, the mint with its decimals and program,
    the tokens with their selection and amounts, the text and the recipients
    are after the run what they were before it, whether the run ends in
    SUCCESS or in ERROR.  Only the status, the status message and the
    reported signatures change. *)
Theorem send_keeps_what_was_entered (w : World) (m : Machine) :
  entered (run_handleSend w m) = entered m /\
  entered (run_handleMultiTokenSend w m) = entered m /\
  parsedRecipients (dash (run_handleSend w m)) = parsedRecipients (dash m) /\
  tokenAccounts (dash (run_handleSend w m)) = tokenAccounts (dash m) /\
  customTokens (dash (run_handleSend w m)) = customTokens (dash m).
Proof.
  assert (H1 : entered (run_handleSend w m) = entered m)
    by apply entered_handleSend.
  assert (H2 : entered (run_handleMultiTokenSend w m) = entered m)
    by apply entered_handleMultiTokenSend.
  split; [exact H1|]. split; [exact H2|].
  unfold entered in H1. inversion H1. auto.
Qed.

(** ** Success comes after every await *)

Lemma awaited_nil : awaited [].
Proof. intros pre t kind i sig post H. destruct pre; discriminate. Qed.

Lemma awaited_app (a b : list Event) :
  awaited a -> awaited b -> awaited (a ++ b).
Proof.
  intros Ha Hb pre t kind i sig post Heq.
  apply app_eq_app in Heq as (l & [[-> Hl]|[-> ->]]).
  - destruct l as [|x l]; cbn in Hl.
    + apply (Hb [] t kind i sig post). now rewrite Hl.
    + inversion Hl; subst.
      destruct (Ha pre t kind i sig l eq_refl) as (r & Hr).
      exists r. apply in_or_app. now left.
  - apply (Hb l t kind i sig post eq_refl).
Qed.

Lemma awaited_unsent (evs : list Event) :
  sent_signatures evs = [] -> awaited evs.
Proof.
  intros H pre t kind i sig post Heq. subst evs.
  rewrite sent_signatures_app in H. cbn in H.
  apply app_eq_nil in H as [_ H]. discriminate.
Qed.

Lemma confirms_In (S : list Signature) (C : list Event) (sig : Signature) :
  confirms S C -> In sig S -> exists r, In (EvConfirmed sig r) C.
Proof.
  intros Hc Hin. apply In_nth_error in Hin as (i & Hi).
  destruct (confirms_nth S C Hc i sig Hi) as (r & C1 & C2 & ->).
  exists r. apply in_or_app. right. now left.
Qed.

(** Submissions followed by the awaits on all their signatures. *)
Lemma awaited_phase (t : nat) (kind : BatchKind) (k : nat)
    (S L : list Signature) (C : list Event) :
  confirms L C -> incl S L ->
  awaited (sent_events t kind k S ++ C).
Proof.
  intros Hc Hincl pre t' kind' i sig post Heq.
  assert (HC : sent_signatures C = []).
  { apply confirmations_signatures.
    eapply confirms_are_confirmations; exact Hc. }
  apply app_eq_app in Heq as (l & [[Hs Hl]|[-> ->]]).
  - destruct l as [|x l]; cbn in Hl.
    + exfalso. rewrite <- Hl in HC. discriminate.
    + inversion Hl; subst x post.
      assert (Hsig : In sig S).
      { rewrite <- (sent_events_signatures t kind S k), Hs.
        rewrite sent_signatures_app. apply in_or_app. right. now left. }
      destruct (confirms_In L C sig Hc (Hincl sig Hsig)) as (r & Hr).
      exists r. apply in_or_app. now right.
  - exfalso. rewrite sent_signatures_app in HC.
    apply app_eq_nil in HC as [_ HC]. discriminate.
Qed.

Lemma map_snd_enumerate {A} (l : list A) : map snd (enumerate l) = l.
Proof.
  unfold enumerate. generalize 0.
  induction l as [|a l IH]; intros k; [reflexivity|].
  cbn. now rewrite IH.
Qed.

Lemma slice_last_new {A} (old new : list A) :
  incl new (slice_last (old ++ new) (List.length new)).
Proof.
  unfold slice_last. destruct (List.length new) as [|n] eqn:E.
  - apply length_zero_iff_nil in E. subst new. intros x [].
  - rewrite <- E, skipn_new_signatures. apply incl_refl.
Qed.

Lemma handleSend_transfers_awaited (w : World) (pk : PublicKey) (n : nat)
    (built : BuildResult) (sigs : list Signature) :
  Emits (handleSend_transfers w pk n built sigs)
        (fun o evs => (exists r, o = Returned r) -> awaited evs).
Proof.
  unfold handleSend_transfers. quiet_step.
  eapply Emits_bind;
    [apply foldM_sent with (t := 0) (kind := Transfer);
     intros; apply send_transfer_batch_emits | |].
  - intros e evs1 _ (res & Hres). discriminate.
  - intros acc evs1 (S & -> & [(e' & H & _)|(H & Hlen)]); [discriminate|].
    inversion H; subst acc. quiet_step.
    eapply Emits_bind; [apply foldM_confirms_items | |].
    + intros e evs2 [H2 _]. discriminate.
    + intros [] evs2 [_ Hc]. apply Emits_ret. intros _.
      rewrite app_nil_r. rewrite map_snd_enumerate in Hc.
      eapply awaited_phase; [exact Hc|].
      rewrite <- Hlen. apply slice_last_new.
Qed.

Lemma multi_transfers_awaited (w : World) (pk : PublicKey) (t : nat)
    (token : TokenAccount) (built : BuildResult) (sigs : list Signature) :
  Emits (multi_transfers w pk t token built sigs)
        (fun o evs => (exists r, o = Returned r) -> awaited evs).
Proof.
  unfold multi_transfers. quiet_step.
  eapply Emits_bind;
    [apply foldM_sent with (t := t) (kind := Transfer);
     intros; apply multi_send_transfer_emits | |].
  - intros e evs1 _ (res & Hres). discriminate.
  - intros acc evs1 (S & -> & [(e' & H & _)|(H & Hlen)]); [discriminate|].
    inversion H; subst acc. unfold confirm_from.
    rewrite <- Hlen, skipn_new_signatures.
    eapply Emits_bind; [apply foldM_confirms | |].
    + intros e evs2 [H2 _]. discriminate.
    + intros [] evs2 [_ Hc]. apply Emits_ret. intros _.
      rewrite app_nil_r.
      eapply awaited_phase; [exact Hc | apply incl_refl].
Qed.

(** The two phases of an asset, after its build event. *)
Lemma phases_awaited {A} (t nA nT : nat) (base : list Signature)
    (creations : M (list Signature))
    (transfers : list Signature -> M (list Signature))
    (finish : list Signature -> A) :
  Emits creations (creation_shape t nA base) ->
  (forall sigs, Emits (transfers sigs)
                  (fun o evs => (exists r, o = Returned r) -> awaited evs)) ->
  Emits (sigs <- creations ;; sigs <- transfers sigs ;; ret (finish sigs))
        (fun o evs => (exists r, o = Returned r) ->
                      awaited (EvBuilt t nA nT :: evs)).
Proof.
  intros Hc Ht.
  eapply Emits_bind; [exact Hc | |].
  - intros e evs1 _ (res & Hres). discriminate.
  - intros acc evs1 (S & C & -> & [(e' & H & _)|(H & Hlen & Hconf)]);
      [discriminate|].
    eapply Emits_bind; [apply Ht | |].
    + intros e evs2 _ (res & Hres). discriminate.
    + intros acc2 evs2 Haw. apply Emits_ret. intros _.
      rewrite app_nil_r.
      change (awaited ([EvBuilt t nA nT]
                       ++ (sent_events t Creation 0 S ++ C) ++ evs2)).
      apply awaited_app; [now apply awaited_unsent|].
      apply awaited_app; [|apply Haw; eauto].
      eapply awaited_phase; [exact Hconf | apply incl_refl].
Qed.

Lemma handleSend_try_awaited (w : World) (pk : PublicKey) (d : Dashboard) :
  Emits (handleSend_try w pk d)
        (fun o evs => (exists r, o = Returned r) -> awaited evs).
Proof.
  unfold handleSend_try.
  match goal with |- Emits (match ?l with _ => _ end) _ => destruct l end.
  { apply Emits_throw. intros (res & Hres). discriminate. }
  match goal with |- Emits (if ?b then _ else _) _ => destruct b end.
  { apply Emits_throw. intros (res & Hres). discriminate. }
  quiet_step. quiet_step.
  apply Emits_bind_silent;
    [solve [frame] | intros e (res & Hres); discriminate | intros built].
  apply Emits_bind_emit.
  apply (@phases_awaited (list Signature * nat * AtaStats) 0 _
           (List.length (transferTxs built)) []
           (handleSend_creations w pk built)
           (handleSend_transfers w pk _ built)
           (fun sigs => (sigs, _, ataStats built))).
  - apply handleSend_creations_emits.
  - intros sigs. apply handleSend_transfers_awaited.
Qed.

Lemma multi_send_token_awaited (w : World) (pk : PublicKey)
    (validRecipients : list Recipient) (tokens : nat) (st : MultiState)
    (t : nat) (token : TokenAccount) :
  Emits (multi_send_token w pk validRecipients tokens st (t, token))
        (fun o evs => (exists r, o = Returned r) -> awaited evs).
Proof.
  unfold multi_send_token.
  quiet_step.
  apply Emits_bind_silent;
    [solve [frame] | intros e (res & Hres); discriminate | intros built].
  apply Emits_bind_emit.
  apply (@phases_awaited MultiState t _
           (List.length (transferTxs built)) (allSignatures st)
           (multi_creations w pk t token built (allSignatures st))
           (multi_transfers w pk t token built)
           (fun sigs =>
              {| allSignatures := sigs;
                 totalAtasCreated := _; totalAtasExisted := _ |})).
  - apply multi_creations_emits.
  - intros sigs. apply multi_transfers_awaited.
Qed.

Lemma token_loop_awaited (w : World) (pk : PublicKey)
    (validRecipients : list Recipient) (n : nat)
    (tokens : list TokenAccount) :
  forall k st,
    Emits (foldM (multi_send_token w pk validRecipients n)
                 (combine (seq k (List.length tokens)) tokens) st)
          (fun o evs => (exists r, o = Returned r) -> awaited evs).
Proof.
  induction tokens as [|token tokens IH]; intros k st.
  - apply Emits_ret. intros _. apply awaited_nil.
  - cbn [List.length seq combine foldM].
    eapply Emits_bind; [apply multi_send_token_awaited | |].
    + intros e evs1 _ (res & Hres). discriminate.
    + intros st1 evs1 Haw.
      eapply Emits_conseq; [apply IH|].
      intros o evs2 Haw2 Hret.
      apply awaited_app; [apply Haw; eauto | now apply Haw2].
Qed.

Lemma handleMultiTokenSend_try_awaited (w : World) (pk : PublicKey)
    (d : Dashboard) :
  Emits (handleMultiTokenSend_try w pk d)
        (fun o evs => (exists r, o = Returned r) -> awaited evs).
Proof.
  unfold handleMultiTokenSend_try.
  match goal with |- Emits (match ?l with _ => _ end) _ => destruct l end.
  { apply Emits_throw. intros (res & Hres). discriminate. }
  match goal with |- Emits (match ?l with _ => _ end) _ =>
    destruct l eqn:E end.
  { apply Emits_throw. intros (res & Hres). discriminate. }
  rewrite <- E. clear E. quiet_step.
  eapply Emits_bind; [apply token_loop_awaited | |].
  - intros e evs1 _ (res & Hres). discriminate.
  - intros st evs1 Haw. apply Emits_ret. intros _. rewrite app_nil_r.
    apply Haw. eauto.
Qed.

Lemma handleMultiTokenSend_success (w : World) (m : Machine) (pk : PublicKey) :
  publicKey (dash m) = Some pk ->
  status (dash (run_handleMultiTokenSend w m)) = SUCCESS ->
  exists evs,
    log (run_handleMultiTokenSend w m) = log m ++ evs /\ awaited evs.
Proof.
  intros Hpk. unfold run_handleMultiTokenSend, handleMultiTokenSend.
  rewrite Hpk.
  cbv [bind try_catch setStatus setStatusMsg setTxSigs ret].
  cbn [fst snd].
  match goal with
  | |- context [handleMultiTokenSend_try w pk (dash m) ?mp] =>
      pose proof (handleMultiTokenSend_try_awaited w pk (dash m) mp)
        as (evs & Hlog & Haw);
      destruct (handleMultiTokenSend_try w pk (dash m) mp) as [[r|e] m1]
  end; cbn in *.
  - destruct r as [[st tokens] recipients]. cbn. intros _.
    exists evs. split; [exact Hlog | apply Haw; eauto].
  - discriminate.
Qed.

Lemma handleSend_single_success (w : World) (m : Machine) (pk : PublicKey)
    (finish : list Signature * nat * AtaStats -> StatusMsg)
    (failed : JsError -> StatusMsg) :
  let m' :=
    snd ((setStatus VALIDATING ;;;
          setStatusMsg MsgValidating ;;;
          setTxSigs [] ;;;
          try_catch
            (r <- handleSend_try w pk (dash m) ;;
             let '(signatures, recipients, stats) := r in
             setTxSigs signatures ;;;
             setStatus SUCCESS ;;;
             setStatusMsg (finish (signatures, recipients, stats)))
            (fun err => setStatus ERROR ;;; setStatusMsg (failed err)))
           m) in
  status (dash m') = SUCCESS ->
  exists evs, log m' = log m ++ evs /\ awaited evs.
Proof.
  cbv [bind try_catch setStatus setStatusMsg setTxSigs ret].
  cbn [fst snd].
  match goal with
  | |- context [handleSend_try w pk (dash m) ?mp] =>
      pose proof (handleSend_try_awaited w pk (dash m) mp)
        as (evs & Hlog & Haw);
      destruct (handleSend_try w pk (dash m) mp) as [[r|e] m1]
  end; cbn in *.
  - destruct r as [[sigs recipients] stats]. cbn. intros _.
    exists evs. split; [exact Hlog | apply Haw; eauto].
  - discriminate.
Qed.

Lemma handleSend_success (w : World) (m : Machine) (pk : PublicKey) :
  publicKey (dash m) = Some pk ->
  status (dash (run_handleSend w m)) = SUCCESS ->
  exists evs, log (run_handleSend w m) = log m ++ evs /\ awaited evs.
Proof.
  intros Hpk. unfold run_handleSend, handleSend. rewrite Hpk.
  destruct (tokenType (dash m)) eqn:Htype.
  - apply (handleSend_single_success w m pk
             (fun r => MsgSent (snd (fst r)) (toCreate (snd r))
                         (existing (snd r)))).
  - apply (handleSend_single_success w m pk
             (fun r => MsgSent (snd (fst r)) (toCreate (snd r))
                         (existing (snd r)))).
  - apply (handleMultiTokenSend_success w m pk Hpk).
Qed.

(** X13. When a run with a connected wallet ends in SUCCESS, the watcher
    has been awaited, after its submission, on every transaction the run
    submitted, creation and transfer batches of every asset alike, and the
    signatures reported are those of these submissions: no signature is
    reported on which the watcher was not awaited. *)
Theorem success_after_every_await (w : World) (m m' : Machine)
    (pk : PublicKey) :
  publicKey (dash m) = Some pk ->
  m' = run_handleSend w m \/ m' = run_handleMultiTokenSend w m ->
  status (dash m') = SUCCESS ->
  exists evs,
    log m' = log m ++ evs /\ awaited evs /\
    txSigs (dash m') = sent_signatures evs /\
    forall sig, In sig (txSigs (dash m')) ->
                exists r, In (EvConfirmed sig r) evs.
Proof.
  intros Hpk Hrun Hok.
  assert (H : exists evs,
             log m' = log m ++ evs /\ awaited evs /\
             txSigs (dash m') = sent_signatures evs).
  { destruct Hrun as [-> | ->].
    - destruct (handleSend_success w m pk Hpk Hok) as (evs & Hlog & Haw).
      destruct (handleSend_end w m pk Hpk) as (evs' & Hlog' & _ & Hend).
      rewrite Hlog in Hlog'. apply app_inv_head in Hlog'. subst evs'.
      exists evs. split; [exact Hlog|]. split; [exact Haw|].
      destruct Hend as [[_ Hs]|[He _]]; [exact Hs | congruence].
    - destruct (handleMultiTokenSend_success w m pk Hpk Hok)
        as (evs & Hlog & Haw).
      destruct (handleMultiTokenSend_end w m pk Hpk)
        as (evs' & Hlog' & _ & Hend).
      rewrite Hlog in Hlog'. apply app_inv_head in Hlog'. subst evs'.
      exists evs. split; [exact Hlog|]. split; [exact Haw|].
      destruct Hend as [[_ Hs]|[He _]]; [exact Hs | congruence]. }
  destruct H as (evs & Hlog & Haw & Hsigs).
  exists evs. repeat split; try assumption.
  intros sig Hin. rewrite Hsigs in Hin. unfold sent_signatures in Hin.
  apply in_flat_map in Hin as (ev & Hev & Hsig).
  destruct ev as [| t kind i sig' |]; try contradiction.
  destruct Hsig as [<-|[]].
  apply in_split in Hev as (pre & post & ->).
  destruct (Haw pre t kind i sig' post eq_refl) as (r & Hr).
  exists r. apply in_or_app. right. now right.
Qed.

(** The theorem at a token send to one recipient without account, which
    submits a creation batch and a transfer batch. *)
Lemma success_after_every_await_witness :
  let W := sample_world no_accounts always_confirmed wallet_signs in
  let m := sample_machine (sample_dashboard SPL [alice] []) in
  exists evs,
    log (run_handleSend W m) = log m ++ evs /\ awaited evs /\
    txSigs (dash (run_handleSend W m)) = sent_signatures evs /\
    forall sig, In sig (txSigs (dash (run_handleSend W m))) ->
                exists r, In (EvConfirmed sig r) evs.
Proof.
  intros W m.
  apply (success_after_every_await W m (run_handleSend W m) 1%N);
    [reflexivity | left; reflexivity | vm_compute; reflexivity].
Defined.

(** ** What a successful single-asset send reports *)

Lemma filter_partition_length {A} (f : A -> bool) (l : list A) :
  List.length (filter f l) + List.length (filter (fun x => negb (f x)) l)
  = List.length l.
Proof.
  induction l as [|a l IH]; [reflexivity|].
  cbn [filter]. destruct (f a); cbn; lia.
Qed.

Lemma build_counts (w : World) (sender : PublicKey)
    (recipients : list Recipient) (tokenMint : jsstring) (decimals : nat)
    (programId : PublicKey) (m m' : Machine) (built : BuildResult) :
  buildMultiSendTransaction w sender recipients tokenMint decimals programId m
  = (Returned built, m') ->
  List.length (ataTxs built) = (toCreate (ataStats built) + 1) / 2 /\
  (if jsstring_eqb tokenMint SOL_MINT
   then toCreate (ataStats built) = 0 /\ existing (ataStats built) = 0
   else toCreate (ataStats built) + existing (ataStats built)
        = List.length recipients) /\
  List.length (transferTxs built)
  = (List.length recipients
     + Pos.to_nat (if jsstring_eqb tokenMint SOL_MINT
                   then MAX_TX_SIZE_SOL else MAX_TX_SIZE_SPL) - 1)
    / Pos.to_nat (if jsstring_eqb tokenMint SOL_MINT
                  then MAX_TX_SIZE_SOL else MAX_TX_SIZE_SPL).
Proof.
  intros H.
  pose proof (build_transfers_returned _ _ _ _ _ _ _ _ _ H) as Hall.
  apply Forall2_length in Hall.
  destruct (chunk_spec recipients
              (if jsstring_eqb tokenMint SOL_MINT
               then MAX_TX_SIZE_SOL else MAX_TX_SIZE_SPL)) as (Hlen & _ & _).
  rewrite <- Hall, Hlen. clear Hall Hlen.
  unfold buildMultiSendTransaction in H.
  apply bind_returned in H as ([stats txs] & m1 & Hres & H).
  apply bind_returned in H as (transfers & m2 & _ & H).
  inversion H; subst built; clear H. cbn [ataTxs ataStats fst snd].
  destruct (jsstring_eqb tokenMint SOL_MINT).
  - inversion Hres; subst. cbn. auto.
  - apply bind_returned in Hres as (mintKey & m3 & _ & Hres).
    apply bind_returned in Hres as ([stats' work] & m4 & Hr & Hres).
    inversion Hres; subst; clear Hres. cbn [fst snd].
    apply resolve_atas_returned in Hr as (looked & Hl & He & Ht & Hw).
    apply Forall2_length in Hl.
    assert (Hwork : List.length work = toCreate stats).
    { rewrite Hw, Ht. apply length_map. }
    split; [|split; [|reflexivity]].
    + destruct work as [|a work'] eqn:E.
      * cbn in Hwork. now rewrite <- Hwork.
      * rewrite <- E in *. rewrite build_ata_txs_chunks, length_map.
        destruct (chunk_spec work 2) as (Hlen & _ & _).
        rewrite Hlen, Hwork. f_equal. lia.
    + rewrite Ht, He, Hl, Nat.add_comm.
      apply (filter_partition_length lookup_found).
Qed.

Lemma foldM_sent_returned (t : nat) (kind : BatchKind)
    (body : list Signature -> nat * Transaction -> M (list Signature))
    (txs : list Transaction) (sigs sigs' : list Signature) (m m' : Machine) :
  (forall sigs i tx, Emits (body sigs (i, tx)) (one_sent t kind i sigs)) ->
  foldM body (enumerate txs) sigs m = (Returned sigs', m') ->
  List.length sigs' = List.length sigs + List.length txs.
Proof.
  intros Hbody H.
  destruct (@foldM_sent t kind body Hbody txs 0 sigs m)
    as (evs & _ & S & _ & [(e & He & _)|(Hret & Hlen)]);
    unfold enumerate in H; rewrite H in *; cbn in *; [discriminate|].
  inversion Hret. rewrite length_app. lia.
Qed.

Lemma handleSend_creations_returned (w : World) (pk : PublicKey)
    (built : BuildResult) (sigs : list Signature) (m m' : Machine) :
  handleSend_creations w pk built m = (Returned sigs, m') ->
  List.length sigs = List.length (ataTxs built).
Proof.
  intros H.
  destruct (handleSend_creations_emits w pk built m)
    as (evs & _ & S & C & _ & [(e & He & _)|(Hret & Hlen & _)]);
    rewrite H in *; cbn in *; [discriminate|].
  inversion Hret. exact Hlen.
Qed.

Lemma handleSend_transfers_returned (w : World) (pk : PublicKey) (n : nat)
    (built : BuildResult) (sigs sigs' : list Signature) (m m' : Machine) :
  handleSend_transfers w pk n built sigs m = (Returned sigs', m') ->
  List.length sigs' = List.length sigs + List.length (transferTxs built).
Proof.
  unfold handleSend_transfers. intros H.
  apply bind_returned in H as ([] & m1 & _ & H).
  apply bind_returned in H as (acc & m2 & Hsent & H).
  apply bind_returned in H as ([] & m3 & _ & H).
  apply bind_returned in H as ([] & m4 & _ & H).
  inversion H; subst sigs'.
  eapply foldM_sent_returned; [|exact Hsent].
  intros. apply send_transfer_batch_emits.
Qed.

Lemma handleSend_try_returned (w : World) (pk : PublicKey) (d : Dashboard)
    (m m' : Machine) (sigs : list Signature) (n : nat) (stats : AtaStats) :
  handleSend_try w pk d m = (Returned (sigs, n, stats), m') ->
  exists built m0 m1 decimals programId,
    buildMultiSendTransaction w pk (valid_recipients w d) (mint_to_use d)
      decimals programId m0 = (Returned built, m1) /\
    n = List.length (valid_recipients w d) /\
    stats = ataStats built /\
    List.length sigs
    = List.length (ataTxs built) + List.length (transferTxs built).
Proof.
  unfold handleSend_try. rewrite valid_recipients_filter.
  destruct (valid_recipients w d) as [|r0 v] eqn:Ev; [discriminate|].
  rewrite <- Ev. clear Ev r0 v.
  destruct (match tokenType d with
            | SPL => negb (isValidAddress w (splMint d))
            | _ => false
            end); [discriminate|].
  intros H.
  apply bind_returned in H as ([] & m1 & _ & H).
  apply bind_returned in H as ([] & m2 & _ & H).
  apply bind_returned in H as (built & m3 & Hbuild & H).
  apply bind_returned in H as ([] & m4 & _ & H).
  apply bind_returned in H as (sigs1 & m5 & Hc & H).
  apply bind_returned in H as (sigs2 & m6 & Ht & H).
  inversion H; subst; clear H.
  apply handleSend_creations_returned in Hc.
  apply handleSend_transfers_returned in Ht.
  exists built, m2, m3. eexists _, _. split; [exact Hbuild|].
  repeat split. lia.
Qed.

Lemma handleSend_single_report (w : World) (m : Machine) (pk : PublicKey) :
  let m' :=
    snd ((setStatus VALIDATING ;;;
          setStatusMsg MsgValidating ;;;
          setTxSigs [] ;;;
          try_catch
            (r <- handleSend_try w pk (dash m) ;;
             let '(signatures, recipients, stats) := r in
             setTxSigs signatures ;;;
             setStatus SUCCESS ;;;
             setStatusMsg (MsgSent recipients (toCreate stats)
                             (existing stats)))
            (fun err =>
               setStatus ERROR ;;;
               setStatusMsg
                 (MsgFailed (or_else (message err)
                                     (js "Transaction failed")))))
           m) in
  status (dash m') = SUCCESS ->
  exists sigs n stats mp m1,
    handleSend_try w pk (dash m) mp = (Returned (sigs, n, stats), m1) /\
    statusMsg (dash m') = MsgSent n (toCreate stats) (existing stats) /\
    txSigs (dash m') = sigs.
Proof.
  cbv [bind try_catch setStatus setStatusMsg setTxSigs ret].
  cbn [fst snd].
  match goal with
  | |- context [handleSend_try w pk (dash m) ?mp] =>
      destruct (handleSend_try w pk (dash m) mp) as [[r|e] m1] eqn:E
  end; cbn in *.
  - destruct r as [[sigs n] stats]. cbn. intros _.
    eexists sigs, n, stats, _, m1. split; [exact E|]. split; reflexivity.
  - discriminate.
Qed.

(** X15. When a single-asset send ends in SUCCESS, its message counts the
    recipients with a valid address and an amount greater than zero, and
    the accounts created and found: none for SOL, and for a token as many
    together as there are such recipients.  The signatures reported are as
    many as the transactions planned: one for every two accounts to create
    and one for every 8 (SOL) or 5 (token) recipients, rounded up. *)
Theorem handleSend_success_counts (w : World) (m : Machine) (pk : PublicKey) :
  publicKey (dash m) = Some pk ->
  tokenType (dash m) <> MULTI ->
  status (dash (run_handleSend w m)) = SUCCESS ->
  let n := List.length (valid_recipients w (dash m)) in
  let isSol := jsstring_eqb (mint_to_use (dash m)) SOL_MINT in
  let size := Pos.to_nat (if isSol then MAX_TX_SIZE_SOL
                          else MAX_TX_SIZE_SPL) in
  exists created existed,
    statusMsg (dash (run_handleSend w m)) = MsgSent n created existed /\
    (if isSol then created = 0 /\ existed = 0 else created + existed = n) /\
    List.length (txSigs (dash (run_handleSend w m)))
    = (created + 1) / 2 + (n + size - 1) / size.
Proof.
  intros Hpk Htype Hok n isSol size.
  assert (H : exists sigs n0 stats mp m1,
             handleSend_try w pk (dash m) mp
             = (Returned (sigs, n0, stats), m1) /\
             statusMsg (dash (run_handleSend w m))
             = MsgSent n0 (toCreate stats) (existing stats) /\
             txSigs (dash (run_handleSend w m)) = sigs).
  { revert Hok. unfold run_handleSend, handleSend. rewrite Hpk.
    destruct (tokenType (dash m)); try contradiction;
      apply (handleSend_single_report w m pk). }
  destruct H as (sigs & n0 & stats & mp & m1 & Htry & Hmsg & Hsigs).
  apply handleSend_try_returned in Htry
    as (built & m0 & m2 & decimals & programId & Hbuild & -> & -> & Hlen).
  apply build_counts in Hbuild as (HnA & Hstats & HnT).
  fold isSol in Hstats, HnT. fold n in Hstats, HnT.
  exists (toCreate (ataStats built)), (existing (ataStats built)).
  split; [exact Hmsg|]. split; [exact Hstats|].
  rewrite Hsigs, Hlen, HnA, HnT. reflexivity.
Qed.

(** The theorem at a token send to three recipients without account: two
    creation transactions and one transfer transaction. *)
Lemma handleSend_success_counts_witness :
  let W := sample_world no_accounts always_confirmed wallet_signs in
  let m := sample_machine (sample_dashboard SPL [alice; bob; alice] []) in
  exists created existed,
    statusMsg (dash (run_handleSend W m)) = MsgSent 3 created existed /\
    created + existed = 3 /\
    List.length (txSigs (dash (run_handleSend W m)))
    = (created + 1) / 2 + (3 + 5 - 1) / 5.
Proof.
  intros W m.
  apply (handleSend_success_counts W m 1%N);
    [reflexivity | discriminate | vm_compute; reflexivity].
Defined.

(** ** Selecting tokens and entering their amounts *)

Lemma jsstring_eqb_refl (a : jsstring) : jsstring_eqb a a = true.
Proof.
  unfold jsstring_eqb. destruct (list_eq_dec N.eq_dec a a); congruence.
Qed.





Lemma with_amount_selected (mint_ amount_ : jsstring) (t : TokenAccount) :
  token_selected (with_amount mint_ amount_ t)
  = if jsstring_eqb (mint t) mint_
    then selected t && (truthy amount_ && gt_zero (parseFloat amount_))
    else token_selected t.
Proof.
  unfold with_amount. destruct (jsstring_eqb (mint t) mint_); reflexivity.
Qed.

(** X17. After [handleTokenAmountChange(mint, amount)] a wallet token with
    this mint is one the multi-asset send sends exactly when it is selected
    and the amount is not empty and parses to a number greater than zero; the
    tokens with another mint are sent or not as before, and the custom
    tokens are untouched.  So an amount that is empty, zero, negative or not
    a number takes every wallet token of the mint out of the send. *)
Theorem amount_change_selects (d : Dashboard) (mint_ amount_ : jsstring) :
  selected_tokens (handleTokenAmountChange d mint_ amount_)
  = filter token_selected
      (map (with_amount mint_ amount_) (tokenAccounts d))
    ++ filter token_selected (customTokens d) /\
  Forall2 (fun t t' =>
             mint t' = mint t /\ selected t' = selected t /\
             token_selected t'
             = if jsstring_eqb (mint t) mint_
               then selected t
                    && (truthy amount_ && gt_zero (parseFloat amount_))
               else token_selected t)
          (tokenAccounts d)
          (tokenAccounts (handleTokenAmountChange d mint_ amount_)) /\
  (truthy amount_ && gt_zero (parseFloat amount_) = false ->
   Forall (fun t => jsstring_eqb (mint t) mint_ = false)
          (filter token_selected
             (tokenAccounts (handleTokenAmountChange d mint_ amount_)))).
Proof.
  unfold selected_tokens, handleTokenAmountChange.
  cbn [set_tokenAccounts tokenAccounts customTokens].
  split; [apply filter_app|]. split.
  - induction (tokenAccounts d) as [|t l IH]; cbn [map]; constructor;
      [|exact IH].
    split; [|split; [|apply with_amount_selected]];
      unfold with_amount; destruct (jsstring_eqb (mint t) mint_); reflexivity.
  - intros Hbad. apply Forall_forall. intros t' Hin.
    apply filter_In in Hin as [Hin Hsel].
    apply in_map_iff in Hin as (t & <- & _).
    rewrite with_amount_selected in Hsel.
    unfold with_amount.
    destruct (jsstring_eqb (mint t) mint_) eqn:E; [|exact E].
    rewrite Hbad, andb_false_r in Hsel. discriminate.
Qed.

(** The theorem at an amount of zero. *)
Lemma amount_change_selects_witness :
  Forall (fun t => jsstring_eqb (mint t) (js "USDC") = false)
         (filter token_selected
            (tokenAccounts
               (handleTokenAmountChange
                  (sample_dashboard MULTI [alice]
                     [sample_token "USDC" "1.5"; sample_token "BONK" "2"])
                  (js "USDC") (js "0")))).
Proof.
  apply (proj2 (proj2 (amount_change_selects
                         (sample_dashboard MULTI [alice]
                            [sample_token "USDC" "1.5";
                             sample_token "BONK" "2"])
                         (js "USDC") (js "0")))).
  reflexivity.
Defined.

(** ** Mint look-ups *)

(** X18. [getTokenDecimals] never throws.  It answers with the decimals
    and the Token-2022 program when the look-up under Token-2022 resolves,
    with the decimals and the Token program when that one rejects and the
    look-up under the Token program resolves, one step later, and with null
    when the address is no key (without any request) or when both look-ups
    reject.  It makes two requests at most. *)
Theorem getTokenDecimals_never_throws (w : World) (mw : MintWorld)
    (mintAddress : jsstring) (m : Machine) :
  exists r m',
    getTokenDecimals w mw mintAddress m = (Returned r, m') /\
    dash m' = dash m /\ log m' = log m /\
    match w_newPublicKey w mintAddress with
    | Rejected _ => r = None /\ m' = m
    | Resolved key =>
        match w_getMint mw (steps m) key (w_TOKEN_2022_PROGRAM_ID mw) with
        | Resolved decimals =>
            r = Some (decimals, w_TOKEN_2022_PROGRAM_ID mw) /\
            steps m' = S (steps m)
        | Rejected _ =>
            steps m' = S (S (steps m)) /\
            match w_getMint mw (S (steps m)) key (w_TOKEN_PROGRAM_ID w) with
            | Resolved decimals => r = Some (decimals, w_TOKEN_PROGRAM_ID w)
            | Rejected _ => r = None
            end
        end
    end.
Proof.
  unfold getTokenDecimals, try_catch, bind, newPublicKey, sdk, request, ret.
  destruct (w_newPublicKey w mintAddress) as [key|e].
  - destruct (w_getMint mw (steps m) key (w_TOKEN_2022_PROGRAM_ID mw))
      as [decimals|e] eqn:E1.
    + eexists _, _. split; [reflexivity|]. repeat split.
    + cbn [tick steps].
      destruct (w_getMint mw (S (steps m)) key (w_TOKEN_PROGRAM_ID w))
        as [decimals|e'] eqn:E2;
        (eexists _, _; split; [reflexivity|]; repeat split).
  - eexists _, _. split; [reflexivity|]. repeat split.
Qed.

(** X19. [checkRecipientATA] of [utils/solanaUtils.ts] never throws, and
    it answers true only when both addresses are keys, the account address
    derives, and the look-up of that account resolves with an account: an
    unknown recipient, a rejected request and a missing account are all
    answered false. *)
Theorem checkRecipientATA_never_throws (w : World)
    (recipientAddress mintAddress : jsstring) (m : Machine) :
  exists b m',
    SolanaUtilsHelpers.checkRecipientATA w recipientAddress mintAddress m
    = (Returned b, m') /\
    dash m' = dash m /\ log m' = log m /\ steps m' <= S (steps m) /\
    (b = true <->
     exists mintKey recipientKey ata,
       w_newPublicKey w mintAddress = Resolved mintKey /\
       w_newPublicKey w recipientAddress = Resolved recipientKey /\
       w_getAssociatedTokenAddress w mintKey recipientKey
         (w_TOKEN_PROGRAM_ID w) = Resolved ata /\
       w_getAccountInfo w (steps m) ata = Resolved true).
Proof.
  unfold SolanaUtilsHelpers.checkRecipientATA, try_catch, bind, newPublicKey,
    getAssociatedTokenAddress, sdk, request, ret.
  destruct (w_newPublicKey w mintAddress) as [mintKey|e] eqn:E1.
  2:{ exists false, m. repeat split; auto; try discriminate.
      intros (? & ? & ? & H & _). discriminate. }
  destruct (w_newPublicKey w recipientAddress) as [key|e] eqn:E2.
  2:{ exists false, m. repeat split; auto; try discriminate.
      intros (? & ? & ? & _ & H & _). discriminate. }
  destruct (w_getAssociatedTokenAddress w mintKey key (w_TOKEN_PROGRAM_ID w))
    as [ata|e] eqn:E3.
  2:{ exists false, m. repeat split; auto; try discriminate.
      intros (? & ? & ? & H1 & H2 & H3 & _).
      inversion H1; inversion H2; subst. rewrite E3 in H3. discriminate. }
  destruct (w_getAccountInfo w (steps m) ata) as [b|e] eqn:E4.
  - exists b, (tick w 0 m). repeat split; auto.
    + intros ->. now exists mintKey, key, ata.
    + intros (? & ? & ? & H1 & H2 & H3 & H4).
      inversion H1; inversion H2; subst. rewrite E3 in H3. inversion H3; subst.
      rewrite E4 in H4. now inversion H4.
  - exists false, (tick w 0 m). repeat split; auto; try discriminate.
    intros (? & ? & ? & H1 & H2 & H3 & H4).
    inversion H1; inversion H2; subst. rewrite E3 in H3. inversion H3; subst.
    rewrite E4 in H4. discriminate.
Qed.

(** ** The stand-alone builder of [utils/solanaUtils.ts] *)

Lemma solanaUtils_add_recipient_returned (w : World) (sender : PublicKey)
    (isSol : bool) (tokenMint : jsstring) (decimals : nat)
    (autoCreateATA : bool) (tx tx' : Transaction) (r : Recipient)
    (m m' : Machine) :
  SolanaUtils.add_recipient w sender isSol tokenMint decimals autoCreateATA
    tx r m = (Returned tx', m') ->
  exists i added,
    transfer_instruction w sender isSol tokenMint decimals
      (w_TOKEN_PROGRAM_ID w) r = Some i /\
    pays_recipient sender (w_TOKEN_PROGRAM_ID w) i added /\
    (autoCreateATA = false -> added = [i]) /\
    instructions tx' = instructions tx ++ added /\
    recentBlockhash tx' = recentBlockhash tx /\
    feePayer tx' = feePayer tx.
Proof.
  unfold SolanaUtils.add_recipient, transfer_instruction, bind, newPublicKey,
    getAssociatedTokenAddress, sdk, request, ret, throw.
  destruct (w_newPublicKey w (address r)) as [key|e]; [|discriminate].
  destruct (to_smallest_unit (amount r) decimals) as [amountBig|];
    [|discriminate].
  destruct isSol.
  - intros H. inversion H; subst. eexists _, _. split; [reflexivity|].
    split; [now left|]. repeat split.
  - destruct (w_newPublicKey w tokenMint) as [mintKey|e]; [|discriminate].
    destruct (w_getAssociatedTokenAddress w mintKey sender
                (w_TOKEN_PROGRAM_ID w)) as [src|e]; [|discriminate].
    destruct (w_getAssociatedTokenAddress w mintKey key
                (w_TOKEN_PROGRAM_ID w)) as [dst|e]; [|discriminate].
    destruct (w_getAccountInfo w (steps m) dst) as [ataExists|e];
      [|discriminate].
    intros H. inversion H; subst; clear H.
    destruct (negb ataExists && autoCreateATA) eqn:Hc.
    + eexists _, _. split; [reflexivity|]. split.
      * right. eexists _, _, _. split; reflexivity.
      * split.
        -- intros ->. rewrite andb_false_r in Hc. discriminate.
        -- cbn. rewrite <- app_assoc. repeat split.
    + eexists _, _. split; [reflexivity|]. split; [now left|]. repeat split.
Qed.

Lemma solanaUtils_fold_returned (w : World) (sender : PublicKey)
    (isSol : bool) (tokenMint : jsstring) (decimals : nat)
    (autoCreateATA : bool) (c : list Recipient) :
  forall tx tx' m m',
    foldM (SolanaUtils.add_recipient w sender isSol tokenMint decimals
             autoCreateATA) c tx m = (Returned tx', m') ->
    exists transfers groups,
      Forall2 (fun r i => transfer_instruction w sender isSol tokenMint
                            decimals (w_TOKEN_PROGRAM_ID w) r = Some i)
              c transfers /\
      Forall2 (pays_recipient sender (w_TOKEN_PROGRAM_ID w))
              transfers groups /\
      (autoCreateATA = false -> concat groups = transfers) /\
      instructions tx' = instructions tx ++ concat groups /\
      recentBlockhash tx' = recentBlockhash tx /\
      feePayer tx' = feePayer tx.
Proof.
  induction c as [|r c IH]; intros tx tx' m m' H; cbn [foldM] in H.
  - inversion H; subst. exists [], []. cbn. rewrite app_nil_r.
    repeat split; constructor.
  - apply bind_returned in H as (tx1 & m1 & Hadd & H).
    apply solanaUtils_add_recipient_returned in Hadd
      as (i & added & Hi & Hpay & Hno & Hins & Hb & Hf).
    apply IH in H as (transfers & groups & Hall & Hgroups & Hnone & Hins'
                      & Hb' & Hf').
    exists (i :: transfers), (added :: groups). cbn [concat].
    split; [now constructor|]. split; [now constructor|].
    split; [|split; [|split]].
    + intros Hauto. rewrite (Hno Hauto), (Hnone Hauto). reflexivity.
    + rewrite Hins', Hins, <- app_assoc. reflexivity.
    + congruence.
    + congruence.
Qed.

Lemma pays_recipient_length (sender programId : PublicKey)
    (transfers : list Instruction) (groups : list (list Instruction)) :
  Forall2 (pays_recipient sender programId) transfers groups ->
  List.length transfers <= List.length (concat groups)
  <= 2 * List.length transfers.
Proof.
  induction 1 as [|i added transfers groups Hp _ IH]; cbn [concat List.length].
  - lia.
  - rewrite length_app.
    destruct Hp as [->|(ata & owner & mk & _ & ->)]; cbn [List.length]; lia.
Qed.

Lemma solanaUtils_build_returned (w : World) (sender : PublicKey)
    (isSol : bool) (tokenMint : jsstring) (decimals : nat)
    (autoCreateATA : bool) (chunks : list (list Recipient)) :
  forall txs txs' m m',
    foldM (SolanaUtils.build_tx w sender isSol tokenMint decimals
             autoCreateATA) chunks txs m = (Returned txs', m') ->
    exists new,
      txs' = txs ++ new /\
      Forall2 (fun c tx =>
                 exists transfers groups,
                   Forall2 (fun r i =>
                              transfer_instruction w sender isSol tokenMint
                                decimals (w_TOKEN_PROGRAM_ID w) r = Some i)
                           c transfers /\
                   Forall2 (pays_recipient sender (w_TOKEN_PROGRAM_ID w))
                           transfers groups /\
                   (autoCreateATA = false -> concat groups = transfers) /\
                   instructions tx = concat groups /\
                   recentBlockhash tx <> None /\
                   feePayer tx = Some sender)
              chunks new.
Proof.
  induction chunks as [|c chunks IH]; intros txs txs' m m' H;
    cbn [foldM] in H.
  - inversion H; subst. exists []. rewrite app_nil_r. split; constructor.
  - apply bind_returned in H as (txs1 & m1 & Hc & H).
    unfold SolanaUtils.build_tx in Hc.
    apply bind_returned in Hc as (latest & m2 & _ & Hc).
    apply bind_returned in Hc as (tx & m3 & Hfold & Hret).
    inversion Hret; subst txs1 m3; clear Hret.
    apply solanaUtils_fold_returned in Hfold
      as (transfers & groups & Hall & Hgroups & Hnone & Hins & Hb & Hf).
    apply IH in H as (new & -> & Hnew).
    exists (tx :: new). rewrite <- app_assoc. split; [reflexivity|].
    constructor; [|exact Hnew].
    exists transfers, groups. cbn in Hins, Hb, Hf.
    repeat split; try assumption. rewrite Hb. discriminate.
Qed.

(** X20. In a build of the stand-alone builder that returns, there is one
    transaction for each chunk of the recipient list (chunks of 12 for SOL
    and of 10 for a token), with the blockhash set and the sender as fee
    payer.  The transaction of a chunk holds, for each recipient of the
    chunk in order, the transfer instruction of the recipient, alone or
    right after the instruction that creates the account it pays into: so
    between one and two instructions for each recipient, and no separate
    creation transaction.  With [autoCreateATA] off it holds the transfer
    instructions only. *)
Theorem solanaUtils_build_spec (w : World) (sender : PublicKey)
    (recipients : list Recipient) (tokenMint : jsstring) (decimals : nat)
    (autoCreateATA : bool) (m m' : Machine) (txs : list Transaction) :
  SolanaUtils.buildMultiSendTransaction w sender recipients tokenMint
    decimals autoCreateATA m = (Returned txs, m') ->
  let isSol := jsstring_eqb tokenMint SOL_MINT in
  let size := if isSol then SolanaUtils.MAX_TX_SIZE_SOL
              else SolanaUtils.MAX_TX_SIZE_SPL in
  List.length txs
  = (List.length recipients + Pos.to_nat size - 1) / Pos.to_nat size /\
  Forall2 (fun c tx =>
             exists transfers groups,
               Forall2 (fun r i =>
                          transfer_instruction w sender isSol tokenMint
                            decimals (w_TOKEN_PROGRAM_ID w) r = Some i)
                       c transfers /\
               Forall2 (pays_recipient sender (w_TOKEN_PROGRAM_ID w))
                       transfers groups /\
               (autoCreateATA = false -> concat groups = transfers) /\
               instructions tx = concat groups /\
               recentBlockhash tx <> None /\
               feePayer tx = Some sender)
          (chunk recipients size) txs /\
  Forall (fun tx => 1 <= List.length (instructions tx)
                    <= 2 * Pos.to_nat size) txs.
Proof.
  intros H isSol size. unfold SolanaUtils.buildMultiSendTransaction in H.
  fold isSol in H. fold size in H.
  apply solanaUtils_build_returned in H as (new & Hnew & Hall).
  cbn in Hnew. subst new.
  destruct (chunk_spec recipients size) as (Hlen & Hsizes & _).
  split; [now rewrite <- (Forall2_length Hall)|]. split; [exact Hall|].
  clear Hlen. induction Hall as [|c tx cs txs' Hc _ IH]; [constructor|].
  inversion Hsizes as [|? ? Hsize Hrest]; subst.
  constructor; [|now apply IH].
  destruct Hc as (transfers & groups & Htr & Hg & _ & Hins & _).
  rewrite Hins. pose proof (pays_recipient_length _ _ _ _ Hg) as Hl.
  rewrite <- (Forall2_length Htr) in Hl. lia.
Qed.

(** The theorem at three token recipients without account. *)
Lemma solanaUtils_build_spec_witness :
  exists txs,
    fst (SolanaUtils.buildMultiSendTransaction
           (sample_world no_accounts always_confirmed wallet_signs)
           1%N [alice; bob; alice] (js "Mint") 6 true
           (sample_machine (sample_dashboard SPL [] [])))
    = Returned txs /\
    List.length txs = (3 + 10 - 1) / 10 /\
    Forall (fun tx => 1 <= List.length (instructions tx) <= 2 * 10) txs.
Proof.
  pose (W := sample_world no_accounts always_confirmed wallet_signs).
  pose (m0 := sample_machine (sample_dashboard SPL [] [])).
  destruct (SolanaUtils.buildMultiSendTransaction W 1%N [alice; bob; alice]
              (js "Mint") 6 true m0) as [[txs|e] m1] eqn:E;
    [|vm_compute in E; discriminate].
  exists txs. split.
  { change (fst (SolanaUtils.buildMultiSendTransaction W 1%N
                   [alice; bob; alice] (js "Mint") 6 true m0)
            = Returned txs).
    now rewrite E. }
  destruct (solanaUtils_build_spec W 1%N [alice; bob; alice] (js "Mint") 6
              true m0 m1 txs E) as (Hlen & _ & Hsizes).
  split; [exact Hlen | exact Hsizes].
Defined.

